(** * Lead lifecycle of the blocharch dashboard: lib/db.js and the API routes

    A shallow embedding of the lead store ([lib/db.js]), of the two API
    routes that the automation tool and the dashboard use
    ([GET /api/n8n/leads], [PATCH /api/leads/:id]) and of the ingestion
    loop of [scripts/populate-db.js]; then of the queries and routes of the
    dashboard ([GET /dashboard], [GET /practices], [GET /practices/:id],
    [GET /pipeline], [POST /api/leads/:id/activity]).

    Conventions of the embedding.
    - A JavaScript value is a [jsval]; a finite number is the rational it
      denotes, [NaN] has a constructor of its own.
    - A JavaScript string is the [string] of its UTF-8 bytes; strings are
      well formed (no lone surrogate), as the bytes of one are.
    - A table is the list of its rows; a [SERIAL] column draws its values
      from a counter kept in the store; [NOW()] is an argument of the
      operation that calls it.
    - The connection pool is configured, so [query] reaches the server;
      it either returns or throws: operations return a [result].
      The constraints that the schema of [initSchema] declares (primary
      and foreign keys, [UNIQUE], [NOT NULL], [INTEGER]) are checked by the
      statements, and so is what the server checks of a parameter when it
      is bound: the text of an [INTEGER] is an integer, and no text and no
      [jsonb] holds U+0000.  Integers are unbounded and the declared widths
      of the [VARCHAR] columns are not modelled: a sequence never runs
      out, an id always fits [INTEGER] and a text always fits the width of
      its column.
    - Every statement that writes is recorded, in order, in the [journal]
      of the store. *)

From Stdlib Require Import ZArith QArith List String Ascii Bool Lia.
From Stdlib Require Import Sorting.Sorted Sorting.Permutation.
Import ListNotations.

Set Warnings "-register-all".
Local Open Scope string_scope.
Local Open Scope list_scope.
Local Open Scope Z_scope.

(** ** JavaScript values *)

Module JS.

Inductive jsval : Type :=
| JUndefined
| JNull
| JBool (b : bool)
| JNum (q : Q)
| JNaN
| JStr (s : string)
| JArr (items : list jsval)
| JObj (props : list (string * jsval))
| JFun (name : string).

(** ToBoolean. *)
Definition truthy (v : jsval) : bool :=
  match v with
  | JUndefined | JNull | JNaN => false
  | JBool b => b
  | JNum q => negb (Qeq_bool q 0)
  | JStr s => negb (String.eqb s "")
  | JArr _ | JObj _ | JFun _ => true
  end.

(** [a || b] *)
Definition js_or (a b : jsval) : jsval := if truthy a then a else b.

(** The properties every object literal inherits from [Object.prototype]. *)
Definition object_prototype : list (string * jsval) :=
  [ ("constructor", JFun "Object");
    ("__defineGetter__", JFun "__defineGetter__");
    ("__defineSetter__", JFun "__defineSetter__");
    ("hasOwnProperty", JFun "hasOwnProperty");
    ("__lookupGetter__", JFun "__lookupGetter__");
    ("__lookupSetter__", JFun "__lookupSetter__");
    ("isPrototypeOf", JFun "isPrototypeOf");
    ("propertyIsEnumerable", JFun "propertyIsEnumerable");
    ("toString", JFun "toString");
    ("valueOf", JFun "valueOf");
    ("toLocaleString", JFun "toLocaleString") ].

Fixpoint assoc (k : string) (props : list (string * jsval)) : option jsval :=
  match props with
  | [] => None
  | (k', v) :: rest => if String.eqb k k' then Some v else assoc k rest
  end.

(** [o[k]] on a plain object: own properties first, then the prototype;
    the accessor [__proto__] answers the prototype object itself. *)
Definition get_props (props : list (string * jsval)) (k : string) : jsval :=
  match assoc k props with
  | Some v => v
  | None =>
      match assoc k object_prototype with
      | Some v => v
      | None => if String.eqb k "__proto__" then JObj object_prototype else JUndefined
      end
  end.

(** [data.k] for the request bodies and records handled here: plain
    objects answer as above; the other values (arrays, primitives) have
    none of the properties this program reads. *)
Definition js_get (o : jsval) (k : string) : jsval :=
  match o with
  | JObj props => get_props props k
  | _ => JUndefined
  end.

(** [typeof v === 'number' && v >= 0 && v <= 100] *)
Definition number_in_0_100 (v : jsval) : bool :=
  match v with
  | JNum q => Qle_bool 0 q && Qle_bool q 100
  | _ => false
  end.

Definition is_array (v : jsval) : bool :=
  match v with JArr _ => true | _ => false end.

(** [v !== undefined] *)
Definition is_defined (v : jsval) : bool :=
  match v with JUndefined => false | _ => true end.

Definition Q_is_integer (q : Q) : bool :=
  (Qnum q mod Zpos (Qden q) =? 0)%Z.

Definition Q_to_Z (q : Q) : Z := (Qnum q / Zpos (Qden q))%Z.

End JS.
Export JS.

(** ** Strings: white space, [trim], [parseInt] *)

Module Str.

Definition code (a : ascii) : N := N_of_ascii a.

Definition ascii_ws (a : ascii) : bool :=
  let c := code a in
  ((9 <=? c) && (c <=? 13) || (c =? 32))%N.

(** U+00A0 is C2 A0. *)
Definition ws2 (a b : ascii) : bool :=
  ((code a =? 194) && (code b =? 160))%N.

(** U+1680, U+2000..U+200A, U+2028, U+2029, U+202F, U+205F, U+3000, U+FEFF. *)
Definition ws3 (a b c : ascii) : bool :=
  let x := code a in let y := code b in let z := code c in
  ((x =? 225) && (y =? 154) && (z =? 128)
   || (x =? 226) && (y =? 128)
        && ((128 <=? z) && (z <=? 138) || (z =? 168) || (z =? 169) || (z =? 175))
   || (x =? 226) && (y =? 129) && (z =? 159)
   || (x =? 227) && (y =? 128) && (z =? 128)
   || (x =? 239) && (y =? 187) && (z =? 191))%N.

(** [s.trimStart()]: the white space that [String.prototype.trim] and
    [parseInt] skip, read off the UTF-8 bytes. *)
Fixpoint trimStart (s : string) : string :=
  match s with
  | EmptyString => EmptyString
  | String a r =>
      if ascii_ws a then trimStart r
      else match r with
           | EmptyString => s
           | String b r2 =>
               if ws2 a b then trimStart r2
               else match r2 with
                    | EmptyString => s
                    | String c r3 => if ws3 a b c then trimStart r3 else s
                    end
           end
  end.

Fixpoint trimEnd (s : string) : string :=
  match s with
  | EmptyString => EmptyString
  | String a r =>
      if String.eqb (trimStart s) "" then EmptyString else String a (trimEnd r)
  end.

Definition trim (s : string) : string := trimEnd (trimStart s).

Definition digit (a : ascii) : option Z :=
  let c := code a in
  if ((48 <=? c) && (c <=? 57))%N then Some (Z.of_N c - 48) else None.

(** The longest prefix of decimal digits, read most significant first. *)
Fixpoint digits (acc : option Z) (s : string) : option Z :=
  match s with
  | EmptyString => acc
  | String a r =>
      match digit a with
      | Some d => digits (Some (10 * match acc with Some n => n | None => 0 end + d)) r
      | None => acc
      end
  end.

(** [parseInt(s, 10)]; [None] is [NaN]. *)
Definition parseInt (s : string) : option Z :=
  match trimStart s with
  | String "-" r => option_map Z.opp (digits None r)
  | String "+" r => digits None r
  | t => digits None t
  end.

End Str.

(** ** The stage resolver of [listLeadsForN8n] *)

Definition LEAD_STATUSES : list string :=
  ["new"; "contacted"; "qualified"; "proposal"; "negotiating"; "won"; "lost"].

(** [LEAD_STATUSES.includes(s)] for a string [s]. *)
Definition is_lead_status (s : string) : bool :=
  existsb (String.eqb s) LEAD_STATUSES.

Definition stageMap : list (string * jsval) :=
  [ ("new", JStr "cold"); ("contacted", JStr "no_reply");
    ("qualified", JStr "positive_reply"); ("proposal", JStr "positive_reply");
    ("negotiating", JStr "positive_reply"); ("won", JStr "positive_reply");
    ("lost", JStr "negative_reply") ].

(** [stageMap[row.status] || 'cold'] *)
Definition outreach_stage (status : string) : jsval :=
  js_or (get_props stageMap status) (JStr "cold").

(** ** The driver and the outcome of a query *)

(** node-postgres sends every parameter as text.  [prepareValue] is its
    rendering of a value that is neither [null], [undefined] nor a string
    (a number, a boolean, an array, an object); it belongs to the driver,
    not to this repository. *)
Class PgDriver : Type := { prepareValue : jsval -> string }.

(** The text of a parameter; [None] is SQL [NULL]. *)
Definition pg_text `{PgDriver} (v : jsval) : option string :=
  match v with
  | JUndefined | JNull => None
  | JStr s => Some s
  | _ => Some (prepareValue v)
  end.

Inductive error : Type :=
| NotNullViolation
| UniqueViolation
| ForeignKeyViolation
| InvalidInteger
| InvalidByteSequence
| NegativeLimit
| TypeError.

(** *** What the server refuses in a parameter

    PostgreSQL stores no U+0000.  It refuses a text parameter that holds
    the byte 00 ("invalid byte sequence for encoding UTF8: 0x00"), and a
    [jsonb] parameter whose JSON text holds the escape of U+0000 in a
    string or in a key; [InvalidByteSequence] stands for both.  The check
    is made when the parameters are bound, before the statement runs. *)
Fixpoint has_nul (s : string) : bool :=
  match s with
  | EmptyString => false
  | String a r => (N_of_ascii a =? 0)%N || has_nul r
  end.

(** A value bound as a text. *)
Definition text_fits `{PgDriver} (v : jsval) : bool :=
  match pg_text v with
  | Some s => negb (has_nul s)
  | None => true
  end.

(** The strings and the keys of the text [JSON.stringify(v)]; a property
    whose value is [undefined] or a function is left out of that text.
    (An object is the list of its own properties, each key once.) *)
Fixpoint json_has_nul (v : jsval) : bool :=
  match v with
  | JStr s => has_nul s
  | JArr items => existsb json_has_nul items
  | JObj props =>
      existsb (fun kv : string * jsval =>
                 let (k, x) := kv in
                 match x with
                 | JUndefined | JFun _ => false
                 | _ => has_nul k || json_has_nul x
                 end) props
  | _ => false
  end.

(** [JSON.stringify(v)] bound as [jsonb]. *)
Definition json_fits (v : jsval) : bool := negb (json_has_nul v).

Inductive result (A : Type) : Type :=
| Ok (a : A)
| Err (e : error).
Arguments Ok {A} a.
Arguments Err {A} e.

(** ** Rows and the store *)

Record practice : Type := mkPractice {
  p_id : Z;
  p_url : string;
  p_name : string;
  p_website : option string;
  p_socials : jsval;
  p_email : option string;
  p_address : option string;
  p_contact : option string;
  p_description : option string;
  p_years_active : option string;
  p_staff : option string;
  p_awards : jsval;
  p_source : option string;
  p_created_at : Z;
  p_updated_at : Z
}.

Record lead : Type := mkLead {
  l_id : Z;
  l_practice_id : Z;
  l_status : string;
  l_score : option Z;
  l_notes : option string;
  l_tags : option jsval;
  l_next_follow_up : option Z;
  l_created_at : Z;
  l_updated_at : Z
}.

Record activity : Type := mkActivity {
  a_id : Z;
  a_lead_id : Z;
  a_kind : string;
  a_title : option string;
  a_body : option string;
  a_extra : jsval;
  a_created_at : Z
}.

Inductive column : Type := ColStatus | ColNotes | ColScore | ColTags | ColUpdatedAt.

(** The statements that write, as the journal records them. *)
Inductive write : Type :=
| UpsertPractice (url : string)
| InsertLead (practice_id : Z)
| UpdateLead (lead_id : Z) (cols : list column)
| InsertActivity (lead_id : Z) (kind : string).

Record db : Type := mkDb {
  practices : list practice;
  leads : list lead;
  activities : list activity;
  practices_id_seq : Z;
  leads_id_seq : Z;
  activities_id_seq : Z;
  journal : list write
}.

Definition empty_db : db := mkDb [] [] [] 1 1 1 [].

Definition with_practices (ps : list practice) (d : db) : db :=
  mkDb ps (leads d) (activities d)
       (practices_id_seq d) (leads_id_seq d) (activities_id_seq d) (journal d).

Definition with_leads (ls : list lead) (d : db) : db :=
  mkDb (practices d) ls (activities d)
       (practices_id_seq d) (leads_id_seq d) (activities_id_seq d) (journal d).

Definition with_activities (acts : list activity) (d : db) : db :=
  mkDb (practices d) (leads d) acts
       (practices_id_seq d) (leads_id_seq d) (activities_id_seq d) (journal d).

Definition log (w : write) (d : db) : db :=
  mkDb (practices d) (leads d) (activities d)
       (practices_id_seq d) (leads_id_seq d) (activities_id_seq d)
       (journal d ++ [w]).

(** ** Computations over the store

    A computation returns a value or throws, and leaves a store either
    way: there is no transaction around the statements of a handler, so
    what was written before an exception stays written. *)

Definition M (A : Type) : Type := db -> result A * db.

Definition ret {A} (a : A) : M A := fun d => (Ok a, d).

Definition throw {A} (e : error) : M A := fun d => (Err e, d).

Definition bind {A B} (m : M A) (k : A -> M B) : M B :=
  fun d =>
    match m d with
    | (Ok a, d') => k a d'
    | (Err e, d') => (Err e, d')
    end.

Notation "x <- m ;; k" := (bind m (fun x => k))
  (at level 61, m at next level, right associativity).
Notation "m ;;; k" := (bind m (fun _ => k))
  (at level 61, right associativity).

Definition gets {A} (f : db -> A) : M A := fun d => (Ok (f d), d).

Definition modify (f : db -> db) : M unit := fun d => (Ok tt, f d).

Definition guard (b : bool) (e : error) : M unit :=
  if b then ret tt else throw e.

(** [nextval] of the three [SERIAL] columns. *)
Definition next_practice_id : M Z :=
  fun d => (Ok (practices_id_seq d),
            mkDb (practices d) (leads d) (activities d)
                 (practices_id_seq d + 1) (leads_id_seq d) (activities_id_seq d)
                 (journal d)).

Definition next_lead_id : M Z :=
  fun d => (Ok (leads_id_seq d),
            mkDb (practices d) (leads d) (activities d)
                 (practices_id_seq d) (leads_id_seq d + 1) (activities_id_seq d)
                 (journal d)).

Definition next_activity_id : M Z :=
  fun d => (Ok (activities_id_seq d),
            mkDb (practices d) (leads d) (activities d)
                 (practices_id_seq d) (leads_id_seq d) (activities_id_seq d + 1)
                 (journal d)).

(** ** lib/db.js *)

Section Store.

Context `{PgDriver}.

(** [FROM leads l JOIN practices p ON p.id = l.practice_id] *)
Definition joined (d : db) : list (lead * practice) :=
  flat_map
    (fun l => map (pair l)
                  (filter (fun p => p_id p =? l_practice_id l) (practices d)))
    (leads d).

(** [practice && practice.id ? practice : null] *)
Definition practice_or_null (p : practice) : option practice :=
  if p_id p =? 0 then None else Some p.

(** A lead as [getLeadById] returns it: the row and its [practice]. *)
Definition lead_obj : Type := (lead * option practice)%type.

Definition getLeadById (leadId : Z) : M (option lead_obj) :=
  gets (fun d =>
          match filter (fun r => l_id (fst r) =? leadId) (joined d) with
          | [] => None
          | (l, p) :: _ => Some (l, practice_or_null p)
          end).

(** *** ensureLead *)

Definition new_lead (id practiceId now : Z) : lead :=
  mkLead id practiceId "new" (Some 0) None (Some (JArr [])) None now now.

Definition insert_lead (now practiceId : Z) : M Z :=
  id <- next_lead_id ;;
  known <- gets (fun d => existsb (fun p => p_id p =? practiceId) (practices d)) ;;
  guard known ForeignKeyViolation ;;;
  taken <- gets (fun d => existsb (fun l => (l_id l =? id) || (l_practice_id l =? practiceId))
                                  (leads d)) ;;
  guard (negb taken) UniqueViolation ;;;
  modify (fun d => log (InsertLead practiceId)
                       (with_leads (leads d ++ [new_lead id practiceId now]) d)) ;;;
  ret id.

Definition ensureLead (now practiceId : Z) : M Z :=
  r <- gets (fun d => filter (fun l => l_practice_id l =? practiceId) (leads d)) ;;
  match r with
  | row :: _ => ret (l_id row)
  | [] => insert_lead now practiceId
  end.

(** *** updateLead *)

(** The destructured argument [{ status, notes, score, tags }]. *)
Record lead_fields : Type := mkFields {
  lf_status : jsval;
  lf_notes : jsval;
  lf_score : jsval;
  lf_tags : jsval
}.

(** [LEAD_STATUSES.includes(v)] *)
Definition includes_status (v : jsval) : bool :=
  match v with JStr s => is_lead_status s | _ => false end.

(** [v && LEAD_STATUSES.includes(v)] *)
Definition status_accepted (v : jsval) : bool :=
  truthy v && includes_status v.

(** One entry of [updates] with the parameter pushed for it. *)
Inductive assignment : Type :=
| SetStatus (v : jsval)
| SetNotes (v : jsval)
| SetScore (v : jsval)
| SetTags (v : jsval)
| SetUpdatedAtNow.

Definition column_of (a : assignment) : column :=
  match a with
  | SetStatus _ => ColStatus
  | SetNotes _ => ColNotes
  | SetScore _ => ColScore
  | SetTags _ => ColTags
  | SetUpdatedAtNow => ColUpdatedAt
  end.

Definition lead_updates (f : lead_fields) : list assignment :=
  (if status_accepted (lf_status f) then [SetStatus (lf_status f)] else [])
  ++ (if is_defined (lf_notes f) then [SetNotes (lf_notes f)] else [])
  ++ (if number_in_0_100 (lf_score f) then [SetScore (lf_score f)] else [])
  ++ (if is_array (lf_tags f) then [SetTags (lf_tags f)] else []).

(** What the server makes of a parameter bound to a column of [leads]:
    a text ([status], [notes]) and the [jsonb] of the tags hold no
    U+0000, and an [INTEGER] column takes the text of an integer only. *)
Definition bind_param (a : assignment) : result (lead -> lead) :=
  match a with
  | SetStatus v =>
      match pg_text v with
      | Some s =>
          if has_nul s then Err InvalidByteSequence
          else Ok (fun l => mkLead (l_id l) (l_practice_id l) s (l_score l) (l_notes l)
                                   (l_tags l) (l_next_follow_up l) (l_created_at l)
                                   (l_updated_at l))
      | None => Err NotNullViolation
      end
  | SetNotes v =>
      if text_fits v
      then Ok (fun l => mkLead (l_id l) (l_practice_id l) (l_status l) (l_score l) (pg_text v)
                               (l_tags l) (l_next_follow_up l) (l_created_at l)
                               (l_updated_at l))
      else Err InvalidByteSequence
  | SetScore v =>
      match v with
      | JNum q =>
          if Q_is_integer q
          then Ok (fun l => mkLead (l_id l) (l_practice_id l) (l_status l) (Some (Q_to_Z q))
                                   (l_notes l) (l_tags l) (l_next_follow_up l)
                                   (l_created_at l) (l_updated_at l))
          else Err InvalidInteger
      | _ => Err InvalidInteger
      end
  | SetTags v =>
      if json_fits v
      then Ok (fun l => mkLead (l_id l) (l_practice_id l) (l_status l) (l_score l) (l_notes l)
                               (Some v) (l_next_follow_up l) (l_created_at l)
                               (l_updated_at l))
      else Err InvalidByteSequence
  | SetUpdatedAtNow => Ok (fun l => l)
  end.

Definition touch (now : Z) (a : assignment) (l : lead) : lead :=
  match a with
  | SetUpdatedAtNow =>
      mkLead (l_id l) (l_practice_id l) (l_status l) (l_score l) (l_notes l) (l_tags l)
             (l_next_follow_up l) (l_created_at l) now
  | _ => l
  end.

(** The [SET] list applied to one row, left to right; it fails when a
    parameter does not fit its column. *)
Fixpoint set_columns (now : Z) (sets : list assignment) : result (lead -> lead) :=
  match sets with
  | [] => Ok (fun l => l)
  | a :: rest =>
      match bind_param a, set_columns now rest with
      | Ok f, Ok g => Ok (fun l => g (touch now a (f l)))
      | Err e, _ => Err e
      | _, Err e => Err e
      end
  end.

(** [UPDATE leads SET ... WHERE id = $i] *)
Definition update_leads (now : Z) (sets : list assignment) (leadId : Z) : M unit :=
  match set_columns now sets with
  | Err e => throw e
  | Ok f =>
      modify (fun d => log (UpdateLead leadId (map column_of sets))
                           (with_leads (map (fun l => if l_id l =? leadId then f l else l)
                                            (leads d)) d))
  end.

Definition updateLead (now leadId : Z) (f : lead_fields) : M (option lead_obj) :=
  match lead_updates f with
  | [] => getLeadById leadId
  | updates =>
      update_leads now (updates ++ [SetUpdatedAtNow]) leadId ;;;
      getLeadById leadId
  end.

(** *** addActivity *)

(** The destructured argument [{ kind, title, body, metadata }]. *)
Record activity_fields : Type := mkActivityFields {
  af_kind : jsval;
  af_title : jsval;
  af_body : jsval;
  af_metadata : jsval
}.

(** A default parameter value replaces [undefined] only. *)
Definition default_to (v dflt : jsval) : jsval :=
  match v with JUndefined => dflt | _ => v end.

(** The parameters of the [INSERT] as the server takes them: [kind],
    [title] and [body] as texts, [JSON.stringify(metadata)] as [jsonb]. *)
Definition activity_fits (f : activity_fields) : bool :=
  text_fits (default_to (af_kind f) (JStr "note"))
  && text_fits (default_to (af_title f) (JStr ""))
  && text_fits (default_to (af_body f) (JStr ""))
  && json_fits (default_to (af_metadata f) (JObj [])).

Definition addActivity (now leadId : Z) (f : activity_fields) : M activity :=
  let kind := default_to (af_kind f) (JStr "note") in
  let title := default_to (af_title f) (JStr "") in
  let body := default_to (af_body f) (JStr "") in
  let metadata := default_to (af_metadata f) (JObj []) in
  guard (activity_fits f) InvalidByteSequence ;;;
  id <- next_activity_id ;;
  match pg_text kind with
  | None => throw NotNullViolation
  | Some k =>
      known <- gets (fun d => existsb (fun l => l_id l =? leadId) (leads d)) ;;
      guard known ForeignKeyViolation ;;;
      taken <- gets (fun d => existsb (fun a => a_id a =? id) (activities d)) ;;
      guard (negb taken) UniqueViolation ;;;
      let row := mkActivity id leadId k (pg_text title) (pg_text body) metadata now in
      modify (fun d => log (InsertActivity leadId k)
                           (with_activities (activities d ++ [row]) d)) ;;;
      ret row
  end.

(** *** listLeadsForN8n *)

Record practice_view : Type := mkView {
  pv_id : Z;
  pv_name : string;
  pv_email : string;
  pv_contact : string;
  pv_website : string;
  pv_address : string
}.

Record n8n_lead : Type := mkN8n {
  lead_id : Z;
  practice_id : Z;
  status : string;
  outreach : jsval;
  practice_info : option practice_view
}.

(** [column || ''] on a nullable text column. *)
Definition or_empty (v : option string) : string :=
  match v with Some s => s | None => "" end.

Definition n8n_of_row (row : lead * practice) : n8n_lead :=
  let (l, p) := row in
  mkN8n (l_id l) (p_id p) (l_status l) (outreach_stage (l_status l))
        (if p_id p =? 0 then None
         else Some (mkView (p_id p) (p_name p) (or_empty (p_email p))
                           (or_empty (p_contact p)) (or_empty (p_website p))
                           (or_empty (p_address p)))).

(** [p.email IS NOT NULL AND p.email != ''] *)
Definition has_email (p : practice) : bool :=
  match p_email p with
  | Some e => negb (String.eqb e "")
  | None => false
  end.

(** The [WHERE] clause: the conditions pushed onto [where], joined by
    [AND]. *)
Definition n8n_where (status : option string) (withEmailOnly : bool)
           (row : lead * practice) : bool :=
  (match status with
   | Some s => if String.eqb s "" then true else String.eqb (l_status (fst row)) s
   | None => true
   end)
  && (if withEmailOnly then has_email (snd row) else true).

(** [ORDER BY l.id] *)
Fixpoint insert_by_lead_id (r : lead * practice) (rows : list (lead * practice))
  : list (lead * practice) :=
  match rows with
  | [] => [r]
  | x :: rest =>
      if l_id (fst r) <=? l_id (fst x) then r :: rows
      else x :: insert_by_lead_id r rest
  end.

Definition order_by_lead_id (rows : list (lead * practice)) : list (lead * practice) :=
  fold_right insert_by_lead_id [] rows.

(** The one text that the query binds: the status, when there is one. *)
Definition status_fits (status : option string) : bool :=
  match status with
  | Some s => negb (has_nul s)
  | None => true
  end.

Definition listLeadsForN8n (limit : Z) (status : option string) (withEmailOnly : bool)
  : M (list n8n_lead) :=
  guard (status_fits status) InvalidByteSequence ;;;
  guard (0 <=? limit) NegativeLimit ;;;
  rows <- gets (fun d =>
                  firstn (Z.to_nat limit)
                         (order_by_lead_id
                            (filter (n8n_where status withEmailOnly) (joined d)))) ;;
  ret (map n8n_of_row rows).

(** *** upsertPractice *)

(** The row that the [VALUES] list describes. *)
Definition practice_row (record : jsval) (url name : string) (now row_id created : Z)
  : practice :=
  let field k := js_get record k in
  mkPractice row_id url name
             (pg_text (js_or (field "website") JNull))
             (js_or (field "socials") (JArr []))
             (pg_text (js_or (field "email") JNull))
             (pg_text (js_or (field "address") JNull))
             (pg_text (js_or (field "contact") JNull))
             (pg_text (js_or (field "description") JNull))
             (pg_text (js_or (field "years_active") JNull))
             (pg_text (js_or (field "staff") JNull))
             (js_or (field "awards") (JArr []))
             (pg_text (js_or (field "source") (JStr "architect_directory")))
             created now.

(** The twelve parameters of the statement as the server takes them: ten
    texts and the two [jsonb] of [socials] and [awards]. *)
Definition record_fits (record : jsval) : bool :=
  let field k := js_get record k in
  text_fits (field "url")
  && text_fits (js_or (field "name") (JStr ""))
  && text_fits (js_or (field "website") JNull)
  && json_fits (js_or (field "socials") (JArr []))
  && text_fits (js_or (field "email") JNull)
  && text_fits (js_or (field "address") JNull)
  && text_fits (js_or (field "contact") JNull)
  && text_fits (js_or (field "description") JNull)
  && text_fits (js_or (field "years_active") JNull)
  && text_fits (js_or (field "staff") JNull)
  && json_fits (js_or (field "awards") (JArr []))
  && text_fits (js_or (field "source") (JStr "architect_directory")).

Definition upsertPractice (now : Z) (record : jsval) : M Z :=
  match record with
  | JUndefined | JNull => throw TypeError
  | _ =>
      guard (record_fits record) InvalidByteSequence ;;;
      id <- next_practice_id ;;
      match pg_text (js_get record "url"),
            pg_text (js_or (js_get record "name") (JStr "")) with
      | Some url, Some name =>
          conflict <- gets (fun d => filter (fun p => String.eqb (p_url p) url)
                                            (practices d)) ;;
          match conflict with
          | old :: _ =>
              (* ON CONFLICT (url) DO UPDATE SET ... *)
              modify (fun d =>
                        log (UpsertPractice url)
                            (with_practices
                               (map (fun p => if String.eqb (p_url p) url
                                              then practice_row record url name now
                                                                (p_id p) (p_created_at p)
                                              else p)
                                    (practices d)) d)) ;;;
              ret (p_id old)
          | [] =>
              taken <- gets (fun d => existsb (fun p => p_id p =? id) (practices d)) ;;
              guard (negb taken) UniqueViolation ;;;
              modify (fun d =>
                        log (UpsertPractice url)
                            (with_practices
                               (practices d ++ [practice_row record url name now id now])
                               d)) ;;;
              ret id
          end
      | _, _ => throw NotNullViolation
      end
  end.

(** ** scripts/populate-db.js *)

(** [const id = await upsertPractice(record); await ensureLead(id);] *)
Definition upsert_then_ensure (t_practice t_lead : Z) (record : jsval) : M (Z * Z) :=
  id <- upsertPractice t_practice record ;;
  lid <- ensureLead t_lead id ;;
  ret (id, lid).

(** The body of the loop of [main]; a record without [url] is skipped. *)
Definition ingest (t_practice t_lead : Z) (record : jsval) : M unit :=
  if negb (truthy record) || negb (truthy (js_get record "url")) then ret tt
  else upsert_then_ensure t_practice t_lead record ;;; ret tt.

(** The loop over [data]; each record comes with the two readings of the
    clock that its statements make. *)
Fixpoint populate (data : list (Z * Z * jsval)) : M unit :=
  match data with
  | [] => ret tt
  | (t_practice, t_lead, record) :: rest =>
      ingest t_practice t_lead record ;;; populate rest
  end.

(** ** The API routes *)

(** A value of [req.query], as the query-string parser builds it. *)
Inductive qval : Type :=
| QStr (s : string)
| QArr (items : list qval)
| QObj (props : list (string * qval)).

(** ToString, which [parseInt] applies to its argument. *)
Fixpoint q_to_string (v : qval) : string :=
  match v with
  | QStr s => s
  | QArr items =>
      (fix join (l : list qval) : string :=
         match l with
         | [] => ""
         | x :: r =>
             match r with
             | [] => q_to_string x
             | _ :: _ => (q_to_string x ++ "," ++ join r)%string
             end
         end) items
  | QObj _ => "[object Object]"
  end.

Inductive response : Type :=
| JsonLeads (items : list n8n_lead)
| JsonLead (id practice : Z) (status : string) (score : Z) (notes : string) (tags : jsval)
| NotFound
| ServerError.

(** A handler's [catch (e) { next(e) }] ends in the 500 page. *)
Definition respond (m : M response) (d : db) : response * db :=
  match m d with
  | (Ok r, d') => (r, d')
  | (Err _, d') => (ServerError, d')
  end.

(** [(req.query.status || '').trim() || null] *)
Definition n8n_status (q : option qval) : M (option string) :=
  match q with
  | None => ret None
  | Some (QStr s) =>
      let t := Str.trim s in
      ret (if String.eqb t "" then None else Some t)
  | Some _ => throw TypeError
  end.

(** [Math.min(500, Math.max(1, parseInt(req.query.limit, 10) || 200))];
    [parseInt] rounds a long digit string to a double, which the bounds
    make invisible. *)
Definition n8n_limit (q : option qval) : Z :=
  let parsed :=
    match q with
    | None => None
    | Some v => Str.parseInt (q_to_string v)
    end in
  let n :=
    match parsed with
    | Some n => if n =? 0 then 200 else n
    | None => 200
    end in
  Z.min 500 (Z.max 1 n).

Definition get_n8n_leads (q_status q_limit : option qval) : M response :=
  st <- n8n_status q_status ;;
  items <- listLeadsForN8n (n8n_limit q_limit) st true ;;
  ret (JsonLeads items).

(** A number bound to an [INTEGER] parameter; the text of [NaN] is no
    integer. *)
Definition int_param (n : option Z) : M Z :=
  match n with
  | Some z => ret z
  | None => throw InvalidInteger
  end.

(** The text a template literal splices in for a string. *)
Definition spliced (v : jsval) : string :=
  match v with JStr s => s | _ => "" end.

Definition status_change_title (v : jsval) : string :=
  ("Status â†’ " ++ spliced v)%string.

(** [app.patch('/api/leads/:id')]; [t_activity] and [t_update] are the
    readings of [NOW()] of its two statements. *)
Definition patch_lead (t_activity t_update : Z) (id : string) (body : jsval) : M response :=
  leadId <- int_param (Str.parseInt id) ;;
  found <- getLeadById leadId ;;
  match found with
  | None => ret NotFound
  | Some _ =>
      let data := js_or body (JObj []) in
      (if status_accepted (js_get data "status")
       then addActivity t_activity leadId
                        (mkActivityFields (JStr "status_change")
                                          (JStr (status_change_title (js_get data "status")))
                                          JUndefined JUndefined) ;;; ret tt
       else ret tt) ;;;
      updated <- updateLead t_update leadId
                            (mkFields (js_get data "status") (js_get data "notes")
                                      (js_get data "score") (js_get data "tags")) ;;
      match updated with
      | None => throw TypeError
      | Some (l, _) =>
          ret (JsonLead (l_id l) (l_practice_id l) (l_status l)
                        (match l_score l with Some n => n | None => 0 end)
                        (or_empty (l_notes l))
                        (match l_tags l with Some t => js_or t (JArr []) | None => JArr [] end))
      end
  end.

(** The same request sent again and again, one pair of clock readings
    per round; the responses are dropped. *)
Fixpoint patch_repeatedly (clock : list (Z * Z)) (id : string) (body : jsval) (d : db) : db :=
  match clock with
  | [] => d
  | (t_activity, t_update) :: rest =>
      patch_repeatedly rest id body (snd (respond (patch_lead t_activity t_update id body) d))
  end.

End Store.

(** ** lib/db.js, the queries of the dashboard *)

(** What the server decides for a text: the match of [ILIKE] (text, then
    pattern) and the order of the collation that [ORDER BY name] uses. *)
Class PgServer : Type := {
  ilike : string -> string -> bool;
  name_leb : string -> string -> bool
}.

(** The object that [listPractices] and [listLeadsByStatus] return. *)
Record pagination (A : Type) : Type := mkPage {
  pg_items : list A;
  pg_page : Z;
  pg_pages : Z;
  pg_total : Z;
  pg_has_prev : bool;
  pg_has_next : bool;
  pg_prev_num : Z;
  pg_next_num : Z
}.
Arguments mkPage {A}.
Arguments pg_items {A}.
Arguments pg_page {A}.
Arguments pg_pages {A}.
Arguments pg_total {A}.
Arguments pg_has_prev {A}.
Arguments pg_has_next {A}.
Arguments pg_prev_num {A}.
Arguments pg_next_num {A}.

Section Queries.

Context `{PgDriver} `{PgServer}.

(** [SELECT COUNT( * )::int AS c FROM practices] *)
Definition getPracticeCount : M Z :=
  gets (fun d => Z.of_nat (List.length (practices d))).

(** [... WHERE email IS NOT NULL AND email != ''] *)
Definition getPracticeCountWithEmail : M Z :=
  gets (fun d => Z.of_nat (List.length (filter has_email (practices d)))).

Definition count_status (s : string) (ls : list lead) : Z :=
  Z.of_nat (List.length (filter (fun l => String.eqb (l_status l) s) ls)).

(** [SELECT status, COUNT( * )::int AS c FROM leads GROUP BY status]: one
    row for each status that some lead has. *)
Definition group_by_status (ls : list lead) : list (string * Z) :=
  map (fun s => (s, count_status s ls)) (nodup string_dec (map l_status ls)).

(** [counts[k] = v] on an object whose values are numbers: an own
    property is overwritten in place, a new one is added at the end, and
    the setter [__proto__] ignores a number. *)
Fixpoint set_own (k : string) (v : Z) (o : list (string * Z)) : list (string * Z) :=
  match o with
  | [] => [(k, v)]
  | (k', v') :: rest =>
      if String.eqb k k' then (k, v) :: rest else (k', v') :: set_own k v rest
  end.

Definition assign_count (o : list (string * Z)) (row : string * Z) : list (string * Z) :=
  if String.eqb (fst row) "__proto__" then o else set_own (fst row) (snd row) o.

Definition getLeadCountByStatus : M (list (string * Z)) :=
  gets (fun d => fold_left assign_count (group_by_status (leads d))
                           (map (fun s => (s, 0)) LEAD_STATUSES)).

(** An own property of the object of counts. *)
Fixpoint own_count (k : string) (o : list (string * Z)) : option Z :=
  match o with
  | [] => None
  | (k', v) :: rest => if String.eqb k k' then Some v else own_count k rest
  end.

(** [Math.max(1, Math.ceil(total / perPage))] for a count and a page size. *)
Definition page_count (total : Z) (perPage : positive) : Z :=
  Z.max 1 ((total + Zpos perPage - 1) / Zpos perPage).

(** The lines that both paginated queries share: [pages], [pageNum],
    [offset], and the object around the rows of the page. *)
Definition page_number (total page : Z) (perPage : positive) : Z :=
  Z.max 1 (Z.min page (page_count total perPage)).

Definition page_offset (total page : Z) (perPage : positive) : Z :=
  (page_number total page perPage - 1) * Zpos perPage.

(** [LIMIT perPage OFFSET offset] *)
Definition page_rows {A} (total page : Z) (perPage : positive) (rows : list A) : list A :=
  firstn (Pos.to_nat perPage) (skipn (Z.to_nat (page_offset total page perPage)) rows).

Definition page_object {A} (total page : Z) (perPage : positive) (rows : list A)
  : pagination A :=
  let pages := page_count total perPage in
  let pageNum := page_number total page perPage in
  mkPage rows pageNum pages total (1 <? pageNum) (pageNum <? pages)
         (pageNum - 1) (pageNum + 1).

(** [ORDER BY name] *)
Fixpoint insert_by_name {A} (name : A -> string) (r : A) (rows : list A) : list A :=
  match rows with
  | [] => [r]
  | x :: rest =>
      if name_leb (name r) (name x) then r :: rows
      else x :: insert_by_name name r rest
  end.

Definition order_by_name {A} (name : A -> string) (rows : list A) : list A :=
  fold_right (insert_by_name name) [] rows.

(** [column ILIKE pattern]; [NULL] matches nothing. *)
Definition ilike_null (v : option string) (pattern : string) : bool :=
  match v with Some s => ilike s pattern | None => false end.

(** The argument of [listPractices], after its defaults. *)
Record practice_query : Type := mkQuery {
  pq_q : string;
  pq_source : string;
  pq_staff : string;
  pq_page : Z;
  pq_perPage : positive
}.

(** The [WHERE] clause of [listPractices]: a condition for each of [q],
    [source] and [staff] that is not empty. *)
Definition practices_where (a : practice_query) (p : practice) : bool :=
  (if String.eqb (pq_q a) "" then true
   else let pattern := ("%" ++ pq_q a ++ "%")%string in
        ilike (p_name p) pattern || ilike_null (p_contact p) pattern
        || ilike_null (p_address p) pattern || ilike_null (p_description p) pattern)
  && (if String.eqb (pq_source a) "" then true
      else match p_source p with Some s => String.eqb s (pq_source a) | None => false end)
  && (if String.eqb (pq_staff a) "" then true
      else match p_staff p with Some s => String.eqb s (pq_staff a) | None => false end).

(** The texts that both statements bind: the pattern made of [q], the
    [source] and the [staff] (an empty one is not bound). *)
Definition query_fits (a : practice_query) : bool :=
  negb (has_nul (pq_q a)) && negb (has_nul (pq_source a)) && negb (has_nul (pq_staff a)).

Definition listPractices (a : practice_query) : M (pagination practice * Z) :=
  guard (query_fits a) InvalidByteSequence ;;;
  total <- gets (fun d => Z.of_nat (List.length (filter (practices_where a) (practices d)))) ;;
  data <- gets (fun d => page_rows total (pq_page a) (pq_perPage a)
                                   (order_by_name p_name
                                                  (filter (practices_where a) (practices d)))) ;;
  ret (page_object total (pq_page a) (pq_perPage a) data, Zpos (pq_perPage a)).

(** [SELECT * FROM practices WHERE id = $1]; [r.rows[0] || null] *)
Definition getPractice (id : Z) : M (option practice) :=
  gets (fun d => hd_error (filter (fun p => p_id p =? id) (practices d))).

Definition getLeadByPracticeId (practiceId : Z) : M (option lead_obj) :=
  gets (fun d =>
          match filter (fun r => l_practice_id (fst r) =? practiceId) (joined d) with
          | [] => None
          | (l, p) :: _ => Some (l, practice_or_null p)
          end).

(** [ORDER BY created_at DESC] *)
Fixpoint insert_by_created_desc (a : activity) (rows : list activity) : list activity :=
  match rows with
  | [] => [a]
  | x :: rest =>
      if a_created_at x <=? a_created_at a then a :: rows
      else x :: insert_by_created_desc a rest
  end.

Definition order_by_created_desc (rows : list activity) : list activity :=
  fold_right insert_by_created_desc [] rows.

Definition listActivities (leadId limit : Z) : M (list activity) :=
  guard (0 <=? limit) NegativeLimit ;;;
  gets (fun d => firstn (Z.to_nat limit)
                        (order_by_created_desc
                           (filter (fun a => a_lead_id a =? leadId) (activities d)))).


(** ** The other routes *)

(** What a route hands to [res.render], or answers. *)
Inductive view : Type :=
| DashboardView (total_practices : Z) (status_counts : list (string * Z)) (with_email : Z)
| PracticesView (practices : pagination practice * Z) (q source staff : string)
| PracticeDetailView (p : practice) (lead : option lead_obj) (activities : list activity)
| PipelineView (leads : pagination lead_obj) (current_status : string)
| ActivityAdded
| NoSuchRow
| ErrorPage.

Definition render (m : M view) (d : db) : view * db :=
  match m d with
  | (Ok v, d') => (v, d')
  | (Err _, d') => (ErrorPage, d')
  end.

(** [Math.max(1, parseInt(req.query.page, 10) || 1)] *)
Definition page_param (q : option qval) : Z :=
  let parsed :=
    match q with
    | None => None
    | Some v => Str.parseInt (q_to_string v)
    end in
  Z.max 1 (match parsed with
           | Some n => if n =? 0 then 1 else n
           | None => 1
           end).


(** [app.get('/dashboard')] *)
Definition get_dashboard : M view :=
  total <- getPracticeCount ;;
  statusCounts <- getLeadCountByStatus ;;
  withEmail <- getPracticeCountWithEmail ;;
  ret (DashboardView total statusCounts withEmail).


(** [app.get('/practices/:id')]; [now] is the reading of the clock of the
    [INSERT] that [ensureLead] may run. *)
Definition get_practice_detail (now : Z) (id : string) : M view :=
  practiceId <- int_param (Str.parseInt id) ;;
  practice <- getPractice practiceId ;;
  match practice with
  | None => ret NoSuchRow
  | Some p =>
      first <- getLeadByPracticeId practiceId ;;
      lead <- match first with
              | Some _ => ret first
              | None => ensureLead now practiceId ;;; getLeadByPracticeId practiceId
              end ;;
      activities <- match lead with
                    | Some (l, _) => listActivities (l_id l) 20
                    | None => ret []
                    end ;;
      ret (PracticeDetailView p lead activities)
  end.



(** [app.post('/api/leads/:id/activity')] *)
Definition post_activity (now : Z) (id : string) (body : jsval) : M view :=
  leadId <- int_param (Str.parseInt id) ;;
  found <- getLeadById leadId ;;
  match found with
  | None => ret NoSuchRow
  | Some _ =>
      let data := js_or body (JObj []) in
      addActivity now leadId
                  (mkActivityFields (js_or (js_get data "kind") (JStr "note"))
                                    (js_or (js_get data "title") (JStr ""))
                                    (js_or (js_get data "body") (JStr ""))
                                    (js_get data "metadata")) ;;;
      ret ActivityAdded
  end.

End Queries.

(** ** The constraints of the schema and the vocabulary of the properties *)

(** What [initSchema] declares, and that each sequence is ahead of the
    ids handed out so far. *)
Record wf_db (d : db) : Prop := mkWf {
  wf_practice_pk : NoDup (map p_id (practices d));
  wf_practice_url : NoDup (map p_url (practices d));
  wf_lead_pk : NoDup (map l_id (leads d));
  wf_lead_practice : NoDup (map l_practice_id (leads d));
  wf_lead_fk : incl (map l_practice_id (leads d)) (map p_id (practices d));
  wf_activity_fk : incl (map a_lead_id (activities d)) (map l_id (leads d));
  wf_practice_seq : Forall (fun p => p_id p < practices_id_seq d) (practices d);
  wf_lead_seq : Forall (fun l => l_id l < leads_id_seq d) (leads d);
  wf_activity_seq : Forall (fun a => a_id a < activities_id_seq d) (activities d)
}.

(** The row of [leads] with a given id. *)
Definition find_lead (id : Z) (d : db) : option lead :=
  find (fun l => l_id l =? id) (leads d).

Definition is_substring (sub s : string) : Prop :=
  exists pre post : string, s = (pre ++ sub ++ post)%string.

Definition is_status_change (leadId : Z) (a : activity) : bool :=
  (a_lead_id a =? leadId) && String.eqb (a_kind a) "status_change".

(** The [status_change] entries of the log of one lead. *)
Definition status_changes (leadId : Z) (d : db) : list activity :=
  filter (is_status_change leadId) (activities d).

(** A score that passes the check of [updateLead] and is no integer is
    the one parameter of its [UPDATE] that the server refuses. *)
Definition score_fits (v : jsval) : bool :=
  match v with
  | JNum q => if number_in_0_100 v then Q_is_integer q else true
  | _ => true
  end.

(** The parameters of the [UPDATE] of [updateLead] that the server may
    refuse: the notes, a text; the score, an integer; the tags, [jsonb].
    (The status, one of the seven of the enum, is always taken.) *)
Definition notes_fit `{PgDriver} (f : lead_fields) : bool :=
  if is_defined (lf_notes f) then text_fits (lf_notes f) else true.

Definition tags_fit (f : lead_fields) : bool :=
  if is_array (lf_tags f) then json_fits (lf_tags f) else true.

Definition update_fits `{PgDriver} (f : lead_fields) : bool :=
  notes_fit f && score_fits (lf_score f) && tags_fit f.

Definition practices_with_url (url : string) (d : db) : list practice :=
  filter (fun p => String.eqb (p_url p) url) (practices d).

Definition leads_of_practice (practiceId : Z) (d : db) : list lead :=
  filter (fun l => l_practice_id l =? practiceId) (leads d).

(** A driver for the examples below; they bind strings and [null] only,
    which no driver renders. *)
Definition example_driver : PgDriver := {| prepareValue := fun _ => "" |}.

Definition acme : jsval :=
  JObj [("url", JStr "a.example/1"); ("name", JStr "Acme Arch");
        ("email", JStr "x@a.example")].

Definition silent : jsval :=
  JObj [("url", JStr "b.example/2"); ("name", JStr "Silent Studio")].

(** The store after [populate-db] has read [acme] and [silent]. *)
Definition two_practices : db :=
  snd (@populate example_driver [(10, 11, acme); (12, 13, silent)] empty_db).

(** The lead of [acme] in that store. *)
Definition acme_lead : lead := new_lead 1 1 11.

Definition lost_body : jsval := JObj [("status", JStr "lost")].

Definition archived_body : jsval :=
  JObj [("status", JStr "archived"); ("notes", JStr "call back in May")].

Definition new_body : jsval := JObj [("status", JStr "new")].

(** A status outside the enum, notes, and a score of 50.5. *)
Definition half_score_body : jsval :=
  JObj [("status", JStr "archived"); ("notes", JStr "call back in May");
        ("score", JNum (101 # 2))].

(** Fields none of which [updateLead] applies, and a score on its bound. *)
Definition nothing_valid : lead_fields :=
  mkFields (JStr "archived") JUndefined (JNum 101) (JStr "vip").

Definition full_score : lead_fields :=
  mkFields JUndefined JUndefined (JNum 100) JUndefined.

Definition zero_score : lead_fields :=
  mkFields JUndefined (JStr "no budget this year") (JNum 0) JUndefined.

(** One record read three times over. *)
Definition acme_thrice : list (Z * Z * jsval) :=
  [(10, 11, acme); (12, 13, acme); (14, 15, acme)].

(** The row that an [UPDATE] of [updateLead] leaves in place of [l] when
    the server accepts its parameters. *)
Definition applied `{PgDriver} (now : Z) (f : lead_fields) (l : lead) : lead :=
  mkLead (l_id l) (l_practice_id l)
         (if status_accepted (lf_status f) then spliced (lf_status f) else l_status l)
         (match lf_score f with
          | JNum q => if number_in_0_100 (lf_score f) then Some (Q_to_Z q) else l_score l
          | _ => l_score l
          end)
         (if is_defined (lf_notes f) then pg_text (lf_notes f) else l_notes l)
         (if is_array (lf_tags f) then Some (lf_tags f) else l_tags l)
         (l_next_follow_up l) (l_created_at l) now.

(** The store that the [UPDATE] of [updateLead] leaves. *)
Definition updated `{PgDriver} (now leadId : Z) (f : lead_fields) (d : db) : db :=
  log (UpdateLead leadId (map column_of (lead_updates f ++ [SetUpdatedAtNow])))
      (with_leads (map (fun l => if l_id l =? leadId then applied now f l else l) (leads d))
                  d).

(** The row and the store that a successful [addActivity] leaves. *)
Definition logged_row `{PgDriver} (now leadId : Z) (f : activity_fields) (k : string)
           (d : db) : activity :=
  mkActivity (activities_id_seq d) leadId k
             (pg_text (default_to (af_title f) (JStr "")))
             (pg_text (default_to (af_body f) (JStr "")))
             (default_to (af_metadata f) (JObj [])) now.

Definition logged `{PgDriver} (now leadId : Z) (f : activity_fields) (k : string)
           (d : db) : db :=
  mkDb (practices d) (leads d) (activities d ++ [logged_row now leadId f k d])
       (practices_id_seq d) (leads_id_seq d) (activities_id_seq d + 1)
       (journal d ++ [InsertActivity leadId k]).

(** The store that a [PATCH /api/leads/:id] leaves. *)
Definition patched `{PgDriver} (t_activity t_update : Z) (id : string) (body : jsval)
           (d : db) : db :=
  snd (respond (patch_lead t_activity t_update id body) d).

(** The fields that the route hands to [updateLead]. *)
Definition patch_fields (body : jsval) : lead_fields :=
  let data := js_or body (JObj []) in
  mkFields (js_get data "status") (js_get data "notes") (js_get data "score")
           (js_get data "tags").

(** The fields that [POST /api/leads/:id/activity] hands to
    [addActivity]. *)
Definition post_fields (body : jsval) : activity_fields :=
  let data := js_or body (JObj []) in
  mkActivityFields (js_or (js_get data "kind") (JStr "note"))
                   (js_or (js_get data "title") (JStr ""))
                   (js_or (js_get data "body") (JStr ""))
                   (js_get data "metadata").

(** The activity that the route logs for an accepted status. *)
Definition status_change_fields (body : jsval) : activity_fields :=
  mkActivityFields (JStr "status_change")
                   (JStr (status_change_title (lf_status (patch_fields body))))
                   JUndefined JUndefined.

(** [updateLead] returns, and the lead then has the score [v]. *)
Definition leaves_score `{PgDriver} (now leadId : Z) (f : lead_fields) (d : db)
           (v : option Z) : Prop :=
  exists r l',
    fst (updateLead now leadId f d) = Ok r
    /\ find_lead leadId (snd (updateLead now leadId f d)) = Some l'
    /\ l_score l' = v.

(** After [updateLead], returned or thrown, the lead has the score [v]. *)
Definition keeps_score `{PgDriver} (now leadId : Z) (f : lead_fields) (d : db)
           (v : option Z) : Prop :=
  exists l',
    find_lead leadId (snd (updateLead now leadId f d)) = Some l' /\ l_score l' = v.

(** The score is among the columns of the [UPDATE], and [updateLead]
    returns with the score [n] stored when the server takes the notes and
    the tags of the update; when it refuses one of them, [updateLead]
    throws and leaves the store as it was. *)
Definition stores_score `{PgDriver} (now leadId : Z) (f : lead_fields) (d : db)
           (n : Z) : Prop :=
  In ColScore (map column_of (lead_updates f))
  /\ if notes_fit f && tags_fit f
     then leaves_score now leadId f d (Some n)
     else exists e, updateLead now leadId f d = (Err e, d).

(** The order of [ORDER BY created_at DESC]. *)
Definition newer_first (a b : activity) : Prop := a_created_at b <= a_created_at a.

(** The key of [ORDER BY l.id]. *)
Definition row_key (r : lead * practice) : Z := l_id (fst r).

Definition le_key (a b : lead * practice) : Prop := row_key a <= row_key b.
Definition lt_key (a b : lead * practice) : Prop := row_key a < row_key b.

(** The rows that [listLeadsForN8n] selects, before they are mapped. *)
Definition n8n_rows (limit : Z) (status : option string) (withEmailOnly : bool) (d : db)
  : list (lead * practice) :=
  firstn (Z.to_nat limit)
         (order_by_lead_id (filter (n8n_where status withEmailOnly) (joined d))).


Definition practice_rows `{PgServer} (a : practice_query) (d : db) : list practice :=
  order_by_name p_name (filter (practices_where a) (practices d)).

(** A record that the loop of [populate-db] gets through: it skips it,
    or the server takes it. *)
Definition record_taken `{PgDriver} (record : jsval) : bool :=
  negb (truthy record) || negb (truthy (js_get record "url")) || record_fits record.

(** A record that [populate-db] does not skip, and the text of its [url]. *)
Definition carries_url (url : string) `{PgDriver} (record : jsval) : Prop :=
  truthy (js_get record "url") = true /\ pg_text (js_get record "url") = Some url.

(** What the automation feed may hold: leads of the store whose practice
    has an email, and no lead whose practice has none. *)
Definition only_with_email (d : db) (items : list n8n_lead) : Prop :=
  (forall it, In it items ->
              exists l p e,
                In l (leads d) /\ In p (practices d) /\ l_practice_id l = p_id p
                /\ lead_id it = l_id l /\ practice_id it = p_id p
                /\ p_email p = Some e /\ e <> "")
  /\ (forall l p,
         In l (leads d) -> In p (practices d) -> l_practice_id l = p_id p ->
         p_email p = None \/ p_email p = Some "" ->
         ~ In (l_id l) (map lead_id items)).

(** ** What the application keeps true of its store *)

(** A status of the enum and a score from 0 to 100. *)
Definition lead_ok (l : lead) : Prop :=
  is_lead_status (l_status l) = true
  /\ exists n, l_score l = Some n /\ 0 <= n <= 100.

(** Every practice has a lead. *)
Definition in_sync (d : db) : Prop :=
  incl (map p_id (practices d)) (map l_practice_id (leads d)).

Record sound (d : db) : Prop := mkSound {
  sound_schema : wf_db d;
  sound_sync : in_sync d;
  sound_leads : Forall lead_ok (leads d)
}.

(** The requests that write: a record read by [populate-db] and the three
    routes that run an [INSERT] or an [UPDATE]. *)
Inductive request : Type :=
| Ingest (t_practice t_lead : Z) (record : jsval)
| Patch (t_activity t_update : Z) (id : string) (body : jsval)
| PostActivity (now : Z) (id : string) (body : jsval)
| GetPracticeDetail (now : Z) (id : string).

Definition serve `{PgDriver} (r : request) (d : db) : db :=
  match r with
  | Ingest t_practice t_lead record => snd (ingest t_practice t_lead record d)
  | Patch t_activity t_update id body => patched t_activity t_update id body d
  | PostActivity now id body => snd (render (post_activity now id body) d)
  | GetPracticeDetail now id => snd (render (get_practice_detail now id) d)
  end.

(** The store after a run of requests on the empty store. *)
Definition history `{PgDriver} (requests : list request) : db :=
  fold_left (fun d r => serve r d) requests empty_db.


(** What no [PATCH] changes of a lead. *)
Definition lead_identity (l : lead) : Z * Z * option Z * Z :=
  (l_id l, l_practice_id l, l_next_follow_up l, l_created_at l).

(** The answer of [PATCH /api/leads/:id] for a stored row. *)
Definition lead_json (l : lead) : response :=
  JsonLead (l_id l) (l_practice_id l) (l_status l)
           (match l_score l with Some n => n | None => 0 end)
           (or_empty (l_notes l))
           (match l_tags l with Some t => js_or t (JArr []) | None => JArr [] end).

(** A text parameter of the query that its route serves: it is absent,
    or a string (an array or an object has no [trim]) whose trimmed text
    the server takes. *)
Definition query_text_served (q : option qval) : bool :=
  match q with
  | None => true
  | Some (QStr s) => negb (has_nul (Str.trim s))
  | Some _ => false
  end.

(** The status filter that [GET /api/n8n/leads] makes of its parameter:
    none when it is absent or, once trimmed, empty. *)
Definition feed_status (q : option qval) : option string :=
  match q with
  | Some (QStr s) => if String.eqb (Str.trim s) "" then None else Some (Str.trim s)
  | _ => None
  end.


(** Further values for the examples: the store after [upsertPractice] alone
    has read [acme] (a practice with no lead yet), the row of [acme] in
    [two_practices], a record with no [url], and two request bodies. *)
Definition acme_alone : db := snd (@upsertPractice example_driver 10 acme empty_db).

Definition acme_practice : practice :=
  @practice_row example_driver acme "a.example/1" "Acme Arch" 10 1 10.

Definition no_url : jsval := JObj [("name", JStr "Nameless")].

Definition call_note : jsval :=
  JObj [("kind", JStr "call"); ("title", JStr "Rang the office")].

Definition clear_notes : jsval := JObj [("notes", JNull); ("score", JNum 40)].

(** * Properties *)

(** ** The stage resolver *)

Lemma outreach_stage_table :
  map outreach_stage LEAD_STATUSES
  = [JStr "cold"; JStr "no_reply"; JStr "positive_reply"; JStr "positive_reply";
     JStr "positive_reply"; JStr "positive_reply"; JStr "negative_reply"].
Proof. reflexivity. Qed.

Lemma assoc_stageMap_none (s : string) :
  is_lead_status s = false -> assoc s stageMap = None.
Proof.
  unfold is_lead_status, LEAD_STATUSES, stageMap; simpl.
  repeat (destruct (String.eqb s _); [discriminate |]).
  reflexivity.
Qed.

(** A status that is neither in the enum nor the name of a property of
    [Object.prototype] resolves to [cold]. *)
Lemma outreach_stage_unmapped (s : string) :
  is_lead_status s = false ->
  assoc s object_prototype = None ->
  s <> "__proto__" ->
  outreach_stage s = JStr "cold".
Proof.
  intros Henum Hproto Hacc.
  unfold outreach_stage, get_props.
  rewrite (assoc_stageMap_none s Henum), Hproto.
  destruct (String.eqb_spec s "__proto__") as [E | _]; [contradiction | reflexivity].
Qed.

(** C1, at the input on which the code departs from it: the status
    [constructor] is outside the enum, and the lookup [stageMap[status]]
    finds the function that every object literal inherits under that
    name, so the resolver answers that function and not [cold]. *)
Theorem outreach_stage_inherited_key :
  is_lead_status "constructor" = false
  /\ outreach_stage "constructor" = JFun "Object"
  /\ outreach_stage "constructor" <> JStr "cold".
Proof.
  split; [reflexivity | split; [reflexivity | discriminate]].
Qed.

(** ** The limit of the automation feed *)

Lemma n8n_limit_range (q : option qval) : 1 <= n8n_limit q <= 500.
Proof.
  unfold n8n_limit.
  destruct q as [v |]; [destruct (Str.parseInt (q_to_string v)) as [n |] |];
    try destruct (n =? 0); lia.
Qed.

(** C5, as the code has it: the limit handed to the query is always
    within 1..500; a number from 1 to 500 is taken as it is, a larger one
    becomes 500, a negative one becomes 1, and what does not parse as a
    number, or parses as 0, becomes the default 200. *)
Theorem n8n_limit_clamps (q : option qval) :
  1 <= n8n_limit q <= 500
  /\ n8n_limit q
     = match match q with
             | Some v => Str.parseInt (q_to_string v)
             | None => None
             end with
       | None => 200
       | Some n =>
           if n =? 0 then 200
           else if n <? 0 then 1
           else if 500 <? n then 500
           else n
       end.
Proof.
  split; [apply n8n_limit_range |].
  unfold n8n_limit.
  destruct q as [v |]; [destruct (Str.parseInt (q_to_string v)) as [n |] |];
    try reflexivity.
  destruct (Z.eqb_spec n 0); [reflexivity |].
  destruct (Z.ltb_spec n 0); [lia |].
  destruct (Z.ltb_spec 500 n); lia.
Qed.

(** C5 as stated fails: [limit=1000] is a number out of range, and the
    route answers with 500 rows at most, not with the default 200. *)
Lemma n8n_limit_1000_is_not_default :
  Str.parseInt (q_to_string (QStr "1000")) = Some 1000
  /\ ~ (1 <= 1000 <= 500)
  /\ n8n_limit (Some (QStr "1000")) = 500
  /\ n8n_limit (Some (QStr "1000")) <> 200.
Proof.
  repeat split; try reflexivity; try discriminate; lia.
Qed.

Section StoreProperties.

Context `{PgDriver}.

(** ** updateLead without an applicable field *)

(** C9: when the status is not in the enum, the notes are [undefined],
    the score is not a number within 0..100 and the tags are not an array,
    [updateLead] runs no statement that writes: it answers what
    [getLeadById] answers and the store it leaves is the store it found,
    [updated_at] included. *)
Theorem updateLead_nothing_to_apply (now leadId : Z) (f : lead_fields) (d : db) :
  includes_status (lf_status f) = false ->
  lf_notes f = JUndefined ->
  number_in_0_100 (lf_score f) = false ->
  is_array (lf_tags f) = false ->
  updateLead now leadId f d = getLeadById leadId d
  /\ snd (updateLead now leadId f d) = d.
Proof.
  intros Hst Hnotes Hscore Htags.
  assert (E : lead_updates f = []).
  { unfold lead_updates, status_accepted.
    rewrite Hst, Hnotes, Hscore, Htags, andb_false_r; reflexivity. }
  unfold updateLead; rewrite E; split; reflexivity.
Qed.

(** ** The [UPDATE] of updateLead *)

Lemma status_accepted_inv (v : jsval) :
  status_accepted v = true -> exists s, v = JStr s /\ is_lead_status s = true.
Proof.
  unfold status_accepted, includes_status.
  destruct v; rewrite ?andb_false_r; try discriminate.
  intros E; apply andb_prop in E as [_ E]; eauto.
Qed.

Lemma number_in_0_100_inv (v : jsval) :
  number_in_0_100 v = true ->
  exists q, v = JNum q /\ Qle_bool 0 q = true /\ Qle_bool q 100 = true.
Proof.
  destruct v; simpl; try discriminate.
  intros E; apply andb_prop in E as [E1 E2]; eauto.
Qed.

Lemma set_columns_app (now : Z) (xs ys : list assignment) (f g : lead -> lead) :
  set_columns now xs = Ok f ->
  set_columns now ys = Ok g ->
  exists h, set_columns now (xs ++ ys) = Ok h /\ forall l, h l = g (f l).
Proof.
  revert f; induction xs as [| a xs IH]; simpl; intros f Hf Hg.
  - injection Hf as <-; eauto.
  - destruct (bind_param a) as [fa | e]; [| discriminate].
    destruct (set_columns now xs) as [fx | e]; [| discriminate].
    injection Hf as <-.
    destruct (IH fx eq_refl Hg) as (h & -> & Hh).
    eexists; split; [reflexivity |].
    intros l; simpl; apply Hh.
Qed.

Lemma set_columns_app_err_r (now : Z) (xs ys : list assignment) (f : lead -> lead) (e : error) :
  set_columns now xs = Ok f ->
  set_columns now ys = Err e ->
  set_columns now (xs ++ ys) = Err e.
Proof.
  revert f; induction xs as [| a xs IH]; simpl; intros f Hf Hg; [assumption |].
  destruct (bind_param a) as [fa | e']; [| discriminate].
  destruct (set_columns now xs) as [fx | e']; [| discriminate].
  rewrite (IH fx eq_refl Hg); reflexivity.
Qed.

(** A status of the enum holds no U+0000. *)
Lemma lead_status_no_nul (s : string) : is_lead_status s = true -> has_nul s = false.
Proof.
  unfold is_lead_status, LEAD_STATUSES; simpl.
  repeat match goal with
         | |- context [String.eqb s ?k] =>
             destruct (String.eqb_spec s k) as [-> | _]; [reflexivity |]
         end.
  simpl; intros E; discriminate E.
Qed.

(** The four conditional pushes of [updateLead], one at a time. *)
Lemma set_status_ok (now : Z) (f : lead_fields) :
  exists g,
    set_columns now (if status_accepted (lf_status f) then [SetStatus (lf_status f)] else [])
    = Ok g
    /\ forall l, g l = mkLead (l_id l) (l_practice_id l)
                             (if status_accepted (lf_status f)
                              then spliced (lf_status f) else l_status l)
                             (l_score l) (l_notes l) (l_tags l) (l_next_follow_up l)
                             (l_created_at l) (l_updated_at l).
Proof.
  destruct (status_accepted (lf_status f)) eqn:E.
  - destruct (status_accepted_inv _ E) as (s & -> & Henum); simpl.
    rewrite (lead_status_no_nul s Henum).
    eexists; split; [reflexivity | reflexivity].
  - simpl; eexists; split; [reflexivity | intros []; reflexivity].
Qed.

Lemma set_notes_ok (now : Z) (f : lead_fields) :
  notes_fit f = true ->
  exists g,
    set_columns now (if is_defined (lf_notes f) then [SetNotes (lf_notes f)] else []) = Ok g
    /\ forall l, g l = mkLead (l_id l) (l_practice_id l) (l_status l) (l_score l)
                             (if is_defined (lf_notes f)
                              then pg_text (lf_notes f) else l_notes l)
                             (l_tags l) (l_next_follow_up l) (l_created_at l)
                             (l_updated_at l).
Proof.
  unfold notes_fit; intros Hfit.
  destruct (is_defined (lf_notes f)); simpl; [rewrite Hfit |]; eexists; split;
    try reflexivity; intros []; reflexivity.
Qed.

Lemma set_tags_ok (now : Z) (f : lead_fields) :
  tags_fit f = true ->
  exists g,
    set_columns now ((if is_array (lf_tags f) then [SetTags (lf_tags f)] else [])
                     ++ [SetUpdatedAtNow]) = Ok g
    /\ forall l, g l = mkLead (l_id l) (l_practice_id l) (l_status l) (l_score l) (l_notes l)
                             (if is_array (lf_tags f) then Some (lf_tags f) else l_tags l)
                             (l_next_follow_up l) (l_created_at l) now.
Proof.
  unfold tags_fit; intros Hfit.
  destruct (is_array (lf_tags f)); simpl; [rewrite Hfit |]; eexists; split;
    try reflexivity; intros []; reflexivity.
Qed.

Lemma set_score_ok (now : Z) (f : lead_fields) :
  score_fits (lf_score f) = true ->
  exists g,
    set_columns now (if number_in_0_100 (lf_score f) then [SetScore (lf_score f)] else [])
    = Ok g
    /\ forall l, g l = mkLead (l_id l) (l_practice_id l) (l_status l)
                             (match lf_score f with
                              | JNum q => if number_in_0_100 (lf_score f)
                                          then Some (Q_to_Z q) else l_score l
                              | _ => l_score l
                              end)
                             (l_notes l) (l_tags l) (l_next_follow_up l) (l_created_at l)
                             (l_updated_at l).
Proof.
  intros Hfit.
  destruct (number_in_0_100 (lf_score f)) eqn:E.
  - destruct (number_in_0_100_inv _ E) as (q & Eq & _).
    unfold score_fits in Hfit; rewrite Eq in *; rewrite E in Hfit; simpl.
    rewrite Hfit; eexists; split; reflexivity.
  - simpl; eexists; split; [reflexivity |].
    intros []; destruct (lf_score f); reflexivity.
Qed.

Lemma set_score_refused (f : lead_fields) :
  score_fits (lf_score f) = false ->
  number_in_0_100 (lf_score f) = true
  /\ bind_param (SetScore (lf_score f)) = Err InvalidInteger.
Proof.
  unfold score_fits; destruct (lf_score f) as [| | | q | | | | |]; try discriminate.
  destruct (number_in_0_100 (JNum q)); [| discriminate].
  intros E; split; [reflexivity |]; simpl; rewrite E; reflexivity.
Qed.

(** One refused parameter and the whole [SET] list is refused. *)
Lemma set_columns_refused (now : Z) (sets : list assignment) (a : assignment) (e : error) :
  In a sets -> bind_param a = Err e -> exists e', set_columns now sets = Err e'.
Proof.
  induction sets as [| x sets IH]; intros Hin E; [destruct Hin |].
  simpl; destruct Hin as [-> | Hin].
  - rewrite E; eauto.
  - destruct (bind_param x) as [g | e0]; [| eauto].
    destruct (IH Hin E) as (e' & ->); eauto.
Qed.

Lemma set_columns_lead_updates (now : Z) (f : lead_fields) :
  update_fits f = true ->
  exists g, set_columns now (lead_updates f ++ [SetUpdatedAtNow]) = Ok g
            /\ forall l, g l = applied now f l.
Proof.
  unfold update_fits; intros Hfit.
  apply andb_prop in Hfit as (Hfit & Htags); apply andb_prop in Hfit as (Hnotes & Hscore).
  unfold lead_updates.
  destruct (set_status_ok now f) as (g1 & E1 & H1).
  destruct (set_notes_ok now f Hnotes) as (g2 & E2 & H2).
  destruct (set_score_ok now f Hscore) as (g3 & E3 & H3).
  destruct (set_tags_ok now f Htags) as (g4 & E4 & H4).
  destruct (set_columns_app now _ _ _ _ E3 E4) as (g34 & E34 & H34).
  destruct (set_columns_app now _ _ _ _ E2 E34) as (g234 & E234 & H234).
  destruct (set_columns_app now _ _ _ _ E1 E234) as (g & E & Hg).
  exists g; split.
  - rewrite <- E; f_equal; rewrite <- !app_assoc; reflexivity.
  - intros l; rewrite Hg, H234, H34, H4, H3, H2, H1; reflexivity.
Qed.

(** A parameter that does not fit belongs to a field that [updateLead]
    applies. *)
Lemma unfit_parameter (f : lead_fields) :
  update_fits f = false ->
  exists a e, In a (lead_updates f) /\ bind_param a = Err e.
Proof.
  unfold update_fits, notes_fit, tags_fit, lead_updates; intros Hfit.
  destruct (is_defined (lf_notes f)) eqn:Hn.
  - destruct (text_fits (lf_notes f)) eqn:Tn.
    + destruct (score_fits (lf_score f)) eqn:Hs.
      * destruct (is_array (lf_tags f)) eqn:Ha; [| discriminate Hfit].
        destruct (json_fits (lf_tags f)) eqn:Tt; [discriminate Hfit |].
        exists (SetTags (lf_tags f)), InvalidByteSequence; split.
        -- repeat (apply in_or_app; right); left; reflexivity.
        -- simpl; rewrite Tt; reflexivity.
      * destruct (set_score_refused f Hs) as (Hin & E).
        exists (SetScore (lf_score f)), InvalidInteger; split; [| exact E].
        rewrite Hin; apply in_or_app; right; apply in_or_app; right.
        apply in_or_app; left; left; reflexivity.
    + exists (SetNotes (lf_notes f)), InvalidByteSequence; split.
      * apply in_or_app; right; apply in_or_app; left; left; reflexivity.
      * simpl; rewrite Tn; reflexivity.
  - destruct (score_fits (lf_score f)) eqn:Hs.
    + destruct (is_array (lf_tags f)) eqn:Ha; [| discriminate Hfit].
      destruct (json_fits (lf_tags f)) eqn:Tt; [discriminate Hfit |].
      exists (SetTags (lf_tags f)), InvalidByteSequence; split.
      * repeat (apply in_or_app; right); left; reflexivity.
      * simpl; rewrite Tt; reflexivity.
    + destruct (set_score_refused f Hs) as (Hin & E).
      exists (SetScore (lf_score f)), InvalidInteger; split; [| exact E].
      rewrite Hin; apply in_or_app; right; apply in_or_app; right.
      apply in_or_app; left; left; reflexivity.
Qed.

(** [updateLead], statement by statement. *)
Lemma updateLead_applies (now leadId : Z) (f : lead_fields) (d : db) :
  lead_updates f <> [] ->
  update_fits f = true ->
  updateLead now leadId f d
  = (fst (getLeadById leadId (updated now leadId f d)), updated now leadId f d).
Proof.
  intros Hne Hfit.
  destruct (set_columns_lead_updates now f Hfit) as (g & Eg & Hg).
  unfold updateLead.
  destruct (lead_updates f) as [| a rest] eqn:Eu; [contradiction |].
  rewrite <- Eu in *.
  unfold bind, update_leads; rewrite Eg; unfold modify, updated.
  rewrite (map_ext (fun l => if l_id l =? leadId then g l else l)
                   (fun l => if l_id l =? leadId then applied now f l else l)).
  - reflexivity.
  - intros l; destruct (l_id l =? leadId); [apply Hg | reflexivity].
Qed.

(** A refused parameter: the [UPDATE] does not run, [updateLead] throws
    and the store is as it was. *)
Lemma updateLead_refused (now leadId : Z) (f : lead_fields) (d : db) :
  update_fits f = false ->
  lead_updates f <> [] /\ exists e, updateLead now leadId f d = (Err e, d).
Proof.
  intros Hfit.
  destruct (unfit_parameter f Hfit) as (a & e & Hin & E).
  assert (Hne : lead_updates f <> []) by (intros E0; rewrite E0 in Hin; destruct Hin).
  split; [exact Hne |].
  destruct (set_columns_refused now (lead_updates f ++ [SetUpdatedAtNow]) a e
                                (in_or_app _ _ _ (or_introl Hin)) E) as (e' & E').
  exists e'; unfold updateLead.
  destruct (lead_updates f) as [| a0 rest] eqn:Eu; [contradiction |].
  rewrite <- Eu in *.
  unfold bind, update_leads; rewrite E'; reflexivity.
Qed.

(** ** Reading a lead, logging an activity *)

Lemma existsb_lead_id (leadId : Z) (ls : list lead) :
  In leadId (map l_id ls) -> existsb (fun l => l_id l =? leadId) ls = true.
Proof.
  intros Hin; apply in_map_iff in Hin as (l & <- & Hl).
  apply existsb_exists; exists l; split; [assumption | apply Z.eqb_refl].
Qed.

Lemma fresh_activity_id (d : db) :
  wf_db d -> existsb (fun a => a_id a =? activities_id_seq d) (activities d) = false.
Proof.
  intros W; destruct (existsb _ _) eqn:E; [| reflexivity].
  apply existsb_exists in E as (a & Ha & Eq).
  pose proof (wf_activity_seq d W) as F.
  rewrite Forall_forall in F; specialize (F a Ha).
  apply Z.eqb_eq in Eq; lia.
Qed.

Lemma joined_intro (d : db) (l : lead) (p : practice) :
  In l (leads d) -> In p (practices d) -> p_id p = l_practice_id l ->
  In (l, p) (joined d).
Proof.
  intros Hl Hp E; unfold joined.
  apply in_flat_map; exists l; split; [assumption |].
  apply in_map, filter_In; split; [assumption | apply Z.eqb_eq, E].
Qed.

Lemma joined_elim (d : db) (l : lead) (p : practice) :
  In (l, p) (joined d) ->
  In l (leads d) /\ In p (practices d) /\ p_id p = l_practice_id l.
Proof.
  unfold joined; intros Hin.
  apply in_flat_map in Hin as (l0 & Hl0 & Hin).
  apply in_map_iff in Hin as (p0 & E & Hp0).
  injection E as <- <-.
  apply filter_In in Hp0 as (Hp0 & Eq).
  apply Z.eqb_eq in Eq; auto.
Qed.

Lemma getLeadById_found (d : db) (l : lead) :
  wf_db d -> In l (leads d) ->
  exists lo, getLeadById (l_id l) d = (Ok (Some lo), d).
Proof.
  intros W Hl.
  assert (Hfk : In (l_practice_id l) (map p_id (practices d))).
  { apply (wf_lead_fk d W), in_map, Hl. }
  apply in_map_iff in Hfk as (p & Ep & Hp).
  assert (Hrow : In (l, p) (filter (fun r => l_id (fst r) =? l_id l) (joined d))).
  { apply filter_In; split; [apply joined_intro; assumption | apply Z.eqb_refl]. }
  unfold getLeadById, gets.
  destruct (filter _ (joined d)) as [| [l0 p0] rows]; [destruct Hrow |].
  eexists; reflexivity.
Qed.

Lemma addActivity_ok (now leadId : Z) (f : activity_fields) (k : string) (d : db) :
  wf_db d ->
  In leadId (map l_id (leads d)) ->
  activity_fits f = true ->
  pg_text (default_to (af_kind f) (JStr "note")) = Some k ->
  addActivity now leadId f d = (Ok (logged_row now leadId f k d), logged now leadId f k d).
Proof.
  intros W Hin Hfit Ek.
  unfold addActivity; rewrite Hfit, Ek.
  unfold bind, next_activity_id, gets, guard, modify, ret; simpl.
  rewrite (existsb_lead_id _ _ Hin); simpl.
  rewrite (fresh_activity_id d W); reflexivity.
Qed.

(** A refused parameter: the [INSERT] does not run and no id is drawn. *)
Lemma addActivity_refused (now leadId : Z) (f : activity_fields) (d : db) :
  activity_fits f = false ->
  addActivity now leadId f d = (Err InvalidByteSequence, d).
Proof. intros Hfit; unfold addActivity; rewrite Hfit; reflexivity. Qed.

(** The activity that the route logs for a status of the enum is always
    taken: its kind and its title hold no U+0000. *)
Lemma status_change_fits (body : jsval) :
  status_accepted (lf_status (patch_fields body)) = true ->
  activity_fits (status_change_fields body) = true.
Proof.
  intros Hacc; destruct (status_accepted_inv _ Hacc) as (s & Es & Henum).
  unfold status_change_fields; rewrite Es.
  revert Henum; unfold is_lead_status, LEAD_STATUSES; simpl.
  repeat match goal with
         | |- context [String.eqb s ?k] =>
             destruct (String.eqb_spec s k) as [-> | _]; [reflexivity |]
         end.
  simpl; intros E; discriminate E.
Qed.

(** ** The store after a [PATCH] *)

Lemma is_lead_status_truthy (s : string) :
  is_lead_status s = true -> status_accepted (JStr s) = true.
Proof.
  intros E; unfold status_accepted; simpl; rewrite E, andb_true_r.
  destruct s; [discriminate E | reflexivity].
Qed.

Lemma patched_unfold (t1 t2 : Z) (id : string) (body : jsval) (d : db) (l : lead) :
  wf_db d -> In l (leads d) -> Str.parseInt id = Some (l_id l) ->
  patched t1 t2 id body d
  = let after_log :=
      if status_accepted (lf_status (patch_fields body))
      then snd (addActivity t1 (l_id l) (status_change_fields body) d)
      else d in
    snd (updateLead t2 (l_id l) (patch_fields body) after_log).
Proof.
  intros W Hl Eid.
  destruct (getLeadById_found d l W Hl) as (lo & Eget).
  unfold patched, patch_lead, respond, bind; rewrite Eid.
  unfold int_param, ret at 1; rewrite Eget.
  fold (patch_fields body).
  change (js_get (js_or body (JObj [])) "status") with (lf_status (patch_fields body)).
  change (mkFields (lf_status (patch_fields body)) (js_get (js_or body (JObj [])) "notes")
                   (js_get (js_or body (JObj [])) "score")
                   (js_get (js_or body (JObj [])) "tags")) with (patch_fields body).
  fold (status_change_fields body).
  cbv zeta.
  destruct (status_accepted (lf_status (patch_fields body))) eqn:Hacc.
  - rewrite (addActivity_ok t1 (l_id l) (status_change_fields body) "status_change" d W
                            (in_map l_id _ _ Hl) (status_change_fits body Hacc) eq_refl).
    cbn [snd ret].
    destruct (updateLead t2 (l_id l) (patch_fields body) _) as [[[[l1 p1] |] | e] d2];
      reflexivity.
  - cbn [ret].
    destruct (updateLead t2 (l_id l) (patch_fields body) d) as [[[[l1 p1] |] | e] d2];
      reflexivity.
Qed.

Lemma patched_accepted (t1 t2 : Z) (id : string) (body : jsval) (d : db) (l : lead) :
  wf_db d -> In l (leads d) -> Str.parseInt id = Some (l_id l) ->
  status_accepted (lf_status (patch_fields body)) = true ->
  patched t1 t2 id body d
  = if update_fits (patch_fields body)
    then updated t2 (l_id l) (patch_fields body)
                 (logged t1 (l_id l) (status_change_fields body) "status_change" d)
    else logged t1 (l_id l) (status_change_fields body) "status_change" d.
Proof.
  intros W Hl Eid Hacc.
  rewrite (patched_unfold t1 t2 id body d l W Hl Eid); cbv zeta; rewrite Hacc.
  rewrite (addActivity_ok t1 (l_id l) (status_change_fields body) "status_change" d W
                          (in_map l_id _ _ Hl) (status_change_fits body Hacc) eq_refl);
    cbn [snd].
  destruct (update_fits (patch_fields body)) eqn:Hfit.
  - rewrite updateLead_applies; [reflexivity | | assumption].
    unfold lead_updates; rewrite Hacc; discriminate.
  - destruct (updateLead_refused t2 (l_id l) (patch_fields body)
                (logged t1 (l_id l) (status_change_fields body) "status_change" d) Hfit)
      as (_ & e & ->); reflexivity.
Qed.

Lemma patched_ignored (t1 t2 : Z) (id : string) (body : jsval) (d : db) (l : lead) :
  wf_db d -> In l (leads d) -> Str.parseInt id = Some (l_id l) ->
  status_accepted (lf_status (patch_fields body)) = false ->
  patched t1 t2 id body d
  = match lead_updates (patch_fields body) with
    | [] => d
    | _ :: _ => if update_fits (patch_fields body)
                then updated t2 (l_id l) (patch_fields body) d
                else d
    end.
Proof.
  intros W Hl Eid Hacc.
  rewrite (patched_unfold t1 t2 id body d l W Hl Eid); cbv zeta; rewrite Hacc.
  destruct (lead_updates (patch_fields body)) as [| a rest] eqn:Eu.
  - unfold updateLead; rewrite Eu; reflexivity.
  - destruct (update_fits (patch_fields body)) eqn:Hfit.
    + rewrite updateLead_applies; [reflexivity | rewrite Eu; discriminate | assumption].
    + destruct (updateLead_refused t2 (l_id l) (patch_fields body) d Hfit) as (_ & e & ->).
      reflexivity.
Qed.

(** ** What [updated] and [logged] change *)

Lemma updated_activities (now leadId : Z) (f : lead_fields) (d : db) :
  activities (updated now leadId f d) = activities d.
Proof. reflexivity. Qed.

Lemma updated_journal (now leadId : Z) (f : lead_fields) (d : db) :
  journal (updated now leadId f d)
  = journal d ++ [UpdateLead leadId (map column_of (lead_updates f ++ [SetUpdatedAtNow]))].
Proof. reflexivity. Qed.

Lemma updated_leads (now leadId : Z) (f : lead_fields) (d : db) :
  leads (updated now leadId f d)
  = map (fun l => if l_id l =? leadId then applied now f l else l) (leads d).
Proof. reflexivity. Qed.

Lemma logged_activities (now leadId : Z) (f : activity_fields) (k : string) (d : db) :
  activities (logged now leadId f k d) = activities d ++ [logged_row now leadId f k d].
Proof. reflexivity. Qed.

Lemma logged_journal (now leadId : Z) (f : activity_fields) (k : string) (d : db) :
  journal (logged now leadId f k d) = journal d ++ [InsertActivity leadId k].
Proof. reflexivity. Qed.

Lemma logged_leads (now leadId : Z) (f : activity_fields) (k : string) (d : db) :
  leads (logged now leadId f k d) = leads d.
Proof. reflexivity. Qed.

Lemma find_lead_logged (now leadId id : Z) (f : activity_fields) (k : string) (d : db) :
  find_lead id (logged now leadId f k d) = find_lead id d.
Proof. reflexivity. Qed.

Lemma find_map_same_id (h : lead -> lead) (id : Z) (ls : list lead) :
  (forall l, l_id (h l) = l_id l) ->
  find (fun l => l_id l =? id) (map h ls) = option_map h (find (fun l => l_id l =? id) ls).
Proof.
  intros Hh; induction ls as [| x ls IH]; simpl; [reflexivity |].
  rewrite Hh; destruct (l_id x =? id); [reflexivity | exact IH].
Qed.

Lemma find_lead_updated (now leadId : Z) (f : lead_fields) (d : db) :
  find_lead leadId (updated now leadId f d)
  = option_map (applied now f) (find_lead leadId d).
Proof.
  unfold find_lead, updated; cbn [leads log with_leads].
  rewrite find_map_same_id.
  - destruct (find _ (leads d)) as [l |] eqn:E; [| reflexivity].
    apply find_some in E as [_ E]; simpl; rewrite E; reflexivity.
  - intros l; destruct (l_id l =? leadId); reflexivity.
Qed.

Lemma find_lead_In (d : db) (l : lead) :
  wf_db d -> In l (leads d) -> find_lead (l_id l) d = Some l.
Proof.
  intros W; pose proof (wf_lead_pk d W) as N; unfold find_lead.
  induction (leads d) as [| x ls IH]; intros Hin; [destruct Hin |].
  simpl in N; inversion N as [| ? ? Hx Nls]; subst.
  simpl; destruct Hin as [-> | Hin].
  - rewrite Z.eqb_refl; reflexivity.
  - destruct (Z.eqb_spec (l_id x) (l_id l)) as [E | _]; [| exact (IH Nls Hin)].
    exfalso; apply Hx; rewrite E; apply in_map, Hin.
Qed.

Lemma map_l_id_updated (now leadId : Z) (f : lead_fields) (ls : list lead) :
  map l_id (map (fun l => if l_id l =? leadId then applied now f l else l) ls) = map l_id ls.
Proof.
  rewrite map_map; apply map_ext; intros l; destruct (l_id l =? leadId); reflexivity.
Qed.

Lemma map_l_practice_id_updated (now leadId : Z) (f : lead_fields) (ls : list lead) :
  map l_practice_id (map (fun l => if l_id l =? leadId then applied now f l else l) ls)
  = map l_practice_id ls.
Proof.
  rewrite map_map; apply map_ext; intros l; destruct (l_id l =? leadId); reflexivity.
Qed.

Lemma Forall_map_iff {A B} (P : B -> Prop) (g : A -> B) (xs : list A) :
  Forall (fun x => P (g x)) xs <-> Forall P (map g xs).
Proof.
  induction xs as [| x xs IH]; simpl; split; intros F; try constructor;
    inversion F; subst; try assumption; apply IH; assumption.
Qed.

Lemma updated_wf (now leadId : Z) (f : lead_fields) (d : db) :
  wf_db d -> wf_db (updated now leadId f d).
Proof.
  intros [W1 W2 W3 W4 W5 W6 W7 W8 W9]; unfold updated.
  constructor; cbn [practices leads activities practices_id_seq leads_id_seq
                    activities_id_seq log with_leads];
    rewrite ?map_l_id_updated, ?map_l_practice_id_updated; try assumption.
  apply (Forall_map_iff (fun i => i < leads_id_seq d) l_id).
  rewrite map_l_id_updated.
  apply (Forall_map_iff (fun i => i < leads_id_seq d) l_id); assumption.
Qed.

Lemma logged_wf (now leadId : Z) (f : activity_fields) (k : string) (d : db) :
  wf_db d -> In leadId (map l_id (leads d)) -> wf_db (logged now leadId f k d).
Proof.
  intros [W1 W2 W3 W4 W5 W6 W7 W8 W9] Hin; unfold logged.
  constructor; cbn [practices leads activities practices_id_seq leads_id_seq
                    activities_id_seq]; try assumption.
  - rewrite map_app; apply incl_app; [assumption |].
    intros x [<- | []]; exact Hin.
  - apply Forall_app; split.
    + eapply Forall_impl; [| exact W9]; cbv beta; intros; lia.
    + constructor; [simpl; lia | constructor].
Qed.

(** ** A status change and its log entry *)

Lemma append_empty_r (s : string) : (s ++ "")%string = s.
Proof. induction s as [| a s IH]; simpl; [reflexivity | rewrite IH; reflexivity]. Qed.

Lemma status_change_title_contains (s : string) :
  is_substring s (status_change_title (JStr s)).
Proof.
  exists "Status â†’ ", ""; unfold status_change_title; simpl spliced.
  rewrite append_empty_r; reflexivity.
Qed.

Lemma updates_start_with_status (f : lead_fields) :
  status_accepted (lf_status f) = true ->
  In ColStatus (map column_of (lead_updates f ++ [SetUpdatedAtNow])).
Proof.
  intros E; unfold lead_updates; rewrite E; simpl; left; reflexivity.
Qed.

(** C2: a [PATCH] of an existing lead whose body carries a status of the
    enum appends exactly one activity to the log, of kind [status_change],
    for that lead, with the status inside its title, and the [INSERT] of
    that activity is the first write of the request.  When the server
    takes the parameters of the [UPDATE], the journal shows that [UPDATE]
    after the [INSERT], and after it the row holds the new status.  When
    the server refuses one (notes or tags that hold U+0000, a score
    within 0..100 that is no integer), the activity is the one write of
    the request: no status was written and no lead has changed. *)
Theorem patch_logs_status_change_before_update
        (t1 t2 : Z) (id : string) (body : jsval) (d : db) (l : lead) (s : string) :
  wf_db d -> In l (leads d) -> Str.parseInt id = Some (l_id l) ->
  lf_status (patch_fields body) = JStr s -> is_lead_status s = true ->
  exists (a : activity) (title : string) (tail : list write),
    activities (patched t1 t2 id body d) = activities d ++ [a]
    /\ a_lead_id a = l_id l
    /\ a_kind a = "status_change"
    /\ a_title a = Some title
    /\ is_substring s title
    /\ journal (patched t1 t2 id body d)
       = journal d ++ InsertActivity (l_id l) "status_change" :: tail
    /\ if update_fits (patch_fields body)
       then (exists cols, tail = [UpdateLead (l_id l) cols] /\ In ColStatus cols)
            /\ option_map l_status (find_lead (l_id l) (patched t1 t2 id body d)) = Some s
       else tail = [] /\ leads (patched t1 t2 id body d) = leads d.
Proof.
  intros W Hl Eid Est Henum.
  assert (Hacc : status_accepted (lf_status (patch_fields body)) = true).
  { rewrite Est; apply is_lead_status_truthy, Henum. }
  rewrite (patched_accepted t1 t2 id body d l W Hl Eid Hacc).
  exists (logged_row t1 (l_id l) (status_change_fields body) "status_change" d),
         (status_change_title (JStr s)).
  destruct (update_fits (patch_fields body)).
  - exists [UpdateLead (l_id l)
                       (map column_of (lead_updates (patch_fields body) ++ [SetUpdatedAtNow]))].
    repeat split; try reflexivity.
    + unfold status_change_fields; rewrite Est; reflexivity.
    + apply status_change_title_contains.
    + rewrite updated_journal, logged_journal, <- app_assoc; reflexivity.
    + eexists; split; [reflexivity | apply updates_start_with_status, Hacc].
    + rewrite find_lead_updated, find_lead_logged, (find_lead_In d l W Hl).
      cbn [option_map]; unfold applied; cbn [l_status].
      rewrite Hacc, Est; reflexivity.
  - exists []; repeat split; try reflexivity.
    + unfold status_change_fields; rewrite Est; reflexivity.
    + apply status_change_title_contains.
Qed.

(** A [PATCH] of an existing lead whose status is not in the enum adds
    no activity to the log and leaves the stored status as it was.  The
    notes, the score and the tags of the same request that pass the
    checks of [updateLead] are stored when the server takes every
    parameter of the [UPDATE]; when it refuses one, nothing of the
    request is stored: the row is the row that was there. *)
Lemma patch_unknown_status_is_skipped
      (t1 t2 : Z) (id : string) (body : jsval) (d : db) (l : lead) :
  wf_db d -> In l (leads d) -> Str.parseInt id = Some (l_id l) ->
  includes_status (lf_status (patch_fields body)) = false ->
  activities (patched t1 t2 id body d) = activities d
  /\ exists l' : lead,
       find_lead (l_id l) (patched t1 t2 id body d) = Some l'
       /\ l_status l' = l_status l
       /\ (update_fits (patch_fields body) = false -> l' = l)
       /\ (update_fits (patch_fields body) = true ->
           (is_defined (lf_notes (patch_fields body)) = true ->
            l_notes l' = pg_text (lf_notes (patch_fields body)))
           /\ (forall q, lf_score (patch_fields body) = JNum q ->
                         number_in_0_100 (JNum q) = true ->
                         l_score l' = Some (Q_to_Z q))
           /\ (is_array (lf_tags (patch_fields body)) = true ->
               l_tags l' = Some (lf_tags (patch_fields body)))).
Proof.
  intros W Hl Eid Hout.
  assert (Hacc : status_accepted (lf_status (patch_fields body)) = false).
  { unfold status_accepted; rewrite Hout; apply andb_false_r. }
  rewrite (patched_ignored t1 t2 id body d l W Hl Eid Hacc).
  pose proof (find_lead_In d l W Hl) as Hfind.
  destruct (lead_updates (patch_fields body)) as [| a rest] eqn:Eu.
  - split; [reflexivity |]; exists l.
    split; [exact Hfind |]; split; [reflexivity |]; split; [reflexivity |].
    intros _; repeat split.
    + intros Hn; exfalso; unfold lead_updates in Eu; rewrite Hacc, Hn in Eu; discriminate.
    + intros q Eq Hin; exfalso; unfold lead_updates in Eu.
      rewrite Hacc, Eq, Hin in Eu.
      destruct (is_defined _); discriminate.
    + intros Ht; exfalso; unfold lead_updates in Eu; rewrite Hacc, Ht in Eu.
      destruct (is_defined _), (number_in_0_100 _); discriminate.
  - destruct (update_fits (patch_fields body)).
    + split; [reflexivity |]; exists (applied t2 (patch_fields body) l).
      split; [rewrite find_lead_updated, Hfind; reflexivity |].
      unfold applied; cbn [l_status l_notes l_score l_tags]; rewrite Hacc.
      split; [reflexivity |]; split; [discriminate |]; intros _; repeat split.
      * intros ->; reflexivity.
      * intros q Eq Hin; rewrite Eq, Hin; reflexivity.
      * intros ->; reflexivity.
    + split; [reflexivity |]; exists l.
      split; [exact Hfind |]; split; [reflexivity |]; split; [reflexivity | discriminate].
Qed.

(** C3, at an input on which the code departs from it.  The body
    [{status: 'archived', notes: 'call back in May', score: 50.5}] has a
    status outside the enum, notes that are a text the server takes, and
    a score that passes the check of [updateLead] (a number within
    0..100) and is no integer.  The status is skipped and no activity is
    logged, as the claim says; but the [INTEGER] column refuses the
    score, the one [UPDATE] of the request fails, the route answers with
    the error page, and the notes are not stored: the store is the store
    that was there. *)
Theorem patch_unknown_status_loses_notes :
  includes_status (lf_status (patch_fields half_score_body)) = false
  /\ lf_notes (patch_fields half_score_body) = JStr "call back in May"
  /\ @notes_fit example_driver (patch_fields half_score_body) = true
  /\ number_in_0_100 (lf_score (patch_fields half_score_body)) = true
  /\ score_fits (lf_score (patch_fields half_score_body)) = false
  /\ find_lead 1 two_practices = Some acme_lead
  /\ respond (@patch_lead example_driver 20 21 "1" half_score_body) two_practices
     = (ServerError, two_practices)
  /\ option_map l_notes (find_lead 1 (@patched example_driver 20 21 "1" half_score_body
                                               two_practices))
     = Some None.
Proof. repeat split; reflexivity. Qed.

(** ** The same status, again *)

Lemma status_changes_logged (now leadId : Z) (f : activity_fields) (d : db) :
  status_changes leadId (logged now leadId f "status_change" d)
  = status_changes leadId d ++ [logged_row now leadId f "status_change" d].
Proof.
  unfold status_changes; rewrite logged_activities, filter_app; simpl.
  unfold is_status_change at 2; simpl; rewrite Z.eqb_refl; reflexivity.
Qed.

Lemma patch_same_status_step
      (t1 t2 : Z) (id : string) (body : jsval) (d : db) (i : Z) (s : string) :
  wf_db d ->
  (exists l, In l (leads d) /\ l_id l = i /\ l_status l = s) ->
  Str.parseInt id = Some i ->
  lf_status (patch_fields body) = JStr s ->
  is_lead_status s = true ->
  wf_db (patched t1 t2 id body d)
  /\ (exists l, In l (leads (patched t1 t2 id body d)) /\ l_id l = i /\ l_status l = s)
  /\ List.length (status_changes i (patched t1 t2 id body d))
     = S (List.length (status_changes i d)).
Proof.
  intros W (l & Hl & <- & <-) Eid Est Henum.
  assert (Hacc : status_accepted (lf_status (patch_fields body)) = true).
  { rewrite Est; apply is_lead_status_truthy, Henum. }
  rewrite (patched_accepted t1 t2 id body d l W Hl Eid Hacc).
  pose proof (logged_wf t1 (l_id l) (status_change_fields body) "status_change" d W
                        (in_map l_id _ _ Hl)) as W1.
  destruct (update_fits (patch_fields body)).
  - split; [apply updated_wf, W1 |]; split.
    + exists (applied t2 (patch_fields body) l); repeat split.
      * rewrite updated_leads, logged_leads.
        apply in_map_iff; exists l; split; [| assumption].
        rewrite Z.eqb_refl; reflexivity.
      * unfold applied; cbn [l_status]; rewrite Hacc, Est; reflexivity.
    + unfold status_changes at 1; rewrite updated_activities.
      fold (status_changes (l_id l)
                           (logged t1 (l_id l) (status_change_fields body) "status_change" d)).
      rewrite status_changes_logged, length_app; simpl; lia.
  - split; [exact W1 |]; split.
    + exists l; auto.
    + rewrite status_changes_logged, length_app; simpl; lia.
Qed.

Lemma patch_same_status_rounds
      (clock : list (Z * Z)) (id : string) (body : jsval) (i : Z) (s : string) :
  Str.parseInt id = Some i ->
  lf_status (patch_fields body) = JStr s ->
  is_lead_status s = true ->
  forall d,
    wf_db d ->
    (exists l, In l (leads d) /\ l_id l = i /\ l_status l = s) ->
    List.length (status_changes i (patch_repeatedly clock id body d))
    = (List.length (status_changes i d) + List.length clock)%nat.
Proof.
  intros Eid Est Henum.
  induction clock as [| [t1 t2] clock IH]; intros d W Hex; simpl.
  - lia.
  - destruct (patch_same_status_step t1 t2 id body d i s W Hex Eid Est Henum)
      as (W' & Hex' & Hlen).
    change (snd (respond (patch_lead t1 t2 id body) d)) with (patched t1 t2 id body d).
    rewrite (IH _ W' Hex'), Hlen; lia.
Qed.

(** C10: a [PATCH] whose status is the status the lead already has is
    logged like any other: sent [n] times over, the request adds [n]
    [status_change] activities to the log of that lead; nothing compares
    the status of the body with the stored one. *)
Theorem patch_same_status_logs_every_time
        (clock : list (Z * Z)) (id : string) (body : jsval) (d : db) (l : lead) :
  wf_db d -> In l (leads d) -> Str.parseInt id = Some (l_id l) ->
  lf_status (patch_fields body) = JStr (l_status l) ->
  is_lead_status (l_status l) = true ->
  List.length (status_changes (l_id l) (patch_repeatedly clock id body d))
  = (List.length (status_changes (l_id l) d) + List.length clock)%nat.
Proof.
  intros W Hl Eid Est Henum.
  apply (patch_same_status_rounds clock id body (l_id l) (l_status l)); try assumption.
  exists l; auto.
Qed.

(** ** The score of an update *)

Lemma updateLead_fits (now leadId : Z) (f : lead_fields) (d : db) (l : lead) :
  find_lead leadId d = Some l ->
  update_fits f = true ->
  exists r,
    fst (updateLead now leadId f d) = Ok r
    /\ exists l', find_lead leadId (snd (updateLead now leadId f d)) = Some l'
                  /\ l_score l' = l_score (applied now f l).
Proof.
  intros Hfind Hfit.
  destruct (lead_updates f) as [| a rest] eqn:Eu.
  - unfold updateLead; rewrite Eu; eexists; split; [reflexivity |].
    exists l; split; [exact Hfind |].
    unfold applied; cbn [l_score].
    destruct (lf_score f) as [| | | q | | | | |] eqn:Es; try reflexivity.
    destruct (number_in_0_100 (JNum q)) eqn:Hin; [| reflexivity].
    exfalso; unfold lead_updates in Eu; rewrite Es, Hin in Eu.
    destruct (status_accepted _), (is_defined _); discriminate.
  - rewrite updateLead_applies; [| rewrite Eu; discriminate | assumption].
    eexists; split; [reflexivity |].
    exists (applied now f l); split; [| reflexivity].
    cbn [snd]; rewrite find_lead_updated, Hfind; reflexivity.
Qed.

Lemma Q_integer_value (q : Q) (n : Z) :
  (q == inject_Z n)%Q -> Q_is_integer q = true /\ Q_to_Z q = n.
Proof.
  unfold Qeq, Q_is_integer, Q_to_Z; simpl; intros E.
  rewrite Z.mul_1_r in E; rewrite E; split.
  - apply Z.eqb_eq, Z_mod_mult.
  - apply Z_div_mult; lia.
Qed.

Lemma out_of_range (q : Q) : (q < 0 \/ 100 < q)%Q -> number_in_0_100 (JNum q) = false.
Proof.
  intros [Hlt | Hgt]; unfold number_in_0_100.
  - replace (Qle_bool 0 q) with false; [reflexivity |].
    symmetry; apply not_true_is_false; rewrite Qle_bool_iff.
    apply Qlt_not_le, Hlt.
  - replace (Qle_bool q 100) with false; [apply andb_false_r |].
    symmetry; apply not_true_is_false; rewrite Qle_bool_iff.
    apply Qlt_not_le, Hgt.
Qed.

Lemma bound_in_range (q : Q) (n : Z) :
  0 <= n <= 100 -> (q == inject_Z n)%Q -> number_in_0_100 (JNum q) = true.
Proof.
  intros Hn E; unfold number_in_0_100.
  apply andb_true_intro; split; apply Qle_bool_iff; rewrite E.
  - change 0%Q with (inject_Z 0); rewrite <- Zle_Qle; lia.
  - change 100%Q with (inject_Z 100); rewrite <- Zle_Qle; lia.
Qed.

(** With a score that the server takes, the [UPDATE] is taken when the
    notes and the tags are. *)
Lemma update_fits_others (f : lead_fields) :
  score_fits (lf_score f) = true -> update_fits f = notes_fit f && tags_fit f.
Proof. intros E; unfold update_fits; rewrite E, andb_true_r; reflexivity. Qed.

Lemma update_fits_score (f : lead_fields) :
  update_fits f = true -> score_fits (lf_score f) = true.
Proof.
  unfold update_fits; intros E.
  apply andb_prop in E as (E & _); apply andb_prop in E as (_ & E); exact E.
Qed.

Lemma score_column_pushed (f : lead_fields) :
  In ColScore (map column_of (lead_updates f)) <-> number_in_0_100 (lf_score f) = true.
Proof.
  unfold lead_updates; split.
  - destruct (number_in_0_100 (lf_score f)); [reflexivity |].
    destruct (status_accepted _), (is_defined _), (is_array _); simpl;
      intuition discriminate.
  - intros ->; apply in_map_iff; exists (SetScore (lf_score f)); split; [reflexivity |].
    apply in_or_app; right; apply in_or_app; right; apply in_or_app; left; left; reflexivity.
Qed.

Lemma updateLead_keeps_score (now leadId : Z) (f : lead_fields) (d : db) (l : lead) :
  find_lead leadId d = Some l ->
  number_in_0_100 (lf_score f) = false ->
  keeps_score now leadId f d (l_score l)
  /\ (notes_fit f && tags_fit f = true -> leaves_score now leadId f d (l_score l)).
Proof.
  intros Hfind Hin.
  assert (Hs : score_fits (lf_score f) = true)
    by (unfold score_fits; destruct (lf_score f); try reflexivity; rewrite Hin; reflexivity).
  assert (Hkept : l_score (applied now f l) = l_score l)
    by (unfold applied; cbn [l_score]; rewrite Hin; destruct (lf_score f); reflexivity).
  rewrite <- (update_fits_others f Hs).
  destruct (update_fits f) eqn:Hfit.
  - destruct (updateLead_fits now leadId f d l Hfind Hfit) as (r & Er & l' & El' & Hl').
    rewrite Hkept in Hl'; split; [exists l'; auto | intros _; exists r, l'; auto].
  - destruct (updateLead_refused now leadId f d Hfit) as (_ & e & E).
    split; [| discriminate].
    exists l; rewrite E; auto.
Qed.

Lemma updateLead_stores_bound
      (now leadId : Z) (f : lead_fields) (d : db) (l : lead) (q : Q) (n : Z) :
  find_lead leadId d = Some l -> lf_score f = JNum q ->
  0 <= n <= 100 -> (q == inject_Z n)%Q ->
  stores_score now leadId f d n.
Proof.
  intros Hfind Es Hn E.
  destruct (Q_integer_value q n E) as (Hint & Hval).
  pose proof (bound_in_range q n Hn E) as Hin; rewrite <- Es in Hin.
  assert (Hs : score_fits (lf_score f) = true)
    by (unfold score_fits; rewrite Es in *; rewrite Hin; exact Hint).
  split; [apply score_column_pushed, Hin |].
  rewrite <- (update_fits_others f Hs).
  destruct (update_fits f) eqn:Hfit.
  - destruct (updateLead_fits now leadId f d l Hfind Hfit) as (r & Er & l' & El' & Hl').
    exists r, l'; repeat split; try assumption.
    rewrite Hl'; unfold applied; cbn [l_score]; rewrite Hin, Es, Hval; reflexivity.
  - destruct (updateLead_refused now leadId f d Hfit) as (_ & e & Eu); eauto.
Qed.

(** C4: for a lead of the store and a numeric score [q].  When [q] is
    below 0 or above 100 the score is dropped, not clamped: no [score]
    column is in the [UPDATE], and the stored score is the one that was
    there, whatever else the update carries.  When [q] is 0 or 100 it
    passes the check, its column is in the [UPDATE], and [updateLead]
    returns with that score stored.  (Stored, that is, when the server
    takes the notes and the tags of the same update; if one of them
    holds U+0000 it refuses the statement, [updateLead] throws and the
    store is as it was.) *)
Theorem updateLead_score_bounds
        (now leadId : Z) (f : lead_fields) (d : db) (l : lead) (q : Q) :
  find_lead leadId d = Some l ->
  lf_score f = JNum q ->
  ((q < 0 \/ 100 < q)%Q ->
   ~ In ColScore (map column_of (lead_updates f))
   /\ keeps_score now leadId f d (l_score l)
   /\ (notes_fit f && tags_fit f = true -> leaves_score now leadId f d (l_score l)))
  /\ ((q == 0)%Q -> stores_score now leadId f d 0)
  /\ ((q == 100)%Q -> stores_score now leadId f d 100).
Proof.
  intros Hfind Es; split; [| split].
  - intros Hout.
    assert (Hin : number_in_0_100 (lf_score f) = false)
      by (rewrite Es; apply out_of_range, Hout).
    split; [| apply (updateLead_keeps_score now leadId f d l Hfind Hin)].
    intros Hcol; apply score_column_pushed in Hcol; congruence.
  - intros E; apply (updateLead_stores_bound now leadId f d l q 0); auto; lia.
  - intros E; apply (updateLead_stores_bound now leadId f d l q 100); auto; lia.
Qed.

End StoreProperties.

(** ** [ORDER BY l.id] *)

Module OrderBy.

Lemma insert_perm (r : lead * practice) (rows : list (lead * practice)) :
  Permutation (insert_by_lead_id r rows) (r :: rows).
Proof.
  induction rows as [| x rows IH]; simpl; [reflexivity |].
  destruct (l_id (fst r) <=? l_id (fst x)); [reflexivity |].
  rewrite IH; apply perm_swap.
Qed.

Lemma sort_perm (rows : list (lead * practice)) :
  Permutation (order_by_lead_id rows) rows.
Proof.
  induction rows as [| r rows IH]; simpl; [constructor |].
  rewrite insert_perm; constructor; exact IH.
Qed.

Lemma insert_sorted (r : lead * practice) (rows : list (lead * practice)) :
  StronglySorted le_key rows -> StronglySorted le_key (insert_by_lead_id r rows).
Proof.
  induction 1 as [| x rows Hs IH Hx]; simpl.
  - repeat constructor.
  - destruct (Z.leb_spec (l_id (fst r)) (l_id (fst x))) as [Hle | Hgt].
    + constructor; [constructor; assumption |].
      constructor; [exact Hle |].
      eapply Forall_impl; [| exact Hx].
      unfold le_key, row_key in *; intros; lia.
    + constructor; [exact IH |].
      eapply Permutation_Forall; [symmetry; apply insert_perm |].
      constructor; [unfold le_key, row_key; lia | exact Hx].
Qed.

Lemma sort_sorted (rows : list (lead * practice)) :
  StronglySorted le_key (order_by_lead_id rows).
Proof.
  induction rows as [| r rows IH]; simpl; [constructor | apply insert_sorted, IH].
Qed.

Lemma sorted_strict (rows : list (lead * practice)) :
  NoDup (map row_key rows) -> StronglySorted le_key rows -> StronglySorted lt_key rows.
Proof.
  induction 2 as [| x rows Hs IH Hx]; [constructor |].
  simpl in H; inversion H as [| ? ? Hnotin Hnd]; subst.
  constructor; [apply IH, Hnd |].
  rewrite Forall_forall in *; intros y Hy.
  specialize (Hx y Hy); unfold le_key, lt_key in *.
  assert (row_key x <> row_key y).
  { intros E; apply Hnotin; rewrite E; apply in_map, Hy. }
  lia.
Qed.

Lemma sorted_firstn {A} (R : A -> A -> Prop) (n : nat) (l : list A) :
  StronglySorted R l -> StronglySorted R (firstn n l).
Proof.
  intros Hs; revert n; induction Hs as [| x l Hs IH Hx]; intros [| n]; simpl;
    try constructor; [apply IH |].
  rewrite Forall_forall in *; intros y Hy; apply Hx.
  rewrite <- (firstn_skipn n l); apply in_or_app; left; exact Hy.
Qed.

(** In a sorted list, what comes first is before what comes after. *)
Lemma sorted_app_cross {A} (R : A -> A -> Prop) (l1 l2 : list A) :
  StronglySorted R (l1 ++ l2) -> forall a b, In a l1 -> In b l2 -> R a b.
Proof.
  induction l1 as [| x l1 IH]; simpl; intros Hs a b Ha Hb; [destruct Ha |].
  apply StronglySorted_inv in Hs as (Hs & Hx).
  destruct Ha as [<- | Ha]; [| exact (IH Hs a b Ha Hb)].
  rewrite Forall_forall in Hx; apply Hx, in_or_app; right; exact Hb.
Qed.

Lemma sorted_map {A B} (R : B -> B -> Prop) (g : A -> B) (l : list A) :
  StronglySorted (fun a b => R (g a) (g b)) l -> StronglySorted R (map g l).
Proof.
  induction 1 as [| x l Hs IH Hx]; simpl; constructor; [exact IH |].
  rewrite Forall_forall in *; intros y Hy.
  apply in_map_iff in Hy as (a & <- & Ha); apply Hx, Ha.
Qed.

(** Two strictly sorted lists with the same rows are the same list. *)
Lemma sorted_unique (l1 l2 : list (lead * practice)) :
  StronglySorted lt_key l1 -> StronglySorted lt_key l2 -> Permutation l1 l2 -> l1 = l2.
Proof.
  intros S1; revert l2; induction S1 as [| a t1 S1 IH Ha]; intros l2 S2 P.
  - apply Permutation_nil in P; subst; reflexivity.
  - destruct S2 as [| b t2 S2 Hb].
    + symmetry in P; apply Permutation_nil in P; discriminate.
    + rewrite Forall_forall in Ha, Hb.
      assert (E : a = b).
      { assert (Hab : In a (b :: t2)) by (eapply Permutation_in; [exact P | left; reflexivity]).
        assert (Hba : In b (a :: t1))
          by (eapply Permutation_in; [symmetry; exact P | left; reflexivity]).
        destruct Hab as [-> | Hab]; [reflexivity |].
        destruct Hba as [-> | Hba]; [reflexivity |].
        specialize (Ha b Hba); specialize (Hb a Hab); unfold lt_key in *; lia. }
      subst b; f_equal; apply IH; [exact S2 |].
      eapply Permutation_cons_inv; exact P.
Qed.

Lemma filter_perm {A} (g : A -> bool) (l l' : list A) :
  Permutation l l' -> Permutation (filter g l) (filter g l').
Proof.
  induction 1 as [| x l l' P IH | x y l | l l' l'' P1 IH1 P2 IH2]; simpl.
  - constructor.
  - destruct (g x); [constructor |]; exact IH.
  - destruct (g x), (g y); try reflexivity; apply perm_swap.
  - etransitivity; eassumption.
Qed.

Lemma flat_map_pointwise_perm {A B} (g g' : A -> list B) (l : list A) :
  (forall x, Permutation (g x) (g' x)) -> Permutation (flat_map g l) (flat_map g' l).
Proof.
  intros Hg; induction l as [| x l IH]; simpl; [constructor |].
  apply Permutation_app; [apply Hg | exact IH].
Qed.

Lemma flat_map_perm {A B} (g g' : A -> list B) (l l' : list A) :
  (forall x, Permutation (g x) (g' x)) ->
  Permutation l l' -> Permutation (flat_map g l) (flat_map g' l').
Proof.
  intros Hg P.
  etransitivity; [apply Permutation_flat_map, P |].
  apply flat_map_pointwise_perm, Hg.
Qed.

Lemma NoDup_map_inj {A B} (g : A -> B) (l : list A) (a b : A) :
  NoDup (map g l) -> In a l -> In b l -> g a = g b -> a = b.
Proof.
  induction l as [| x l IH]; simpl; intros N Ha Hb E; [destruct Ha |].
  inversion N as [| ? ? Hx Nl]; subst.
  destruct Ha as [-> | Ha], Hb as [-> | Hb]; try reflexivity.
  - exfalso; apply Hx; rewrite E; apply in_map, Hb.
  - exfalso; apply Hx; rewrite <- E; apply in_map, Ha.
  - apply IH; assumption.
Qed.

(** A unique column selects one row at most. *)
Lemma filter_by_key {A K} (eqb : K -> K -> bool) (g : A -> K) (k : K) (l : list A) :
  (forall x y, reflect (x = y) (eqb x y)) ->
  NoDup (map g l) ->
  filter (fun x => eqb (g x) k) l = [] \/ exists x, filter (fun x => eqb (g x) k) l = [x].
Proof.
  intros Heq; induction l as [| x l IH]; simpl; intros N; [left; reflexivity |].
  inversion N as [| ? ? Hx Nl]; subst.
  destruct (Heq (g x) k) as [E | _]; [| apply IH, Nl].
  right; exists x; f_equal.
  destruct (filter (fun y => eqb (g y) k) l) as [| y rest] eqn:F; [reflexivity |].
  exfalso; apply Hx.
  assert (Hy : In y (filter (fun y => eqb (g y) k) l)) by (rewrite F; left; reflexivity).
  apply filter_In in Hy as (Hy & Ey).
  destruct (Heq (g y) k) as [Ek | _]; [| discriminate].
  rewrite E, <- Ek; apply in_map, Hy.
Qed.

Lemma joined_keys (d : db) :
  NoDup (map l_id (leads d)) -> NoDup (map p_id (practices d)) ->
  NoDup (map row_key (joined d)).
Proof.
  intros Nl Np; unfold joined.
  induction (leads d) as [| l ls IH]; simpl; [constructor |].
  inversion Nl as [| ? ? Hl Nls]; subst.
  rewrite map_app; apply NoDup_app; repeat split.
  - rewrite map_map; simpl.
    destruct (filter_by_key Z.eqb p_id (l_practice_id l) (practices d) Z.eqb_spec Np)
      as [-> | (p & ->)];
      simpl; repeat constructor; intros [].
  - apply IH, Nls.
  - intros k Hk1 Hk2; apply Hl.
    rewrite map_map in Hk1; apply in_map_iff in Hk1 as (p & <- & _).
    apply in_map_iff in Hk2 as ([l' p'] & E & Hin).
    apply in_flat_map in Hin as (l0 & Hl0 & Hin).
    apply in_map_iff in Hin as (p0 & Epair & _).
    injection Epair as <- <-; unfold row_key in E; simpl in E.
    rewrite <- E; apply in_map, Hl0.
Qed.

Lemma joined_perm (d d' : db) :
  Permutation (leads d) (leads d') -> Permutation (practices d) (practices d') ->
  Permutation (joined d) (joined d').
Proof.
  intros Pl Pp; unfold joined.
  apply flat_map_perm; [| exact Pl].
  intros l; apply Permutation_map, filter_perm, Pp.
Qed.

Lemma lead_id_of_row (r : lead * practice) : lead_id (n8n_of_row r) = row_key r.
Proof. destruct r; reflexivity. Qed.

Lemma n8n_rows_strict (status : option string) (w : bool) (d : db) :
  NoDup (map l_id (leads d)) -> NoDup (map p_id (practices d)) ->
  StronglySorted lt_key
                 (order_by_lead_id (filter (n8n_where status w) (joined d))).
Proof.
  intros Nl Np; apply sorted_strict; [| apply sort_sorted].
  eapply Permutation_NoDup; [symmetry; apply Permutation_map, sort_perm |].
  pose proof (joined_keys d Nl Np) as N.
  induction (joined d) as [| r rows IH]; simpl; [constructor |].
  inversion N as [| ? ? Hr Nrows]; subst.
  destruct (n8n_where status w r); [| apply IH, Nrows].
  simpl; constructor; [| apply IH, Nrows].
  intros Hin; apply Hr.
  apply in_map_iff in Hin as (x & <- & Hx).
  apply filter_In in Hx as (Hx & _); apply in_map, Hx.
Qed.

Lemma listLeadsForN8n_rows (limit : Z) (status : option string) (w : bool) (d : db) :
  status_fits status = true ->
  0 <= limit ->
  listLeadsForN8n limit status w d = (Ok (map n8n_of_row (n8n_rows limit status w d)), d).
Proof.
  intros Hs Hl; unfold listLeadsForN8n, bind, guard; rewrite Hs.
  destruct (Z.leb_spec 0 limit); [reflexivity | lia].
Qed.

(** A status that holds U+0000 is refused before the limit is looked at. *)
Lemma listLeadsForN8n_refused (limit : Z) (status : option string) (w : bool) (d : db) :
  status_fits status = false ->
  listLeadsForN8n limit status w d = (Err InvalidByteSequence, d).
Proof. intros Hs; unfold listLeadsForN8n, bind, guard; rewrite Hs; reflexivity. Qed.

Lemma n8n_rows_selected (limit : Z) (status : option string) (w : bool) (d : db)
      (r : lead * practice) :
  In r (n8n_rows limit status w d) -> In r (joined d) /\ n8n_where status w r = true.
Proof.
  unfold n8n_rows; intros Hin.
  assert (Hs : In r (order_by_lead_id (filter (n8n_where status w) (joined d)))).
  { rewrite <- (firstn_skipn (Z.to_nat limit)); apply in_or_app; left; exact Hin. }
  apply (Permutation_in _ (sort_perm _)) in Hs.
  apply filter_In in Hs; exact Hs.
Qed.

End OrderBy.

(** ** The automation feed *)

Section Feed.

Import OrderBy.

Lemma lead_ids_of_rows (rows : list (lead * practice)) :
  map lead_id (map n8n_of_row rows) = map row_key rows.
Proof. rewrite map_map; apply map_ext, lead_id_of_row. Qed.

Lemma n8n_rows_stable (limit : Z) (status : option string) (w : bool) (d d' : db) :
  wf_db d ->
  Permutation (leads d) (leads d') -> Permutation (practices d) (practices d') ->
  n8n_rows limit status w d' = n8n_rows limit status w d.
Proof.
  intros W Pl Pp; unfold n8n_rows; f_equal.
  pose proof (wf_lead_pk d W) as Nl; pose proof (wf_practice_pk d W) as Np.
  apply sorted_unique.
  - apply n8n_rows_strict.
    + eapply Permutation_NoDup; [apply Permutation_map, Pl | exact Nl].
    + eapply Permutation_NoDup; [apply Permutation_map, Pp | exact Np].
  - apply n8n_rows_strict; [exact Nl | exact Np].
  - rewrite !sort_perm; apply filter_perm; symmetry; apply joined_perm; assumption.
Qed.

(** The rows that the limit cuts off have greater ids than the rows
    that it keeps. *)
Lemma n8n_rows_least (limit : Z) (status : option string) (w : bool) (d : db)
      (row kept : lead * practice) :
  wf_db d ->
  In row (joined d) -> n8n_where status w row = true ->
  ~ In row (n8n_rows limit status w d) ->
  In kept (n8n_rows limit status w d) ->
  lt_key kept row.
Proof.
  intros W Hrow Hw Hout Hkept; unfold n8n_rows in *.
  set (sorted := order_by_lead_id (filter (n8n_where status w) (joined d))) in *.
  assert (Hs : StronglySorted lt_key sorted)
    by (apply n8n_rows_strict; [apply (wf_lead_pk d W) | apply (wf_practice_pk d W)]).
  assert (Hin : In row sorted).
  { apply (Permutation_in _ (Permutation_sym (sort_perm _))), filter_In; auto. }
  rewrite <- (firstn_skipn (Z.to_nat limit) sorted) in Hs, Hin.
  apply in_app_or in Hin as [Hin | Hin]; [contradiction |].
  exact (sorted_app_cross lt_key _ _ Hs kept row Hkept Hin).
Qed.

Lemma n8n_rows_length (limit : Z) (status : option string) (w : bool) (d : db) :
  0 <= limit ->
  Z.of_nat (List.length (n8n_rows limit status w d))
  = Z.min limit (Z.of_nat (List.length (filter (n8n_where status w) (joined d)))).
Proof.
  intros Hl; unfold n8n_rows.
  rewrite length_firstn, (Permutation_length (sort_perm _)); lia.
Qed.

(** C8: for a limit that is not negative and a status that the server
    takes, [listLeadsForN8n] reads without writing and returns the leads
    of the store that pass its filters, in ascending order of lead id:
    every lead it returns is the lead of a joined row that passes the
    filters; it returns [limit] of them, or all of them when there are
    fewer; a lead that passes the filters and is left out has a greater
    id than every lead returned; and the ids returned are strictly
    ascending.  The sequence depends on the rows of the store only, not
    on the order in which the tables hold them: a poll of a store with
    the same rows returns the same sequence. *)
Theorem listLeadsForN8n_ascending
        (limit : Z) (status : option string) (w : bool) (d : db) :
  0 <= limit -> wf_db d -> status_fits status = true ->
  exists items : list n8n_lead,
    listLeadsForN8n limit status w d = (Ok items, d)
    /\ StronglySorted Z.lt (map lead_id items)
    /\ (forall it, In it items ->
                   exists row, In row (joined d) /\ n8n_where status w row = true
                               /\ it = n8n_of_row row)
    /\ Z.of_nat (List.length items)
       = Z.min limit (Z.of_nat (List.length (filter (n8n_where status w) (joined d))))
    /\ (forall row, In row (joined d) -> n8n_where status w row = true ->
                    ~ In (lead_id (n8n_of_row row)) (map lead_id items) ->
                    forall it, In it items -> lead_id it < lead_id (n8n_of_row row))
    /\ forall d' : db,
         Permutation (leads d) (leads d') ->
         Permutation (practices d) (practices d') ->
         listLeadsForN8n limit status w d' = (Ok items, d').
Proof.
  intros Hl W Hs.
  exists (map n8n_of_row (n8n_rows limit status w d)).
  split; [apply listLeadsForN8n_rows; assumption |].
  split.
  { rewrite lead_ids_of_rows.
    apply (sorted_map Z.lt row_key), sorted_firstn, n8n_rows_strict;
      [apply (wf_lead_pk d W) | apply (wf_practice_pk d W)]. }
  split.
  { intros it Hit; apply in_map_iff in Hit as (row & <- & Hr).
    apply n8n_rows_selected in Hr as (Hj & Hw); eauto. }
  split; [rewrite length_map; apply n8n_rows_length, Hl |].
  split.
  { intros row Hrow Hw Hout it Hit.
    apply in_map_iff in Hit as (kept & <- & Hkept).
    rewrite !lead_id_of_row.
    apply (n8n_rows_least limit status w d row kept W Hrow Hw); [| exact Hkept].
    intros Hin; apply Hout; rewrite lead_ids_of_rows, lead_id_of_row.
    apply in_map, Hin. }
  intros d' Pl Pp.
  rewrite listLeadsForN8n_rows by assumption.
  rewrite (n8n_rows_stable limit status w d d' W Pl Pp); reflexivity.
Qed.

Lemma has_email_inv (p : practice) :
  has_email p = true -> exists e, p_email p = Some e /\ e <> "".
Proof.
  unfold has_email; destruct (p_email p) as [e |]; [| discriminate].
  intros E; exists e; split; [reflexivity |].
  intros ->; discriminate.
Qed.

Lemma feed_rows (status : option string) (limit : Z) (d : db) (it : n8n_lead) :
  In it (map n8n_of_row (n8n_rows limit status true d)) ->
  exists l p e,
    In l (leads d) /\ In p (practices d) /\ l_practice_id l = p_id p
    /\ lead_id it = l_id l /\ practice_id it = p_id p
    /\ p_email p = Some e /\ e <> "".
Proof.
  intros Hin; apply in_map_iff in Hin as ([l p] & <- & Hr).
  apply n8n_rows_selected in Hr as (Hj & Hw).
  apply joined_elim in Hj as (Hl & Hp & E).
  unfold n8n_where in Hw; apply andb_prop in Hw as (_ & Hmail); simpl in Hmail.
  destruct (has_email_inv p Hmail) as (e & Ee & Hne).
  exists l, p, e; repeat split; auto.
Qed.

(** [GET /api/n8n/leads], as one query or the error page. *)
Lemma get_n8n_leads_response (q_status q_limit : option qval) (d : db) :
  respond (get_n8n_leads q_status q_limit) d
  = if query_text_served q_status
    then (JsonLeads (map n8n_of_row
                         (n8n_rows (n8n_limit q_limit) (feed_status q_status) true d)), d)
    else (ServerError, d).
Proof.
  pose proof (n8n_limit_range q_limit) as Hlim.
  unfold respond, get_n8n_leads, bind.
  destruct q_status as [[s | items | props] |]; try reflexivity.
  - cbn [n8n_status query_text_served feed_status ret].
    destruct (String.eqb_spec (Str.trim s) "") as [E | _].
    + rewrite E; cbn [has_nul negb].
      rewrite listLeadsForN8n_rows by (reflexivity || lia); reflexivity.
    + destruct (has_nul (Str.trim s)) eqn:Hn; cbn [negb].
      * rewrite listLeadsForN8n_refused by (simpl; rewrite Hn; reflexivity); reflexivity.
      * rewrite listLeadsForN8n_rows by (simpl; try rewrite Hn; reflexivity || lia).
        reflexivity.
  - cbn [n8n_status query_text_served feed_status ret].
    rewrite listLeadsForN8n_rows by (reflexivity || lia); reflexivity.
Qed.

(** C6: the answer of [GET /api/n8n/leads] is a list of leads or the
    error page.  Every lead of the list is a lead of the store whose
    practice has an email that is neither [NULL] nor empty, and no lead
    whose practice has a [NULL] or empty email is in the list, whatever
    the status filter and the limit.  The error page is the answer when
    the [status] is not served: the query-string parser made it an array
    or an object, or its text holds U+0000, which the server refuses. *)
Theorem feed_requires_email (q_status q_limit : option qval) (d : db) :
  wf_db d ->
  match fst (respond (get_n8n_leads q_status q_limit) d) with
  | JsonLeads items => query_text_served q_status = true /\ only_with_email d items
  | ServerError => query_text_served q_status = false
  | JsonLead _ _ _ _ _ _ | NotFound => False
  end.
Proof.
  intros W.
  rewrite get_n8n_leads_response.
  destruct (query_text_served q_status); cbn [fst]; [| reflexivity].
  split; [reflexivity |].
  set (st := feed_status q_status).
  split; [intros it; apply feed_rows |].
  intros l p Hl Hp Efk Hmail Hin.
  apply in_map_iff in Hin as (it & Eit & Hit).
  apply feed_rows in Hit as (l' & p' & e & Hl' & Hp' & Efk' & Eid & _ & Ee & Hne).
  assert (l' = l).
  { apply (NoDup_map_inj l_id (leads d)); [apply (wf_lead_pk d W) | | | congruence];
      assumption. }
  subst l'.
  assert (p' = p).
  { apply (NoDup_map_inj p_id (practices d)); [apply (wf_practice_pk d W) | | | congruence];
      assumption. }
  subst p'.
  destruct Hmail as [Hm | Hm]; rewrite Hm in Ee; [discriminate |].
  injection Ee as <-; apply Hne; reflexivity.
Qed.

End Feed.

(** ** Ingestion *)

Section Ingestion.

Context `{PgDriver}.

Import OrderBy.

Lemma name_is_text (v : jsval) : exists s, pg_text (js_or v (JStr "")) = Some s.
Proof.
  unfold js_or; destruct v; simpl; eauto.
  - destruct b; simpl; eauto.
  - destruct (Qeq_bool q 0); simpl; eauto.
  - destruct (String.eqb s ""); simpl; eauto.
Qed.

Lemma carries_url_object (url : string) (r : jsval) :
  carries_url url r -> exists props, r = JObj props.
Proof.
  intros [Ht _]; destruct r; try discriminate Ht; eauto.
Qed.

Lemma fresh_practice_id (d : db) :
  wf_db d -> ~ In (practices_id_seq d) (map p_id (practices d)).
Proof.
  intros W Hin; apply in_map_iff in Hin as (p & E & Hp).
  pose proof (wf_practice_seq d W) as F; rewrite Forall_forall in F.
  specialize (F p Hp); lia.
Qed.

Lemma fresh_lead_id (d : db) :
  wf_db d -> ~ In (leads_id_seq d) (map l_id (leads d)).
Proof.
  intros W Hin; apply in_map_iff in Hin as (l & E & Hl).
  pose proof (wf_lead_seq d W) as F; rewrite Forall_forall in F.
  specialize (F l Hl); lia.
Qed.

Lemma existsb_none {A} (g : A -> Z) (k : Z) (l : list A) :
  ~ In k (map g l) -> existsb (fun x => g x =? k) l = false.
Proof.
  intros Hn; destruct (existsb _ l) eqn:E; [| reflexivity].
  apply existsb_exists in E as (x & Hx & Ex); apply Z.eqb_eq in Ex.
  exfalso; apply Hn; rewrite <- Ex; apply in_map, Hx.
Qed.

Lemma filter_map_commute {A} (g : A -> bool) (h : A -> A) (l : list A) :
  (forall x, g (h x) = g x) -> filter g (map h l) = map h (filter g l).
Proof.
  intros Hg; induction l as [| x l IH]; simpl; [reflexivity |].
  rewrite Hg; destruct (g x); simpl; rewrite IH; reflexivity.
Qed.

(** The store after the [DO UPDATE] branch and after the plain insert. *)
Lemma upsert_overwrite_wf (d : db) (url : string) (h : practice -> practice) :
  wf_db d ->
  (forall p, p_id (h p) = p_id p) -> (forall p, p_url (h p) = p_url p) ->
  wf_db (mkDb (map h (practices d)) (leads d) (activities d)
              (practices_id_seq d + 1) (leads_id_seq d) (activities_id_seq d)
              (journal d ++ [UpsertPractice url])).
Proof.
  intros [W1 W2 W3 W4 W5 W6 W7 W8 W9] Hid Hurl.
  assert (Eid : map p_id (map h (practices d)) = map p_id (practices d))
    by (rewrite map_map; apply map_ext, Hid).
  assert (Eurl : map p_url (map h (practices d)) = map p_url (practices d))
    by (rewrite map_map; apply map_ext, Hurl).
  constructor; cbn [practices leads activities practices_id_seq leads_id_seq
                    activities_id_seq]; rewrite ?Eid, ?Eurl; try assumption.
  apply (Forall_map_iff (fun i => i < practices_id_seq d + 1) p_id); rewrite Eid.
  apply (Forall_map_iff (fun i => i < practices_id_seq d + 1) p_id).
  eapply Forall_impl; [| exact W7]; cbv beta; intros; lia.
Qed.

Lemma upsert_insert_wf (d : db) (row : practice) :
  wf_db d ->
  p_id row = practices_id_seq d ->
  ~ In (p_url row) (map p_url (practices d)) ->
  wf_db (mkDb (practices d ++ [row]) (leads d) (activities d)
              (practices_id_seq d + 1) (leads_id_seq d) (activities_id_seq d)
              (journal d ++ [UpsertPractice (p_url row)])).
Proof.
  intros W Eid Hurl; pose proof (fresh_practice_id d W) as Hfresh.
  destruct W as [W1 W2 W3 W4 W5 W6 W7 W8 W9].
  constructor; cbn [practices leads activities practices_id_seq leads_id_seq
                    activities_id_seq]; rewrite ?map_app; try assumption.
  - apply NoDup_app; repeat split; [assumption | repeat constructor; intros [] |].
    intros k Hk [<- | []]; apply Hfresh; rewrite <- Eid; exact Hk.
  - apply NoDup_app; repeat split; [assumption | repeat constructor; intros [] |].
    intros k Hk [<- | []]; apply Hurl, Hk.
  - apply incl_appl, W5.
  - apply Forall_app; split.
    + eapply Forall_impl; [| exact W7]; cbv beta; intros; lia.
    + repeat constructor; lia.
Qed.

(** A refused parameter: the statement does not run and no id is drawn. *)
Lemma upsertPractice_refused (now : Z) (r : jsval) (d : db) :
  truthy r = true -> record_fits r = false ->
  upsertPractice now r d = (Err InvalidByteSequence, d).
Proof.
  intros Ht Hfit; unfold upsertPractice, bind, guard; rewrite Hfit.
  destruct r; try reflexivity; discriminate Ht.
Qed.

Lemma upsertPractice_ok (now : Z) (r : jsval) (url : string) (d : db) :
  wf_db d -> carries_url url r -> record_fits r = true ->
  exists pid d1,
    upsertPractice now r d = (Ok pid, d1)
    /\ wf_db d1
    /\ leads d1 = leads d
    /\ (exists p, practices_with_url url d1 = [p] /\ p_id p = pid)
    /\ (forall p0, practices_with_url url d = [p0] -> pid = p_id p0)
    /\ (practices_with_url url d = [] -> pid = practices_id_seq d).
Proof.
  intros W Hc Hfit; destruct (carries_url_object url r Hc) as (props & ->).
  destruct Hc as [_ Eurl].
  destruct (name_is_text (js_get (JObj props) "name")) as (name & Ename).
  unfold upsertPractice; unfold bind at 1; unfold guard at 1; rewrite Hfit.
  cbn [ret]; unfold bind at 1; unfold next_practice_id.
  rewrite Eurl, Ename.
  unfold bind at 1; unfold gets at 1; cbn [practices].
  fold (practices_with_url url d).
  destruct (filter_by_key String.eqb p_url url (practices d) String.eqb_spec
                          (wf_practice_url d W)) as [F | (old & F)];
    fold (practices_with_url url d) in F; rewrite F.
  - (* the url is new *)
    unfold bind, gets, guard, modify, ret; cbn [practices].
    rewrite (existsb_none p_id _ _ (fresh_practice_id d W)); cbn [negb].
    eexists; eexists; split; [reflexivity |].
    assert (Hnew : ~ In url (map p_url (practices d))).
    { intros Hin; apply in_map_iff in Hin as (p & E & Hp).
      assert (Hf : In p (practices_with_url url d)).
      { apply filter_In; split; [exact Hp | apply String.eqb_eq, E]. }
      rewrite F in Hf; destruct Hf. }
    split; [| split; [reflexivity | split; [| split]]].
    + unfold log, with_practices;
        cbn [practices leads activities practices_id_seq leads_id_seq activities_id_seq
             journal].
      apply (upsert_insert_wf d (practice_row (JObj props) url name now
                                              (practices_id_seq d) now));
        [exact W | reflexivity | exact Hnew].
    + exists (practice_row (JObj props) url name now (practices_id_seq d) now).
      split; [| reflexivity].
      unfold practices_with_url, log, with_practices; cbn [practices].
      rewrite filter_app; fold (practices_with_url url d); rewrite F; simpl.
      rewrite String.eqb_refl; reflexivity.
    + intros p0 E; discriminate E.
    + reflexivity.
  - (* the url is known: its row is overwritten *)
    unfold bind, modify, ret.
    eexists; eexists; split; [reflexivity |].
    split; [| split; [reflexivity | split; [| split]]].
    + unfold log, with_practices;
        cbn [practices leads activities practices_id_seq leads_id_seq activities_id_seq
             journal].
      apply (upsert_overwrite_wf d url); [exact W | |];
        intros p; destruct (String.eqb_spec (p_url p) url); auto.
    + exists (practice_row (JObj props) url name now (p_id old) (p_created_at old)).
      split; [| reflexivity].
      unfold practices_with_url, log, with_practices; cbn [practices].
      rewrite filter_map_commute.
      * fold (practices_with_url url d); rewrite F; simpl.
        assert (Hold : In old (practices_with_url url d)) by (rewrite F; left; reflexivity).
        apply filter_In in Hold as (_ & ->); reflexivity.
      * intros p; destruct (String.eqb_spec (p_url p) url) as [E | E]; simpl.
        -- apply String.eqb_refl.
        -- apply String.eqb_neq, E.
    + intros p0 E; injection E as <-; reflexivity.
    + intros E; discriminate E.
Qed.

Lemma existsb_some {A} (g : A -> Z) (k : Z) (l : list A) :
  In k (map g l) -> existsb (fun x => g x =? k) l = true.
Proof.
  intros Hin; apply in_map_iff in Hin as (x & <- & Hx).
  apply existsb_exists; exists x; split; [exact Hx | apply Z.eqb_refl].
Qed.

Lemma lead_slot_free (d : db) (pid : Z) :
  wf_db d -> leads_of_practice pid d = [] ->
  existsb (fun l => (l_id l =? leads_id_seq d) || (l_practice_id l =? pid)) (leads d) = false.
Proof.
  intros W F; destruct (existsb _ (leads d)) eqn:E; [| reflexivity].
  apply existsb_exists in E as (l & Hl & E); exfalso.
  apply orb_prop in E as [E | E]; apply Z.eqb_eq in E.
  - apply (fresh_lead_id d W); rewrite <- E; apply in_map, Hl.
  - assert (Hf : In l (leads_of_practice pid d))
      by (apply filter_In; split; [exact Hl | apply Z.eqb_eq, E]).
    rewrite F in Hf; destruct Hf.
Qed.

Lemma insert_lead_wf (d : db) (pid now : Z) :
  wf_db d -> In pid (map p_id (practices d)) -> leads_of_practice pid d = [] ->
  wf_db (mkDb (practices d) (leads d ++ [new_lead (leads_id_seq d) pid now]) (activities d)
              (practices_id_seq d) (leads_id_seq d + 1) (activities_id_seq d)
              (journal d ++ [InsertLead pid])).
Proof.
  intros W Hp F; pose proof (fresh_lead_id d W) as Hfresh.
  destruct W as [W1 W2 W3 W4 W5 W6 W7 W8 W9].
  constructor; cbn [practices leads activities practices_id_seq leads_id_seq
                    activities_id_seq]; rewrite ?map_app; try assumption.
  - apply NoDup_app; repeat split; [assumption | repeat constructor; intros [] |].
    intros k Hk [<- | []]; apply Hfresh, Hk.
  - apply NoDup_app; repeat split; [assumption | repeat constructor; intros [] |].
    intros k Hk [<- | []].
    apply in_map_iff in Hk as (l & E & Hl).
    assert (Hf : In l (leads_of_practice pid d))
      by (apply filter_In; split; [exact Hl | apply Z.eqb_eq, E]).
    rewrite F in Hf; destruct Hf.
  - apply incl_app; [assumption |].
    intros k [<- | []]; exact Hp.
  - apply incl_appl, W6.
  - apply Forall_app; split.
    + eapply Forall_impl; [| exact W8]; cbv beta; intros; lia.
    + repeat constructor; simpl; lia.
Qed.

Lemma ensureLead_ok (now pid : Z) (d : db) :
  wf_db d -> In pid (map p_id (practices d)) ->
  exists lid d2,
    ensureLead now pid d = (Ok lid, d2)
    /\ wf_db d2
    /\ practices d2 = practices d
    /\ (exists l, leads_of_practice pid d2 = [l] /\ l_id l = lid)
    /\ (forall l0, leads_of_practice pid d = [l0] -> d2 = d)
    /\ (leads_of_practice pid d = [] -> leads d2 = leads d ++ [new_lead lid pid now]).
Proof.
  intros W Hp.
  unfold ensureLead; unfold bind at 1; unfold gets at 1.
  fold (leads_of_practice pid d).
  destruct (filter_by_key Z.eqb l_practice_id pid (leads d) Z.eqb_spec
                          (wf_lead_practice d W)) as [F | (l0 & F)];
    fold (leads_of_practice pid d) in F; rewrite F.
  - (* no lead yet: one is inserted, with status new *)
    unfold insert_lead, bind, next_lead_id, gets, guard, modify, ret;
      cbn [practices leads leads_id_seq].
    rewrite (existsb_some p_id pid _ Hp); cbv beta iota; cbn [leads leads_id_seq].
    rewrite (lead_slot_free d pid W F); cbn [negb].
    eexists; eexists; split; [reflexivity |].
    unfold log, with_leads;
      cbn [practices leads activities practices_id_seq leads_id_seq activities_id_seq
           journal].
    split; [apply insert_lead_wf; assumption |].
    split; [reflexivity |].
    split; [| split; [intros l0 E; discriminate E | reflexivity]].
    exists (new_lead (leads_id_seq d) pid now); split; [| reflexivity].
    unfold leads_of_practice; cbn [leads]; rewrite filter_app.
    fold (leads_of_practice pid d); rewrite F; simpl.
    rewrite Z.eqb_refl; reflexivity.
  - (* the lead is there: its id is returned and nothing is written *)
    exists (l_id l0), d; split; [reflexivity |].
    split; [exact W |].
    split; [reflexivity |].
    split; [exists l0; split; [exact F | reflexivity] |].
    split; [reflexivity | intros E; discriminate E].
Qed.

Lemma no_lead_of_next_practice (d : db) :
  wf_db d -> leads_of_practice (practices_id_seq d) d = [].
Proof.
  intros W; unfold leads_of_practice.
  destruct (filter _ (leads d)) as [| l rest] eqn:F; [reflexivity |].
  assert (Hl : In l (filter (fun l => l_practice_id l =? practices_id_seq d) (leads d)))
    by (rewrite F; left; reflexivity).
  apply filter_In in Hl as (Hl & E); apply Z.eqb_eq in E.
  exfalso; apply (fresh_practice_id d W); rewrite <- E.
  apply (wf_lead_fk d W), in_map, Hl.
Qed.

Lemma ingest_ok (ta tb : Z) (r : jsval) (url : string) (d : db) :
  wf_db d -> carries_url url r -> record_fits r = true ->
  exists d' p l,
    ingest ta tb r d = (Ok tt, d')
    /\ wf_db d'
    /\ practices_with_url url d' = [p]
    /\ leads_of_practice (p_id p) d' = [l]
    /\ (forall p0, practices_with_url url d = [p0] ->
                   p_id p = p_id p0
                   /\ forall l0, leads_of_practice (p_id p0) d = [l0] -> leads d' = leads d)
    /\ (practices_with_url url d = [] -> l = new_lead (l_id l) (p_id p) tb).
Proof.
  intros W Hc Hfit.
  destruct (upsertPractice_ok ta r url d W Hc Hfit)
    as (pid & d1 & Eup & W1 & Hleads & (p & Hp & Epid) & Hsame & Hnew).
  assert (Hin : In pid (map p_id (practices d1))).
  { rewrite <- Epid; apply in_map.
    assert (Hf : In p (practices_with_url url d1)) by (rewrite Hp; left; reflexivity).
    apply filter_In in Hf; apply Hf. }
  destruct (ensureLead_ok tb pid d1 W1 Hin)
    as (lid & d2 & Een & W2 & Hprac & (l & Hl & Elid) & Hkeep & Hcreate).
  assert (Erun : ingest ta tb r d = (Ok tt, d2)).
  { destruct (carries_url_object url r Hc) as (props & ->).
    destruct Hc as [Ht _].
    unfold ingest; rewrite Ht; cbn [truthy negb orb].
    unfold upsert_then_ensure, bind; rewrite Eup, Een; reflexivity. }
  exists d2, p, l; rewrite Erun, Epid.
  split; [reflexivity |].
  split; [exact W2 |].
  split; [unfold practices_with_url in *; rewrite Hprac; exact Hp |].
  split; [exact Hl |].
  split.
  - intros p0 Hp0; split; [apply Hsame, Hp0 |].
    intros l0 Hl0.
    rewrite <- (Hsame p0 Hp0) in Hl0.
    assert (E : leads_of_practice pid d1 = [l0])
      by (unfold leads_of_practice in *; rewrite Hleads; exact Hl0).
    rewrite (Hkeep l0 E); exact Hleads.
  - intros Hnone.
    assert (E : leads_of_practice pid d1 = []).
    { rewrite (Hnew Hnone); unfold leads_of_practice; rewrite Hleads.
      apply (no_lead_of_next_practice d W). }
    specialize (Hcreate E).
    unfold leads_of_practice in Hl, E; rewrite Hcreate, filter_app, E in Hl.
    simpl in Hl; rewrite Z.eqb_refl in Hl.
    injection Hl as <-; reflexivity.
Qed.

(** The loop stops at a record that the server refuses: [upsertPractice]
    throws, nothing of that record is written, and no later record is
    read. *)
Lemma ingest_refused (ta tb : Z) (r : jsval) (url : string) (d : db) :
  carries_url url r -> record_fits r = false ->
  ingest ta tb r d = (Err InvalidByteSequence, d).
Proof.
  intros Hc Hfit; destruct (carries_url_object url r Hc) as (props & ->).
  destruct Hc as [Ht _].
  unfold ingest; rewrite Ht; cbn [truthy negb orb].
  unfold upsert_then_ensure, bind.
  rewrite (upsertPractice_refused ta (JObj props) d eq_refl Hfit); reflexivity.
Qed.

Lemma populate_again (url : string) (data : list (Z * Z * jsval)) :
  Forall (fun x => carries_url url (snd x)) data ->
  forallb (fun x => record_fits (snd x)) data = true ->
  forall (d : db) (p0 : practice) (l0 : lead),
    wf_db d ->
    practices_with_url url d = [p0] ->
    leads_of_practice (p_id p0) d = [l0] ->
    exists d' p,
      populate data d = (Ok tt, d')
      /\ wf_db d'
      /\ practices_with_url url d' = [p]
      /\ p_id p = p_id p0
      /\ leads d' = leads d.
Proof.
  induction 1 as [| [[ta tb] r] data Hr Hdata IH]; intros Hfits d p0 l0 W Hp0 Hl0.
  - exists d, p0.
    split; [reflexivity | split; [exact W | split; [exact Hp0 | split; reflexivity]]].
  - simpl in Hfits; apply andb_prop in Hfits as (Hfit & Hfits).
    destruct (ingest_ok ta tb r url d W Hr Hfit)
      as (d1 & p & l & E1 & W1 & Hp & Hl & Hold & _).
    destruct (Hold p0 Hp0) as (Eid & Hkeep).
    specialize (Hkeep l0 Hl0).
    assert (Hl1 : leads_of_practice (p_id p) d1 = [l0])
      by (unfold leads_of_practice in *; rewrite Hkeep, Eid; exact Hl0).
    destruct (IH Hfits d1 p l0 W1 Hp Hl1) as (d' & p' & E' & W' & Hp' & Eid' & Hleads').
    exists d', p'; simpl; unfold bind; rewrite E1.
    split; [exact E' | split; [exact W' | split; [exact Hp' | split; congruence]]].
Qed.

(** Whatever the records hold, the loop leaves a store that satisfies
    the schema; it throws when, and only when, the server refuses one. *)
Lemma populate_same_url_wf (url : string) (data : list (Z * Z * jsval)) :
  Forall (fun x => carries_url url (snd x)) data ->
  forall d : db,
    wf_db d ->
    exists d',
      populate data d
      = (if forallb (fun x => record_fits (snd x)) data
         then Ok tt else Err InvalidByteSequence, d')
      /\ wf_db d'.
Proof.
  induction 1 as [| [[ta tb] r] data Hr Hdata IH]; intros d W.
  - exists d; split; [reflexivity | exact W].
  - simpl; unfold bind.
    destruct (record_fits r) eqn:Hfit; cbn [andb].
    + destruct (ingest_ok ta tb r url d W Hr Hfit) as (d1 & p & l & E1 & W1 & _).
      rewrite E1; apply IH, W1.
    + rewrite (ingest_refused ta tb r url d Hr Hfit).
      exists d; split; [reflexivity | exact W].
Qed.

Lemma empty_db_wf : wf_db empty_db.
Proof. constructor; simpl; try constructor; intros x []. Qed.

(** C7: records that all carry one [url], ingested one after the other
    by the loop of [populate-db] into a store that satisfies the schema.
    When the server takes every record, the loop ends and leaves exactly
    one practice row with that [url] and exactly one lead for that
    practice; [ensureLead] then answers the id of that lead and writes
    nothing; and when the [url] was not in the store before, that one
    lead has the status [new].  When the server refuses a record (a text
    of it holds U+0000), [upsertPractice] throws there and the script
    stops; the store it leaves still has no second row for that [url].
    (By the convention of the embedding a text fits the width of its
    column.) *)
Theorem populate_same_url_once (url : string) (data : list (Z * Z * jsval)) (d : db) :
  wf_db d ->
  data <> [] ->
  Forall (fun x => carries_url url (snd x)) data ->
  if forallb (fun x => record_fits (snd x)) data
  then exists d' p l,
         populate data d = (Ok tt, d')
         /\ wf_db d'
         /\ practices_with_url url d' = [p]
         /\ leads_of_practice (p_id p) d' = [l]
         /\ (forall t, ensureLead t (p_id p) d' = (Ok (l_id l), d'))
         /\ (practices_with_url url d = [] -> l_status l = "new")
  else exists d',
         populate data d = (Err InvalidByteSequence, d')
         /\ wf_db d'
         /\ (List.length (practices_with_url url d') <= 1)%nat.
Proof.
  intros W Hne Hall.
  destruct (forallb (fun x => record_fits (snd x)) data) eqn:Hfits.
  - destruct data as [| [[ta tb] r] data]; [contradiction |].
    inversion Hall as [| ? ? Hr Hdata]; subst.
    simpl in Hfits; apply andb_prop in Hfits as (Hfit & Hfits).
    destruct (ingest_ok ta tb r url d W Hr Hfit)
      as (d1 & p & l & E1 & W1 & Hp & Hl & _ & Hnew).
    destruct (populate_again url data Hdata Hfits d1 p l W1 Hp Hl)
      as (d' & p' & E' & W' & Hp' & Eid & Hleads).
    assert (Hl' : leads_of_practice (p_id p') d' = [l])
      by (unfold leads_of_practice in *; rewrite Hleads, Eid; exact Hl).
    exists d', p', l; simpl; unfold bind at 1; rewrite E1.
    split; [exact E' |].
    split; [exact W' |].
    split; [exact Hp' |].
    split; [exact Hl' |].
    split.
    + intros t; unfold ensureLead, bind, gets.
      fold (leads_of_practice (p_id p') d'); rewrite Hl'; reflexivity.
    + intros Hnone; rewrite (Hnew Hnone); reflexivity.
  - destruct (populate_same_url_wf url data Hall d W) as (d' & E & W').
    rewrite Hfits in E.
    exists d'; split; [exact E |]; split; [exact W' |].
    unfold practices_with_url.
    destruct (filter_by_key String.eqb p_url url (practices d') String.eqb_spec
                            (wf_practice_url d' W')) as [-> | (p & ->)]; simpl; lia.
Qed.

End Ingestion.

(** * Small runs *)

Example parseInt_samples :
  map Str.parseInt ["42"; "  12px"; "-5"; "+7"; "abc"; ""; "0x1f"; "-"]
  = [Some 42; Some 12; Some (-5); Some 7; None; None; Some 0; None].
Proof. reflexivity. Qed.

Example trim_samples :
  map Str.trim [" new "; "lost"; "   "; "a b"] = ["new"; "lost"; ""; "a b"].
Proof. reflexivity. Qed.

(** A tab, a no-break space (C2 A0) and a line feed are trimmed. *)
Example trim_control_and_nbsp :
  Str.trim (String "009" (String "194" (String "160" ("won" ++ String "010" ""))))
  = "won".
Proof. reflexivity. Qed.

Example n8n_limit_samples :
  map n8n_limit [None; Some (QStr "50"); Some (QStr "0"); Some (QStr "-3");
                 Some (QStr "501"); Some (QStr "ten"); Some (QArr [QStr "7"; QStr "9"]);
                 Some (QObj [])]
  = [200; 50; 200; 1; 500; 200; 7; 200].
Proof. reflexivity. Qed.

Example outreach_stage_samples :
  map outreach_stage ["new"; "lost"; "archived"; ""; "toString"]
  = [JStr "cold"; JStr "negative_reply"; JStr "cold"; JStr "cold"; JFun "toString"].
Proof. reflexivity. Qed.

(** The scenario of the specification: one practice is ingested, the
    feed shows its lead as [cold]; the lead is set to [lost], the feed
    of lost leads shows it as [negative_reply] and the log has one
    [status_change]. *)
Example acme_scenario :
  let d0 := snd (@populate example_driver [(10, 11, acme)] empty_db) in
  let d1 := @patched example_driver 20 21 "1" lost_body d0 in
  map l_status (leads d0) = ["new"]
  /\ fst (respond (get_n8n_leads (Some (QStr "new")) None) d0)
     = JsonLeads [mkN8n 1 1 "new" (JStr "cold")
                        (Some (mkView 1 "Acme Arch" "x@a.example" "" "" ""))]
  /\ fst (respond (get_n8n_leads (Some (QStr "lost")) None) d1)
     = JsonLeads [mkN8n 1 1 "lost" (JStr "negative_reply")
                        (Some (mkView 1 "Acme Arch" "x@a.example" "" "" ""))]
  /\ map a_kind (status_changes 1 d1) = ["status_change"]
  /\ journal d1
     = [UpsertPractice "a.example/1"; InsertLead 1; InsertActivity 1 "status_change";
        UpdateLead 1 [ColStatus; ColUpdatedAt]].
Proof. repeat split; reflexivity. Qed.

(** A score of 50.5 passes the check of [updateLead] and is refused by
    the [INTEGER] column: the route answers with the error page, the
    notes of the same request are not stored, and the activity that was
    logged for the status stays. *)
Example fractional_score_is_refused :
  let body := JObj [("status", JStr "won"); ("notes", JStr "signed");
                    ("score", JNum (101 # 2))] in
  let r := respond (@patch_lead example_driver 20 21 "1" body) two_practices in
  fst r = ServerError
  /\ leads (snd r) = leads two_practices
  /\ map a_kind (activities (snd r)) = ["status_change"].
Proof. repeat split; reflexivity. Qed.

(** * The theorems at work on a store of two practices *)

Ltac by_rows :=
  repeat match goal with
         | |- NoDup _ => constructor
         | |- Forall _ _ => constructor
         | |- ~ In _ _ => simpl; intuition (discriminate || lia)
         | |- incl _ _ => intros ? ?; simpl in *; tauto
         | |- _ < _ => simpl; lia
         end.

Lemma two_practices_wf : wf_db two_practices.
Proof. constructor; simpl; by_rows. Defined.

Lemma patch_lost_logged :
  wf_db two_practices
  /\ In acme_lead (leads two_practices)
  /\ Str.parseInt "1" = Some (l_id acme_lead)
  /\ lf_status (patch_fields lost_body) = JStr "lost"
  /\ is_lead_status "lost" = true
  /\ exists (a : activity) (title : string) (tail : list write),
       activities (@patched example_driver 20 21 "1" lost_body two_practices)
       = activities two_practices ++ [a]
       /\ a_lead_id a = l_id acme_lead
       /\ a_kind a = "status_change"
       /\ a_title a = Some title
       /\ is_substring "lost" title
       /\ journal (@patched example_driver 20 21 "1" lost_body two_practices)
          = journal two_practices ++ InsertActivity (l_id acme_lead) "status_change" :: tail
       /\ if @update_fits example_driver (patch_fields lost_body)
          then (exists cols, tail = [UpdateLead (l_id acme_lead) cols] /\ In ColStatus cols)
               /\ option_map l_status
                             (find_lead (l_id acme_lead)
                                        (@patched example_driver 20 21 "1" lost_body
                                                  two_practices))
                  = Some "lost"
          else tail = []
               /\ leads (@patched example_driver 20 21 "1" lost_body two_practices)
                  = leads two_practices.
Proof.
  split; [exact two_practices_wf |].
  split; [left; reflexivity |].
  split; [reflexivity |].
  split; [reflexivity |].
  split; [reflexivity |].
  apply (@patch_logs_status_change_before_update example_driver 20 21 "1" lost_body
           two_practices acme_lead "lost");
    [exact two_practices_wf | left; reflexivity | reflexivity | reflexivity | reflexivity].
Defined.

Lemma patch_archived_skipped :
  wf_db two_practices
  /\ In acme_lead (leads two_practices)
  /\ Str.parseInt "1" = Some (l_id acme_lead)
  /\ includes_status (lf_status (patch_fields archived_body)) = false
  /\ activities (@patched example_driver 20 21 "1" archived_body two_practices)
     = activities two_practices
  /\ exists l' : lead,
       find_lead (l_id acme_lead)
                 (@patched example_driver 20 21 "1" archived_body two_practices) = Some l'
       /\ l_status l' = l_status acme_lead
       /\ (@update_fits example_driver (patch_fields archived_body) = false -> l' = acme_lead)
       /\ (@update_fits example_driver (patch_fields archived_body) = true ->
           (is_defined (lf_notes (patch_fields archived_body)) = true ->
            l_notes l' = @pg_text example_driver (lf_notes (patch_fields archived_body)))
           /\ (forall q, lf_score (patch_fields archived_body) = JNum q ->
                         number_in_0_100 (JNum q) = true ->
                         l_score l' = Some (Q_to_Z q))
           /\ (is_array (lf_tags (patch_fields archived_body)) = true ->
               l_tags l' = Some (lf_tags (patch_fields archived_body)))).
Proof.
  split; [exact two_practices_wf |].
  split; [left; reflexivity |].
  split; [reflexivity |].
  split; [reflexivity |].
  apply (@patch_unknown_status_is_skipped example_driver 20 21 "1" archived_body
           two_practices acme_lead);
    [exact two_practices_wf | left; reflexivity | reflexivity | reflexivity].
Defined.

Lemma full_score_is_stored :
  (find_lead 1 two_practices = Some acme_lead
   /\ lf_score full_score = JNum 100
   /\ ((100 < 0 \/ 100 < 100)%Q ->
       ~ In ColScore (map column_of (lead_updates full_score))
       /\ @keeps_score example_driver 30 1 full_score two_practices (l_score acme_lead)
       /\ (@notes_fit example_driver full_score && tags_fit full_score = true ->
           @leaves_score example_driver 30 1 full_score two_practices (l_score acme_lead)))
   /\ ((100 == 0)%Q -> @stores_score example_driver 30 1 full_score two_practices 0)
   /\ ((100 == 100)%Q -> @stores_score example_driver 30 1 full_score two_practices 100))
  /\ (find_lead 1 two_practices = Some acme_lead
      /\ lf_score nothing_valid = JNum 101
      /\ ((101 < 0 \/ 100 < 101)%Q ->
          ~ In ColScore (map column_of (lead_updates nothing_valid))
          /\ @keeps_score example_driver 30 1 nothing_valid two_practices (l_score acme_lead)
          /\ (@notes_fit example_driver nothing_valid && tags_fit nothing_valid = true ->
              @leaves_score example_driver 30 1 nothing_valid two_practices
                            (l_score acme_lead)))
      /\ ((101 == 0)%Q -> @stores_score example_driver 30 1 nothing_valid two_practices 0)
      /\ ((101 == 100)%Q ->
          @stores_score example_driver 30 1 nothing_valid two_practices 100))
  /\ (find_lead 2 two_practices = Some (new_lead 2 2 13)
      /\ lf_score zero_score = JNum 0
      /\ ((0 < 0 \/ 100 < 0)%Q ->
          ~ In ColScore (map column_of (lead_updates zero_score))
          /\ @keeps_score example_driver 30 2 zero_score two_practices
                          (l_score (new_lead 2 2 13))
          /\ (@notes_fit example_driver zero_score && tags_fit zero_score = true ->
              @leaves_score example_driver 30 2 zero_score two_practices
                            (l_score (new_lead 2 2 13))))
      /\ ((0 == 0)%Q -> @stores_score example_driver 30 2 zero_score two_practices 0)
      /\ ((0 == 100)%Q -> @stores_score example_driver 30 2 zero_score two_practices 100)).
Proof.
  split; [| split].
  - split; [reflexivity |].
    split; [reflexivity |].
    apply (@updateLead_score_bounds example_driver 30 1 full_score two_practices acme_lead
             100); reflexivity.
  - split; [reflexivity |].
    split; [reflexivity |].
    apply (@updateLead_score_bounds example_driver 30 1 nothing_valid two_practices
             acme_lead 101); reflexivity.
  - split; [reflexivity |].
    split; [reflexivity |].
    apply (@updateLead_score_bounds example_driver 30 2 zero_score two_practices
             (new_lead 2 2 13) 0); reflexivity.
Defined.

Lemma feed_of_new_leads :
  wf_db two_practices
  /\ match fst (respond (get_n8n_leads (Some (QStr "new")) None) two_practices) with
     | JsonLeads items =>
         query_text_served (Some (QStr "new")) = true /\ only_with_email two_practices items
     | ServerError => query_text_served (Some (QStr "new")) = false
     | JsonLead _ _ _ _ _ _ | NotFound => False
     end.
Proof.
  split; [exact two_practices_wf |].
  apply (feed_requires_email (Some (QStr "new")) None two_practices two_practices_wf).
Defined.

Lemma acme_thrice_is_one_practice :
  wf_db empty_db
  /\ acme_thrice <> []
  /\ Forall (fun x => @carries_url "a.example/1" example_driver (snd x)) acme_thrice
  /\ if forallb (fun x => @record_fits example_driver (snd x)) acme_thrice
     then exists d' p l,
            @populate example_driver acme_thrice empty_db = (Ok tt, d')
            /\ wf_db d'
            /\ practices_with_url "a.example/1" d' = [p]
            /\ leads_of_practice (p_id p) d' = [l]
            /\ (forall t, ensureLead t (p_id p) d' = (Ok (l_id l), d'))
            /\ (practices_with_url "a.example/1" empty_db = [] -> l_status l = "new")
     else exists d',
            @populate example_driver acme_thrice empty_db = (Err InvalidByteSequence, d')
            /\ wf_db d'
            /\ (List.length (practices_with_url "a.example/1" d') <= 1)%nat.
Proof.
  assert (Hall : Forall (fun x => @carries_url "a.example/1" example_driver (snd x))
                        acme_thrice)
    by (repeat constructor).
  split; [exact empty_db_wf |].
  split; [discriminate |].
  split; [exact Hall |].
  apply (@populate_same_url_once example_driver "a.example/1" acme_thrice empty_db
           empty_db_wf);
    [discriminate | exact Hall].
Defined.

Lemma feed_of_two_practices_ascending :
  0 <= 200
  /\ wf_db two_practices
  /\ status_fits (Some "new") = true
  /\ exists items : list n8n_lead,
       listLeadsForN8n 200 (Some "new") false two_practices = (Ok items, two_practices)
       /\ StronglySorted Z.lt (map lead_id items)
       /\ (forall it, In it items ->
                      exists row, In row (joined two_practices)
                                  /\ n8n_where (Some "new") false row = true
                                  /\ it = n8n_of_row row)
       /\ Z.of_nat (List.length items)
          = Z.min 200 (Z.of_nat (List.length (filter (n8n_where (Some "new") false)
                                                     (joined two_practices))))
       /\ (forall row, In row (joined two_practices) ->
                       n8n_where (Some "new") false row = true ->
                       ~ In (lead_id (n8n_of_row row)) (map lead_id items) ->
                       forall it, In it items -> lead_id it < lead_id (n8n_of_row row))
       /\ forall d' : db,
            Permutation (leads two_practices) (leads d') ->
            Permutation (practices two_practices) (practices d') ->
            listLeadsForN8n 200 (Some "new") false d' = (Ok items, d').
Proof.
  split; [lia |].
  split; [exact two_practices_wf |].
  split; [reflexivity |].
  apply (listLeadsForN8n_ascending 200 (Some "new") false two_practices);
    [lia | exact two_practices_wf | reflexivity].
Defined.

Lemma nothing_valid_writes_nothing :
  includes_status (lf_status nothing_valid) = false
  /\ lf_notes nothing_valid = JUndefined
  /\ number_in_0_100 (lf_score nothing_valid) = false
  /\ is_array (lf_tags nothing_valid) = false
  /\ @updateLead example_driver 30 1 nothing_valid two_practices
     = getLeadById 1 two_practices
  /\ snd (@updateLead example_driver 30 1 nothing_valid two_practices) = two_practices.
Proof.
  split; [reflexivity |].
  split; [reflexivity |].
  split; [reflexivity |].
  split; [reflexivity |].
  apply (@updateLead_nothing_to_apply example_driver 30 1 nothing_valid two_practices);
    reflexivity.
Defined.

Lemma patch_new_twice :
  wf_db two_practices
  /\ In acme_lead (leads two_practices)
  /\ Str.parseInt "1" = Some (l_id acme_lead)
  /\ lf_status (patch_fields new_body) = JStr (l_status acme_lead)
  /\ is_lead_status (l_status acme_lead) = true
  /\ List.length
       (status_changes (l_id acme_lead)
                       (@patch_repeatedly example_driver [(20, 21); (22, 23)] "1" new_body
                                          two_practices))
     = (List.length (status_changes (l_id acme_lead) two_practices) + 2)%nat.
Proof.
  split; [exact two_practices_wf |].
  split; [left; reflexivity |].
  split; [reflexivity |].
  split; [reflexivity |].
  split; [reflexivity |].
  apply (@patch_same_status_logs_every_time example_driver [(20, 21); (22, 23)] "1" new_body
           two_practices acme_lead);
    [exact two_practices_wf | left; reflexivity | reflexivity | reflexivity | reflexivity].
Defined.

(** * The queries of the dashboard *)

Section Pagination.

Context `{PgDriver} `{PgServer}.

Lemma page_count_bounds (total : Z) (perPage : positive) :
  0 <= total ->
  1 <= page_count total perPage
  /\ total <= page_count total perPage * Zpos perPage
  /\ (0 < total -> (page_count total perPage - 1) * Zpos perPage < total).
Proof.
  intros Ht; unfold page_count.
  set (pp := Zpos perPage); assert (Hpp : 0 < pp) by (subst pp; lia).
  pose proof (Z.mul_div_le (total + pp - 1) pp Hpp) as Hlo.
  pose proof (Z.mul_succ_div_gt (total + pp - 1) pp Hpp) as Hhi.
  set (c := (total + pp - 1) / pp) in *.
  repeat split; [lia | nia | intros Hpos; nia].
Qed.

Lemma page_number_range (total page : Z) (perPage : positive) :
  0 <= total ->
  1 <= page_number total page perPage <= page_count total perPage.
Proof.
  intros Ht; destruct (page_count_bounds total perPage Ht) as (H1 & _).
  unfold page_number; lia.
Qed.

Lemma page_number_clamps (total page : Z) (perPage : positive) :
  0 <= total ->
  (1 <= page <= page_count total perPage -> page_number total page perPage = page)
  /\ (page_count total perPage < page ->
      page_number total page perPage = page_count total perPage)
  /\ (page < 1 -> page_number total page perPage = 1).
Proof.
  intros Ht; destruct (page_count_bounds total perPage Ht) as (H1 & _).
  unfold page_number; repeat split; lia.
Qed.

Lemma page_offset_bounds (total page : Z) (perPage : positive) :
  0 <= total ->
  0 <= page_offset total page perPage <= total
  /\ (0 < total -> page_offset total page perPage < total)
  /\ (page_number total page perPage < page_count total perPage ->
      page_offset total page perPage + Zpos perPage <= total).
Proof.
  intros Ht.
  destruct (page_count_bounds total perPage Ht) as (H1 & H2 & H3).
  pose proof (page_number_range total page perPage Ht) as Hn.
  assert (Hz : total = 0 -> page_count total perPage = 1).
  { intros ->; unfold page_count; rewrite Z.div_small; lia. }
  unfold page_offset.
  set (n := page_number total page perPage) in *.
  set (c := page_count total perPage) in *.
  set (pp := Zpos perPage) in *; assert (Hpp : 0 < pp) by (subst pp; lia).
  repeat split; [nia | | intros Hpos; specialize (H3 Hpos); nia |].
  { destruct (Z.eq_dec total 0) as [E | E]; [specialize (Hz E); nia |].
    assert (Hpos : 0 < total) by lia.
    specialize (H3 Hpos); nia. }
  intros Hlt.
  assert (Hpos : 0 < total) by lia.
  specialize (H3 Hpos).
  assert (n * pp <= (c - 1) * pp) by nia.
  lia.
Qed.

(** The rows of a page: never more than [perPage]; some, when there is
    any row at all; [perPage] of them on every page that has a next one;
    and all of them rows of the query, within its count. *)
Lemma page_rows_window {A} (page : Z) (perPage : positive) (rows : list A) :
  let total := Z.of_nat (List.length rows) in
  (List.length (page_rows total page perPage rows) <= Pos.to_nat perPage)%nat
  /\ (rows <> [] -> page_rows total page perPage rows <> [])
  /\ (page_number total page perPage < page_count total perPage ->
      List.length (page_rows total page perPage rows) = Pos.to_nat perPage)
  /\ page_offset total page perPage
     + Z.of_nat (List.length (page_rows total page perPage rows)) <= total
  /\ (forall x, In x (page_rows total page perPage rows) -> In x rows).
Proof.
  intros total.
  assert (Ht : 0 <= total) by (subst total; lia).
  destruct (page_offset_bounds total page perPage Ht) as (Ho & Hin & Hfull).
  assert (Hlen : List.length (page_rows total page perPage rows)
                 = Nat.min (Pos.to_nat perPage)
                           (List.length rows - Z.to_nat (page_offset total page perPage))).
  { unfold page_rows; rewrite length_firstn, length_skipn; reflexivity. }
  repeat split.
  - rewrite Hlen; lia.
  - intros Hne E.
    assert (Hpos : 0 < total).
    { subst total; destruct rows; [contradiction | simpl; lia]. }
    specialize (Hin Hpos).
    apply (f_equal (@List.length A)) in E; rewrite Hlen in E; simpl in E.
    subst total; lia.
  - intros Hlt; specialize (Hfull Hlt); rewrite Hlen; subst total; lia.
  - rewrite Hlen; subst total; lia.
  - intros x Hx; unfold page_rows in Hx.
    assert (Hs : In x (skipn (Z.to_nat (page_offset total page perPage)) rows)).
    { rewrite <- (firstn_skipn (Pos.to_nat perPage)); apply in_or_app; left; exact Hx. }
    rewrite <- (firstn_skipn (Z.to_nat (page_offset total page perPage)) rows).
    apply in_or_app; right; exact Hs.
Qed.

Lemma insert_by_name_perm {A} (name : A -> string) (r : A) (rows : list A) :
  Permutation (insert_by_name name r rows) (r :: rows).
Proof.
  induction rows as [| x rows IH]; simpl; [reflexivity |].
  destruct (name_leb (name r) (name x)); [reflexivity |].
  rewrite IH; apply perm_swap.
Qed.

Lemma order_by_name_perm {A} (name : A -> string) (rows : list A) :
  Permutation (order_by_name name rows) rows.
Proof.
  induction rows as [| r rows IH]; simpl; [constructor |].
  rewrite insert_by_name_perm; constructor; exact IH.
Qed.



(** [listPractices] as one page of its rows; every row is a practice of
    the store that passes the [WHERE] clause. *)
Lemma listPractices_rows (a : practice_query) (d : db) :
  query_fits a = true ->
  listPractices a d
  = (Ok (page_object (Z.of_nat (List.length (practice_rows a d))) (pq_page a) (pq_perPage a)
                     (page_rows (Z.of_nat (List.length (practice_rows a d)))
                                (pq_page a) (pq_perPage a) (practice_rows a d)),
         Zpos (pq_perPage a)), d)
  /\ List.length (practice_rows a d)
     = List.length (filter (practices_where a) (practices d))
  /\ forall p, In p (practice_rows a d) -> In p (practices d) /\ practices_where a p = true.
Proof.
  intros Hfit.
  assert (P : Permutation (practice_rows a d) (filter (practices_where a) (practices d)))
    by apply order_by_name_perm.
  split; [| split].
  - unfold listPractices, bind, guard, gets, ret; rewrite Hfit; fold (practice_rows a d).
    rewrite <- (Permutation_length P); reflexivity.
  - apply Permutation_length, P.
  - intros p Hp; apply (Permutation_in _ P) in Hp.
    apply filter_In in Hp; exact Hp.
Qed.

(** A refused text: neither statement runs. *)
Lemma listPractices_refused (a : practice_query) (d : db) :
  query_fits a = false -> listPractices a d = (Err InvalidByteSequence, d).
Proof. intros Hfit; unfold listPractices, bind, guard; rewrite Hfit; reflexivity. Qed.

(** X2: [listPractices] writes nothing.  When none of [q], [source] and
    [staff] holds U+0000 it returns: every practice of its page
    satisfies the conditions for [q], [source] and [staff]; the page
    number is within 1..[pages]; the page holds [perPage] practices at
    most, is not empty when some practice matches, and is full whenever a
    page follows; [total] is the number of practices that match.  When
    one of the three holds U+0000 the server refuses the parameter and
    [listPractices] throws. *)
Theorem listPractices_page (a : practice_query) (d : db) :
  if query_fits a
  then exists pg : pagination practice,
         listPractices a d = (Ok (pg, Zpos (pq_perPage a)), d)
         /\ pg_total pg = Z.of_nat (List.length (filter (practices_where a) (practices d)))
         /\ 1 <= pg_page pg <= pg_pages pg
         /\ (1 <= pq_page a <= pg_pages pg -> pg_page pg = pq_page a)
         /\ (List.length (pg_items pg) <= Pos.to_nat (pq_perPage a))%nat
         /\ (forall p, In p (pg_items pg) ->
                       In p (practices d) /\ practices_where a p = true)
         /\ (0 < pg_total pg -> pg_items pg <> [])
         /\ (pg_has_next pg = true ->
             List.length (pg_items pg) = Pos.to_nat (pq_perPage a))
  else listPractices a d = (Err InvalidByteSequence, d).
Proof.
  destruct (query_fits a) eqn:Hfit; [| apply listPractices_refused, Hfit].
  destruct (listPractices_rows a d Hfit) as (E & Elen & Hrows).
  pose proof (page_rows_window (pq_page a) (pq_perPage a) (practice_rows a d)) as W;
    cbv zeta in W.
  set (rows := practice_rows a d) in *.
  set (total := Z.of_nat (List.length rows)) in *.
  assert (Ht : 0 <= total) by (subst total; lia).
  destruct W as (W1 & W2 & W3 & _ & W5).
  destruct (page_number_clamps total (pq_page a) (pq_perPage a) Ht) as (C1 & _).
  eexists; split; [exact E |]; unfold page_object;
    cbn [pg_page pg_pages pg_items pg_total pg_has_next].
  split; [subst total; rewrite Elen; reflexivity |].
  split; [apply page_number_range, Ht |].
  split; [exact C1 |].
  split; [exact W1 |].
  split; [intros p Hin; apply Hrows, W5, Hin |].
  split.
  { intros Hpos; apply W2.
    intros Enil; subst total; rewrite Enil in Hpos; simpl in Hpos; lia. }
  intros Hnext; apply W3, Z.ltb_lt, Hnext.
Qed.





Lemma page_param_positive (q : option qval) : 1 <= page_param q.
Proof. unfold page_param; lia. Qed.


End Pagination.

Section DashboardQueries.

Context `{PgDriver} `{PgServer}.

Lemma insert_by_created_perm (a : activity) (rows : list activity) :
  Permutation (insert_by_created_desc a rows) (a :: rows).
Proof.
  induction rows as [| x rows IH]; simpl; [reflexivity |].
  destruct (a_created_at x <=? a_created_at a); [reflexivity |].
  rewrite IH; apply perm_swap.
Qed.

Lemma order_by_created_perm (rows : list activity) :
  Permutation (order_by_created_desc rows) rows.
Proof.
  induction rows as [| a rows IH]; simpl; [constructor |].
  rewrite insert_by_created_perm; constructor; exact IH.
Qed.

Lemma insert_by_created_sorted (a : activity) (rows : list activity) :
  StronglySorted newer_first rows ->
  StronglySorted newer_first (insert_by_created_desc a rows).
Proof.
  induction 1 as [| x rows Hs IH Hx]; simpl.
  - repeat constructor.
  - destruct (Z.leb_spec (a_created_at x) (a_created_at a)) as [Hle | Hgt].
    + constructor; [constructor; assumption |].
      constructor; [exact Hle |].
      eapply Forall_impl; [| exact Hx].
      unfold newer_first in *; intros; lia.
    + constructor; [exact IH |].
      eapply Permutation_Forall; [symmetry; apply insert_by_created_perm |].
      constructor; [unfold newer_first; lia | exact Hx].
Qed.

Lemma order_by_created_sorted (rows : list activity) :
  StronglySorted newer_first (order_by_created_desc rows).
Proof.
  induction rows as [| a rows IH]; simpl; [constructor |].
  apply insert_by_created_sorted, IH.
Qed.

(** X3: [listActivities] refuses a negative limit and otherwise returns,
    without writing, the newest activities of the lead, newest first:
    [limit] of them at most, each an activity of that lead, none older
    than an activity of the lead that it leaves out, and all of them when
    the lead has no more than [limit]. *)
Theorem listActivities_newest (leadId limit : Z) (d : db) :
  snd (listActivities leadId limit d) = d
  /\ match fst (listActivities leadId limit d) with
     | Ok items =>
         0 <= limit
         /\ Z.of_nat (List.length items) <= limit
         /\ StronglySorted newer_first items
         /\ exists rest,
              Permutation (items ++ rest)
                          (filter (fun a => a_lead_id a =? leadId) (activities d))
              /\ (forall a b, In a items -> In b rest -> a_created_at b <= a_created_at a)
              /\ (Z.of_nat (List.length
                              (filter (fun a => a_lead_id a =? leadId) (activities d)))
                  <= limit -> rest = [])
     | Err e => e = NegativeLimit /\ limit < 0
     end.
Proof.
  unfold listActivities, bind, guard, gets.
  destruct (Z.leb_spec 0 limit) as [Hl | Hl]; cbn [fst snd ret throw];
    [| split; [reflexivity | split; [reflexivity | exact Hl]]].
  set (own := filter (fun a => a_lead_id a =? leadId) (activities d)).
  set (sorted := order_by_created_desc own).
  pose proof (order_by_created_sorted own) as Hs; fold sorted in Hs.
  pose proof (order_by_created_perm own) as Hp; fold sorted in Hp.
  split; [reflexivity |].
  split; [exact Hl |].
  split; [rewrite length_firstn; lia |].
  split; [apply OrderBy.sorted_firstn, Hs |].
  exists (skipn (Z.to_nat limit) sorted).
  split; [rewrite firstn_skipn; exact Hp |].
  split.
  - apply (OrderBy.sorted_app_cross newer_first); rewrite firstn_skipn; exact Hs.
  - intros Hall.
    apply length_zero_iff_nil; rewrite length_skipn.
    rewrite (Permutation_length Hp); lia.
Qed.

(** ** The counts of the funnel *)

Lemma own_count_set_own (s k : string) (v : Z) (o : list (string * Z)) :
  own_count s (set_own k v o) = if String.eqb s k then Some v else own_count s o.
Proof.
  induction o as [| [k' v'] o IH]; simpl.
  - destruct (String.eqb s k); reflexivity.
  - destruct (String.eqb_spec k k') as [<- | Hk]; simpl.
    + destruct (String.eqb s k); reflexivity.
    + rewrite IH.
      destruct (String.eqb_spec s k) as [-> | Hs]; [| reflexivity].
      destruct (String.eqb_spec k k'); [contradiction | reflexivity].
Qed.

Lemma own_count_assigned (f : string -> Z) (s : string) (keys : list string) :
  forall o,
    own_count s (fold_left assign_count (map (fun k => (k, f k)) keys) o)
    = if String.eqb s "__proto__" then own_count s o
      else if existsb (String.eqb s) keys then Some (f s) else own_count s o.
Proof.
  induction keys as [| k keys IH]; intros o; simpl.
  - destruct (String.eqb s "__proto__"); reflexivity.
  - rewrite IH; unfold assign_count; cbn [fst snd].
    destruct (String.eqb_spec s "__proto__") as [-> | Hs].
    + destruct (String.eqb_spec k "__proto__") as [-> | Hk]; [reflexivity |].
      rewrite own_count_set_own.
      destruct (String.eqb_spec "__proto__" k) as [E | _]; [| reflexivity].
      exfalso; apply Hk; symmetry; exact E.
    + destruct (existsb (String.eqb s) keys) eqn:Ex.
      * rewrite orb_true_r; reflexivity.
      * rewrite orb_false_r.
        destruct (String.eqb_spec k "__proto__") as [-> | Hk].
        -- destruct (String.eqb_spec s "__proto__"); [contradiction | reflexivity].
        -- rewrite own_count_set_own.
           destruct (String.eqb_spec s k) as [-> | _]; reflexivity.
Qed.

Lemma counted_statuses (s : string) (ls : list lead) :
  existsb (String.eqb s) (nodup string_dec (map l_status ls)) = negb (count_status s ls =? 0).
Proof.
  unfold count_status.
  destruct (existsb _ _) eqn:Ex.
  - apply existsb_exists in Ex as (k & Hk & E); apply String.eqb_eq in E; subst k.
    apply nodup_In, in_map_iff in Hk as (l & El & Hl).
    assert (Hf : In l (filter (fun l => String.eqb (l_status l) s) ls))
      by (apply filter_In; split; [exact Hl | apply String.eqb_eq, El]).
    destruct (filter _ ls); [destruct Hf | reflexivity].
  - destruct (filter (fun l => String.eqb (l_status l) s) ls) as [| l rest] eqn:F;
      [reflexivity |].
    assert (Hf : In l (filter (fun l => String.eqb (l_status l) s) ls))
      by (rewrite F; left; reflexivity).
    apply filter_In in Hf as (Hl & El); apply String.eqb_eq in El.
    assert (Hin : existsb (String.eqb s) (nodup string_dec (map l_status ls)) = true).
    { apply existsb_exists; exists s; split; [| apply String.eqb_refl].
      apply nodup_In, in_map_iff; exists l; auto. }
    rewrite Hin in Ex; discriminate.
Qed.

Lemma own_count_initial (s : string) :
  own_count s (map (fun k => (k, 0)) LEAD_STATUSES)
  = if is_lead_status s then Some 0 else None.
Proof.
  unfold is_lead_status, LEAD_STATUSES; simpl.
  repeat (destruct (String.eqb s _); [reflexivity |]); reflexivity.
Qed.

Lemma getLeadCountByStatus_enum (d : db) (s : string) :
  is_lead_status s = true ->
  own_count s (fold_left assign_count (group_by_status (leads d))
                         (map (fun s => (s, 0)) LEAD_STATUSES))
  = Some (count_status s (leads d)).
Proof.
  intros Hs; unfold group_by_status.
  rewrite (own_count_assigned (fun k => count_status k (leads d))).
  assert (Hp : String.eqb s "__proto__" = false).
  { destruct (String.eqb_spec s "__proto__") as [-> | _]; [discriminate Hs | reflexivity]. }
  rewrite Hp, counted_statuses, own_count_initial, Hs.
  destruct (Z.eqb_spec (count_status s (leads d)) 0) as [E | _]; simpl;
    [rewrite E |]; reflexivity.
Qed.

(** X4: the object that [getLeadCountByStatus] returns has, under each
    of the seven statuses, the number of leads with that status (0 when
    there is none), and under any other status that some lead has, the
    number of leads with it; a status that no lead has and that is not
    among the seven is no key of the object. *)
Theorem getLeadCountByStatus_counts (d : db) :
  exists counts : list (string * Z),
    getLeadCountByStatus d = (Ok counts, d)
    /\ (forall s, is_lead_status s = true ->
                  own_count s counts = Some (count_status s (leads d)))
    /\ (forall s, is_lead_status s = false -> s <> "__proto__" ->
                  own_count s counts
                  = if count_status s (leads d) =? 0 then None
                    else Some (count_status s (leads d))).
Proof.
  eexists; split; [reflexivity |].
  split; intros s Hs.
  - apply getLeadCountByStatus_enum, Hs.
  - intros Hne; unfold group_by_status.
    rewrite (own_count_assigned (fun k => count_status k (leads d))).
    destruct (String.eqb_spec s "__proto__") as [E | _]; [contradiction |].
    rewrite counted_statuses, own_count_initial, Hs.
    destruct (count_status s (leads d) =? 0); reflexivity.
Qed.


End DashboardQueries.

(** * What every request keeps true *)

Section Soundness.

Context `{PgDriver}.

Lemma truthy_text (v : jsval) : truthy v = true -> exists s, pg_text v = Some s.
Proof. destruct v; simpl; intros E; try discriminate E; eauto. Qed.

Lemma integer_in_range (q : Q) :
  number_in_0_100 (JNum q) = true -> Q_is_integer q = true -> 0 <= Q_to_Z q <= 100.
Proof.
  unfold number_in_0_100, Q_is_integer, Q_to_Z.
  intros Hr Hi; apply andb_prop in Hr as (H0 & H100).
  apply Qle_bool_iff in H0, H100; unfold Qle in H0, H100; simpl in H0, H100.
  apply Z.eqb_eq in Hi.
  assert (E : Qnum q = Zpos (Qden q) * (Qnum q / Zpos (Qden q))).
  { apply Z_div_exact_full_2; [lia | exact Hi]. }
  set (k := Qnum q / Zpos (Qden q)) in *.
  assert (Hden : 0 < Zpos (Qden q)) by lia.
  split; nia.
Qed.

Lemma applied_ok (now : Z) (f : lead_fields) (l : lead) :
  score_fits (lf_score f) = true -> lead_ok l -> lead_ok (applied now f l).
Proof.
  intros Hfit (Hst & n & Hn & Hrange); unfold lead_ok, applied; cbn [l_status l_score].
  split.
  - destruct (status_accepted (lf_status f)) eqn:E; [| exact Hst].
    destruct (status_accepted_inv _ E) as (s & -> & Hs); exact Hs.
  - unfold score_fits in Hfit.
    destruct (lf_score f) as [| | | q | | | | |]; eauto.
    destruct (number_in_0_100 (JNum q)) eqn:Hin; eauto.
    exists (Q_to_Z q); split; [reflexivity | apply integer_in_range; assumption].
Qed.

Lemma updated_sound (now leadId : Z) (f : lead_fields) (d : db) :
  score_fits (lf_score f) = true -> sound d -> sound (updated now leadId f d).
Proof.
  intros Hfit [W S L]; constructor.
  - apply updated_wf, W.
  - unfold in_sync; rewrite updated_leads, map_l_practice_id_updated; exact S.
  - rewrite updated_leads.
    apply (proj1 (Forall_map_iff lead_ok
                   (fun l => if l_id l =? leadId then applied now f l else l) (leads d))).
    eapply Forall_impl; [| exact L]; cbv beta; intros l Hl.
    destruct (l_id l =? leadId); [apply applied_ok; assumption | exact Hl].
Qed.

Lemma logged_sound (now leadId : Z) (f : activity_fields) (k : string) (d : db) :
  In leadId (map l_id (leads d)) -> sound d -> sound (logged now leadId f k d).
Proof.
  intros Hin [W S L]; constructor; [apply logged_wf; assumption | exact S | exact L].
Qed.

(** A request for an id finds a lead of the store or leaves it alone. *)
Lemma getLeadById_some (leadId : Z) (d : db) (lo : lead_obj) :
  fst (getLeadById leadId d) = Ok (Some lo) ->
  exists l, In l (leads d) /\ l_id l = leadId.
Proof.
  unfold getLeadById, gets; cbn [fst].
  destruct (filter _ (joined d)) as [| [l p] rows] eqn:F; [discriminate |].
  intros _.
  assert (Hin : In (l, p) (filter (fun r => l_id (fst r) =? leadId) (joined d)))
    by (rewrite F; left; reflexivity).
  apply filter_In in Hin as (Hj & E); apply joined_elim in Hj as (Hl & _).
  exists l; split; [exact Hl | apply Z.eqb_eq, E].
Qed.

Lemma patched_lookup (t1 t2 : Z) (id : string) (body : jsval) (d : db) :
  patched t1 t2 id body d = d
  \/ exists l, In l (leads d) /\ Str.parseInt id = Some (l_id l).
Proof.
  destruct (Str.parseInt id) as [n |] eqn:Eid.
  - destruct (getLeadById n d) as [r d0] eqn:Eget.
    assert (Ed : d0 = d) by (unfold getLeadById, gets in Eget; congruence).
    subst d0.
    destruct r as [[lo |] | e].
    + right.
      destruct (getLeadById_some n d lo) as (l & Hl & E); [rewrite Eget; reflexivity |].
      exists l; rewrite E; auto.
    + left; unfold patched, patch_lead, respond, bind; rewrite Eid; cbn [int_param ret].
      rewrite Eget; reflexivity.
    + unfold getLeadById, gets in Eget; discriminate Eget.
  - left; unfold patched, patch_lead, respond, bind; rewrite Eid; reflexivity.
Qed.

Lemma patched_sound (t1 t2 : Z) (id : string) (body : jsval) (d : db) :
  sound d -> sound (patched t1 t2 id body d).
Proof.
  intros S; pose proof (sound_schema d S) as W.
  destruct (patched_lookup t1 t2 id body d) as [-> | (l & Hl & Eid)]; [exact S |].
  pose proof (in_map l_id _ _ Hl) as Hin.
  destruct (status_accepted (lf_status (patch_fields body))) eqn:Hacc.
  - rewrite (patched_accepted t1 t2 id body d l W Hl Eid Hacc).
    destruct (update_fits (patch_fields body)) eqn:Hfit.
    + apply updated_sound; [apply update_fits_score, Hfit | apply logged_sound; assumption].
    + apply logged_sound; assumption.
  - rewrite (patched_ignored t1 t2 id body d l W Hl Eid Hacc).
    destruct (lead_updates (patch_fields body)); [exact S |].
    destruct (update_fits (patch_fields body)) eqn:Hfit; [| exact S].
    apply updated_sound; [apply update_fits_score, Hfit | exact S].
Qed.

Lemma new_lead_ok (id practiceId now : Z) : lead_ok (new_lead id practiceId now).
Proof. split; [reflexivity | exists 0; split; [reflexivity | lia]]. Qed.

Lemma ensureLead_grows (now pid : Z) (d : db) :
  wf_db d -> In pid (map p_id (practices d)) ->
  exists lid d2,
    ensureLead now pid d = (Ok lid, d2)
    /\ wf_db d2
    /\ practices d2 = practices d
    /\ (leads d2 = leads d \/ leads d2 = leads d ++ [new_lead lid pid now])
    /\ In pid (map l_practice_id (leads d2)).
Proof.
  intros W Hp.
  destruct (ensureLead_ok now pid d W Hp)
    as (lid & d2 & E & W2 & Hprac & (l & Hl & _) & Hkeep & Hcreate).
  exists lid, d2; repeat (split; [assumption |]); split.
  - destruct (OrderBy.filter_by_key Z.eqb l_practice_id pid (leads d) Z.eqb_spec
                                    (wf_lead_practice d W)) as [F | (l0 & F)];
      fold (leads_of_practice pid d) in F.
    + right; apply Hcreate, F.
    + left; rewrite (Hkeep l0 F); reflexivity.
  - assert (Hin : In l (leads_of_practice pid d2)) by (rewrite Hl; left; reflexivity).
    apply filter_In in Hin as (Hin & Eq); apply Z.eqb_eq in Eq.
    rewrite <- Eq; apply in_map, Hin.
Qed.

Lemma ensureLead_sound (now pid : Z) (d : db) :
  sound d -> In pid (map p_id (practices d)) -> sound (snd (ensureLead now pid d)).
Proof.
  intros [W S L] Hp.
  destruct (ensureLead_grows now pid d W Hp) as (lid & d2 & E & W2 & Hprac & Hleads & _).
  rewrite E; cbn [snd]; constructor; [exact W2 | |].
  - unfold in_sync; rewrite Hprac.
    destruct Hleads as [-> | ->]; [exact S | rewrite map_app; apply incl_appl, S].
  - destruct Hleads as [-> | ->]; [exact L |].
    apply Forall_app; split; [exact L | repeat constructor; apply new_lead_ok].
Qed.

Lemma upsertPractice_ids (now : Z) (r : jsval) (url : string) (d : db) :
  wf_db d -> carries_url url r -> record_fits r = true ->
  exists pid d1,
    upsertPractice now r d = (Ok pid, d1)
    /\ incl (map p_id (practices d1)) (pid :: map p_id (practices d)).
Proof.
  intros W Hc Hfit; destruct (carries_url_object url r Hc) as (props & ->).
  destruct Hc as [_ Eurl].
  destruct (name_is_text (js_get (JObj props) "name")) as (name & Ename).
  unfold upsertPractice; unfold bind at 1; unfold guard at 1; rewrite Hfit.
  cbn [ret]; unfold bind at 1; unfold next_practice_id.
  rewrite Eurl, Ename.
  unfold bind at 1; unfold gets at 1; cbn [practices].
  destruct (filter (fun p => String.eqb (p_url p) url) (practices d)) as [| old rest].
  - unfold bind, gets, guard, modify, ret; cbn [practices].
    rewrite (existsb_none p_id _ _ (fresh_practice_id d W)); cbn [negb].
    eexists; eexists; split; [reflexivity |].
    unfold log, with_practices; cbn [practices]; rewrite map_app.
    intros k Hk; apply in_app_or in Hk as [Hk | [<- | []]]; [right; exact Hk | left].
    reflexivity.
  - unfold bind, modify, ret.
    eexists; eexists; split; [reflexivity |].
    unfold log, with_practices; cbn [practices]; rewrite map_map.
    intros k Hk; right.
    apply in_map_iff in Hk as (p & <- & Hp).
    destruct (String.eqb (p_url p) url); exact (in_map p_id _ p Hp).
Qed.

(** Whatever the record, the body of the loop of [populate-db] keeps
    the store sound; it returns when it skips the record or the server
    takes it, and throws, writing nothing, when the server refuses it. *)
Lemma ingest_sound (ta tb : Z) (r : jsval) (d : db) :
  sound d ->
  fst (ingest ta tb r d) = (if record_taken r then Ok tt else Err InvalidByteSequence)
  /\ sound (snd (ingest ta tb r d)).
Proof.
  intros S; pose proof S as [W Sy L].
  unfold ingest, record_taken.
  destruct (negb (truthy r) || negb (truthy (js_get r "url"))) eqn:Eskip;
    [split; [reflexivity | exact S] |].
  apply orb_false_elim in Eskip as (Hr & Hurl).
  apply negb_false_iff in Hr, Hurl.
  destruct (truthy_text _ Hurl) as (url & Eurl).
  assert (Hc : carries_url url r) by (split; assumption).
  cbn [orb].
  destruct (record_fits r) eqn:Hfit;
    [| unfold upsert_then_ensure, bind;
       rewrite (upsertPractice_refused ta r d Hr Hfit); split; [reflexivity | exact S]].
  destruct (upsertPractice_ok ta r url d W Hc Hfit)
    as (pid & d1 & Eup & W1 & Hleads & (p & Hp & Epid) & _).
  destruct (upsertPractice_ids ta r url d W Hc Hfit) as (pid' & d1' & Eup' & Hids).
  rewrite Eup in Eup'; injection Eup' as <- <-.
  assert (Hin : In pid (map p_id (practices d1))).
  { rewrite <- Epid; apply in_map.
    assert (Hf : In p (practices_with_url url d1)) by (rewrite Hp; left; reflexivity).
    apply filter_In in Hf; apply Hf. }
  destruct (ensureLead_grows tb pid d1 W1 Hin)
    as (lid & d2 & Een & W2 & Hprac & Hgrow & Hlead).
  unfold upsert_then_ensure, bind; rewrite Eup, Een; cbn [fst snd ret].
  split; [reflexivity |].
  assert (Hsub : incl (leads d) (leads d2)).
  { destruct Hgrow as [-> | ->]; rewrite Hleads; [apply incl_refl | apply incl_appl, incl_refl]. }
  constructor; [exact W2 | |].
  - unfold in_sync; rewrite Hprac; intros k Hk.
    apply Hids in Hk as [<- | Hk]; [exact Hlead |].
    apply (incl_map l_practice_id Hsub), Sy, Hk.
  - destruct Hgrow as [-> | ->]; rewrite Hleads; [exact L |].
    apply Forall_app; split; [exact L | repeat constructor; apply new_lead_ok].
Qed.

Lemma post_activity_store (now : Z) (id : string) (body : jsval) (d : db) :
  wf_db d ->
  snd (render (post_activity now id body) d) = d
  \/ exists leadId f k,
       In leadId (map l_id (leads d))
       /\ snd (render (post_activity now id body) d) = logged now leadId f k d.
Proof.
  intros W; unfold post_activity, render, bind.
  destruct (Str.parseInt id) as [n |]; [| left; reflexivity].
  cbn [int_param ret].
  destruct (getLeadById n d) as [r d0] eqn:Eget.
  assert (Ed : d0 = d) by (unfold getLeadById, gets in Eget; congruence).
  subst d0.
  destruct r as [[lo |] | e]; [| left; reflexivity | left; reflexivity].
  destruct (getLeadById_some n d lo) as (l & Hl & E); [rewrite Eget; reflexivity |].
  assert (Hin : In n (map l_id (leads d))) by (rewrite <- E; apply in_map, Hl).
  set (data := js_or body (JObj [])).
  set (f := mkActivityFields _ _ _ _).
  assert (Hk : exists k, pg_text (default_to (af_kind f) (JStr "note")) = Some k).
  { subst f; cbn [af_kind]; unfold js_or.
    destruct (truthy (js_get data "kind")) eqn:Et.
    - destruct (truthy_text _ Et) as (k & Ek); exists k.
      destruct (js_get data "kind"); try discriminate Et; exact Ek.
    - exists "note"; reflexivity. }
  destruct Hk as (k & Ek).
  destruct (activity_fits f) eqn:Hfit;
    [| rewrite (addActivity_refused now n f d Hfit); left; reflexivity].
  rewrite (addActivity_ok now n f k d W Hin Hfit Ek); cbn [snd ret].
  right; exists n, f, k; auto.
Qed.

Lemma post_activity_sound (now : Z) (id : string) (body : jsval) (d : db) :
  sound d -> sound (snd (render (post_activity now id body) d)).
Proof.
  intros S.
  destruct (post_activity_store now id body d (sound_schema d S))
    as [-> | (leadId & f & k & Hin & ->)]; [exact S | apply logged_sound; assumption].
Qed.

Lemma listActivities_reads (leadId limit : Z) (d : db) :
  snd (listActivities leadId limit d) = d.
Proof. unfold listActivities, bind, guard, gets; destruct (0 <=? limit); reflexivity. Qed.

Lemma detail_store_eq (now : Z) (id : string) (d : db) :
  snd (render (get_practice_detail now id) d)
  = match Str.parseInt id with
    | None => d
    | Some n =>
        match hd_error (filter (fun p => p_id p =? n) (practices d)) with
        | None => d
        | Some _ =>
            match fst (getLeadByPracticeId n d) with
            | Ok None => snd (ensureLead now n d)
            | _ => d
            end
        end
    end.
Proof.
  unfold get_practice_detail, render, bind.
  destruct (Str.parseInt id) as [n |]; [| reflexivity].
  cbn [int_param ret].
  unfold getPractice at 1, gets at 1.
  destruct (hd_error (filter (fun p => p_id p =? n) (practices d))) as [p |];
    [| reflexivity].
  destruct (getLeadByPracticeId n d) as [r d0] eqn:Eget.
  assert (Ed : d0 = d) by (unfold getLeadByPracticeId, gets in Eget; congruence).
  subst d0; cbn [fst].
  destruct r as [[[l pr] |] | e]; [| | reflexivity].
  - reflexivity.
  - destruct (ensureLead now n d) as [[lid | e] d2]; cbn [snd]; [| reflexivity].
    destruct (getLeadByPracticeId n d2) as [r2 d3] eqn:Eget2.
    assert (Ed : d3 = d2) by (unfold getLeadByPracticeId, gets in Eget2; congruence).
    subst d3.
    destruct r2 as [[[l pr] |] | e]; reflexivity.
Qed.

Lemma hd_filter_id (n : Z) (p : practice) (ps : list practice) :
  hd_error (filter (fun p => p_id p =? n) ps) = Some p -> In p ps /\ p_id p = n.
Proof.
  destruct (filter (fun p => p_id p =? n) ps) as [| p0 rest] eqn:F; [discriminate |].
  intros E; injection E as <-.
  assert (Hin : In p0 (filter (fun p => p_id p =? n) ps)) by (rewrite F; left; reflexivity).
  apply filter_In in Hin as (Hin & E); apply Z.eqb_eq in E; auto.
Qed.

Lemma detail_store (now : Z) (id : string) (d : db) :
  snd (render (get_practice_detail now id) d) = d
  \/ exists pid,
       In pid (map p_id (practices d))
       /\ snd (render (get_practice_detail now id) d) = snd (ensureLead now pid d).
Proof.
  rewrite detail_store_eq.
  destruct (Str.parseInt id) as [n |]; [| left; reflexivity].
  destruct (hd_error _) as [p |] eqn:Ep; [| left; reflexivity].
  apply hd_filter_id in Ep as (Hp & E).
  destruct (fst (getLeadByPracticeId n d)) as [[lo |] | e]; try (left; reflexivity).
  right; exists n; split; [rewrite <- E; apply in_map, Hp | reflexivity].
Qed.

Lemma detail_sound (now : Z) (id : string) (d : db) :
  sound d -> sound (snd (render (get_practice_detail now id) d)).
Proof.
  intros S.
  destruct (detail_store now id d) as [-> | (pid & Hp & ->)];
    [exact S | apply ensureLead_sound; assumption].
Qed.

Lemma serve_sound (r : request) (d : db) : sound d -> sound (serve r d).
Proof.
  intros S; destruct r as [ta tb record | t1 t2 id body | now id body | now id]; simpl.
  - apply ingest_sound, S.
  - apply patched_sound, S.
  - apply post_activity_sound, S.
  - apply detail_sound, S.
Qed.

Lemma empty_db_sound : sound empty_db.
Proof.
  constructor; [apply empty_db_wf | intros k [] | constructor].
Qed.

Lemma served_sound (requests : list request) (d : db) :
  sound d -> sound (fold_left (fun d r => serve r d) requests d).
Proof.
  revert d; induction requests as [| r requests IH]; intros d S; simpl; [exact S |].
  apply IH, serve_sound, S.
Qed.

(** X6: whatever requests are served, in whatever order, starting from
    the empty store (records read by [populate-db], [PATCH
    /api/leads/:id], [POST /api/leads/:id/activity], [GET
    /practices/:id]), the store satisfies the constraints of the schema,
    every practice has a lead, every stored status is one of the seven of
    the enum and every stored score is an integer from 0 to 100. *)
Theorem history_sound (requests : list request) : sound (history requests).
Proof.
  apply served_sound, empty_db_sound.
Qed.

End Soundness.

(** * The feed and the dashboard on the stores of the application *)

Section OnHistory.

Context `{PgDriver}.



Lemma count_status_cons (s : string) (l : lead) (ls : list lead) :
  count_status s (l :: ls)
  = (if String.eqb (l_status l) s then 1 else 0) + count_status s ls.
Proof.
  unfold count_status; simpl.
  destruct (String.eqb (l_status l) s); simpl List.length; lia.
Qed.

Lemma count_status_total (ls : list lead) :
  Forall lead_ok ls ->
  fold_right Z.add 0 (map (fun s => count_status s ls) LEAD_STATUSES)
  = Z.of_nat (List.length ls).
Proof.
  induction 1 as [| l ls (Hs & _) _ IH]; [reflexivity |].
  unfold LEAD_STATUSES in *; cbn [map fold_right] in *.
  rewrite !count_status_cons.
  apply existsb_exists in Hs as (k & Hk & Ek).
  apply String.eqb_eq in Ek; subst k.
  simpl in Hk.
  repeat (destruct Hk as [<- | Hk]; [simpl String.eqb; simpl List.length; lia |]).
  destruct Hk.
Qed.

Lemma one_lead_per_practice (d : db) :
  sound d -> List.length (leads d) = List.length (practices d).
Proof.
  intros [W S _].
  pose proof (NoDup_incl_length (wf_lead_practice d W) (wf_lead_fk d W)) as H1.
  pose proof (NoDup_incl_length (wf_practice_pk d W) S) as H2.
  rewrite !length_map in H1, H2; lia.
Qed.

(** X8: on every store that the application itself has written, the
    dashboard reads without writing and its numbers add up: the seven
    counts of the funnel sum to the number of practices, and the number
    of practices with an email is between 0 and that number. *)
Theorem dashboard_adds_up (requests : list request) :
  exists (total with_email : Z) (counts : list (string * Z)) (funnel : list Z),
    render get_dashboard (history requests)
    = (DashboardView total counts with_email, history requests)
    /\ total = Z.of_nat (List.length (practices (history requests)))
    /\ map (fun s => own_count s counts) LEAD_STATUSES = map Some funnel
    /\ fold_right Z.add 0 funnel = total
    /\ 0 <= with_email <= total.
Proof.
  assert (S : sound (history requests)) by (apply served_sound, empty_db_sound).
  set (d := history requests) in *.
  exists (Z.of_nat (List.length (practices d))),
         (Z.of_nat (List.length (filter has_email (practices d)))),
         (fold_left assign_count (group_by_status (leads d))
                    (map (fun s => (s, 0)) LEAD_STATUSES)),
         (map (fun s => count_status s (leads d)) LEAD_STATUSES).
  split; [reflexivity |].
  split; [reflexivity |].
  split.
  { rewrite map_map; apply map_ext_in; intros s Hs; apply getLeadCountByStatus_enum.
    apply existsb_exists; exists s; split; [exact Hs | apply String.eqb_refl]. }
  split.
  { rewrite (count_status_total (leads d) (sound_leads d S)).
    rewrite (one_lead_per_practice d S); reflexivity. }
  pose proof (filter_length_le has_email (practices d)); lia.
Qed.

End OnHistory.

(** * More of the routes *)

Section Routes.

Context `{PgDriver}.

(** X9: [listLeadsForN8n] writes nothing.  The server refuses a status
    that holds U+0000 and, after that, a negative limit.  Otherwise the
    call returns [limit] leads at most, each with the status of the
    filter when there is one; when no more than [limit] rows pass the
    filters, every one of them is in the answer. *)
Theorem listLeadsForN8n_bounded_complete
        (limit : Z) (st : option string) (w : bool) (d : db) :
  snd (listLeadsForN8n limit st w d) = d
  /\ match fst (listLeadsForN8n limit st w d) with
     | Ok items =>
         status_fits st = true
         /\ 0 <= limit
         /\ Z.of_nat (List.length items) <= limit
         /\ (forall it s, In it items -> st = Some s -> s <> "" -> status it = s)
         /\ (Z.of_nat (List.length (filter (n8n_where st w) (joined d))) <= limit ->
             forall row, In row (joined d) -> n8n_where st w row = true ->
                         In (n8n_of_row row) items)
     | Err e =>
         (e = InvalidByteSequence /\ status_fits st = false)
         \/ (e = NegativeLimit /\ status_fits st = true /\ limit < 0)
     end.
Proof.
  destruct (status_fits st) eqn:Hs;
    [| rewrite OrderBy.listLeadsForN8n_refused by exact Hs;
       split; [reflexivity | left; split; reflexivity]].
  destruct (Z.leb_spec 0 limit) as [Hl | Hl].
  - rewrite OrderBy.listLeadsForN8n_rows by assumption; cbn [fst snd].
    split; [reflexivity |].
    split; [reflexivity |].
    split; [exact Hl |].
    split; [rewrite length_map; unfold n8n_rows; rewrite length_firstn; lia |].
    split.
    + intros it s Hit -> Hne.
      apply in_map_iff in Hit as ([l p] & <- & Hr).
      apply OrderBy.n8n_rows_selected in Hr as (_ & Hw).
      unfold n8n_where in Hw; apply andb_prop in Hw as (Hw & _).
      destruct (String.eqb_spec s "") as [E | _]; [contradiction |].
      apply String.eqb_eq in Hw; exact Hw.
    + intros Hall row Hrow Hw; apply in_map; unfold n8n_rows.
      set (sel := filter (n8n_where st w) (joined d)) in *.
      rewrite firstn_all2.
      * apply (Permutation_in _ (Permutation_sym (OrderBy.sort_perm sel))).
        apply filter_In; auto.
      * rewrite (Permutation_length (OrderBy.sort_perm sel)); lia.
  - unfold listLeadsForN8n, bind, guard; rewrite Hs.
    destruct (Z.leb_spec 0 limit); [lia |].
    split; [reflexivity | right; split; [reflexivity | split; [reflexivity | exact Hl]]].
Qed.

Lemma getLeadById_none (n : Z) (d : db) :
  ~ In n (map l_id (leads d)) -> getLeadById n d = (Ok None, d).
Proof.
  intros Hn; unfold getLeadById, gets.
  destruct (filter _ (joined d)) as [| [l p] rows] eqn:F; [reflexivity |].
  exfalso; apply Hn.
  assert (Hin : In (l, p) (filter (fun r => l_id (fst r) =? n) (joined d)))
    by (rewrite F; left; reflexivity).
  apply filter_In in Hin as (Hj & E); apply joined_elim in Hj as (Hl & _).
  apply Z.eqb_eq in E; simpl in E; rewrite <- E; apply in_map, Hl.
Qed.

(** X10: [PATCH /api/leads/:id] for an id that is no id of a lead
    answers "not found", and for an id that is no number ends in the
    error page; either way nothing is written: no activity is logged for
    a status sent to a lead that does not exist. *)
Theorem patch_unknown_lead (t1 t2 : Z) (id : string) (body : jsval) (d : db) :
  (Str.parseInt id = None ->
   respond (patch_lead t1 t2 id body) d = (ServerError, d))
  /\ (forall n, Str.parseInt id = Some n -> ~ In n (map l_id (leads d)) ->
                respond (patch_lead t1 t2 id body) d = (NotFound, d)).
Proof.
  split.
  - intros E; unfold respond, patch_lead, bind; rewrite E; reflexivity.
  - intros n E Hn; unfold respond, patch_lead, bind; rewrite E; cbn [int_param ret].
    rewrite (getLeadById_none n d Hn); reflexivity.
Qed.

Lemma lead_identity_updated (now leadId : Z) (f : lead_fields) (ls : list lead) :
  map lead_identity (map (fun l => if l_id l =? leadId then applied now f l else l) ls)
  = map lead_identity ls.
Proof.
  rewrite map_map; apply map_ext; intros l; destruct (l_id l =? leadId); reflexivity.
Qed.

Lemma others_survive_update (now leadId : Z) (f : lead_fields) (ls : list lead) (l : lead) :
  In l ls -> l_id l <> leadId ->
  In l (map (fun l => if l_id l =? leadId then applied now f l else l) ls).
Proof.
  intros Hl Hne; apply in_map_iff; exists l; split; [| exact Hl].
  destruct (Z.eqb_spec (l_id l) leadId); [contradiction | reflexivity].
Qed.

(** X11: a [PATCH] touches one lead: the practices are left as they
    were, every lead with another id is left as it was, and of no lead
    does it change the id, the practice, the follow-up time or the time
    of creation. *)
Theorem patch_frame (t1 t2 : Z) (id : string) (body : jsval) (d : db) :
  wf_db d ->
  practices (patched t1 t2 id body d) = practices d
  /\ map lead_identity (leads (patched t1 t2 id body d)) = map lead_identity (leads d)
  /\ forall l, In l (leads d) -> Str.parseInt id <> Some (l_id l) ->
               In l (leads (patched t1 t2 id body d)).
Proof.
  intros W.
  destruct (patched_lookup t1 t2 id body d) as [-> | (l0 & Hl0 & Eid)]; [auto |].
  assert (Hne : forall l, Str.parseInt id <> Some (l_id l) -> l_id l <> l_id l0).
  { intros l Hl E; apply Hl; rewrite E; exact Eid. }
  destruct (status_accepted (lf_status (patch_fields body))) eqn:Hacc.
  - rewrite (patched_accepted t1 t2 id body d l0 W Hl0 Eid Hacc).
    destruct (update_fits (patch_fields body)); [| auto].
    rewrite updated_leads, logged_leads, lead_identity_updated.
    split; [reflexivity | split; [reflexivity |]].
    intros l Hl Hp; apply others_survive_update; auto.
  - rewrite (patched_ignored t1 t2 id body d l0 W Hl0 Eid Hacc).
    destruct (lead_updates (patch_fields body)) as [| u us]; [auto |].
    destruct (update_fits (patch_fields body)); [| auto].
    rewrite updated_leads, lead_identity_updated.
    split; [reflexivity | split; [reflexivity |]].
    intros l Hl Hp; apply others_survive_update; auto.
Qed.

(** X12: [POST /api/leads/:id/activity] for a lead of the store, when
    the server takes the four parameters of the [INSERT] (no U+0000 in
    [kind], [title], [body] or the metadata), answers [ok] and appends
    one activity to the log, for that lead, stamped with the time of the
    insert; its kind is [note] when the body has no kind (or an empty
    one) and the kind of the body when that is a non-empty string; no
    lead and no practice is changed.  When the server refuses a
    parameter the route ends in the error page and nothing is written.
    For an id that is no id of a lead it answers "not found" and writes
    nothing.  (By the conventions of the embedding the id, an integer,
    fits [INTEGER], and [kind] and [title] fit the widths of their
    columns.) *)
Theorem post_activity_appends (now n : Z) (id : string) (body : jsval) (d : db) :
  wf_db d -> Str.parseInt id = Some n ->
  (In n (map l_id (leads d)) ->
   if activity_fits (post_fields body)
   then exists a,
          render (post_activity now id body) d
          = (ActivityAdded,
             mkDb (practices d) (leads d) (activities d ++ [a]) (practices_id_seq d)
                  (leads_id_seq d) (activities_id_seq d + 1)
                  (journal d ++ [InsertActivity n (a_kind a)]))
          /\ a_lead_id a = n
          /\ a_created_at a = now
          /\ (truthy (js_get (js_or body (JObj [])) "kind") = false -> a_kind a = "note")
          /\ (forall s, js_get (js_or body (JObj [])) "kind" = JStr s -> s <> "" ->
                        a_kind a = s)
   else render (post_activity now id body) d = (ErrorPage, d))
  /\ (~ In n (map l_id (leads d)) ->
      render (post_activity now id body) d = (NoSuchRow, d)).
Proof.
  intros W Eid; split.
  - intros Hin.
    apply in_map_iff in Hin as (l & El & Hl); subst n.
    destruct (getLeadById_found d l W Hl) as (lo & Eget).
    unfold post_activity, render, bind; rewrite Eid; cbn [int_param ret]; rewrite Eget.
    fold (post_fields body).
    set (data := js_or body (JObj [])).
    set (f := post_fields body).
    assert (Hk : exists k, pg_text (default_to (af_kind f) (JStr "note")) = Some k
                           /\ (truthy (js_get data "kind") = false -> k = "note")
                           /\ (forall s, js_get data "kind" = JStr s -> s <> "" -> k = s)).
    { subst f; unfold post_fields; cbn [af_kind]; fold data; unfold js_or.
      destruct (truthy (js_get data "kind")) eqn:Et.
      - destruct (truthy_text _ Et) as (k & Ek); exists k.
        split; [destruct (js_get data "kind"); try discriminate Et; exact Ek |].
        split; [discriminate |].
        intros s Es _; rewrite Es in Ek; simpl in Ek; congruence.
      - exists "note"; split; [reflexivity |]; split; [reflexivity |].
        intros s Es Hs; rewrite Es in Et; simpl in Et.
        destruct (String.eqb_spec s ""); [contradiction | discriminate]. }
    destruct Hk as (k & Ek & Hnote & Hkind).
    destruct (activity_fits f) eqn:Hfit.
    + rewrite (addActivity_ok now (l_id l) f k d W (in_map l_id _ _ Hl) Hfit Ek); cbn [ret].
      exists (logged_row now (l_id l) f k d); repeat split; assumption.
    + rewrite (addActivity_refused now (l_id l) f d Hfit); reflexivity.
  - intros Hn; unfold post_activity, render, bind; rewrite Eid; cbn [int_param ret].
    rewrite (getLeadById_none n d Hn); reflexivity.
Qed.

(** ** Inserts that the server refuses, records that the script skips *)

(** X13: an [INSERT] for a row whose parent is missing is refused with a
    foreign-key violation, changes no table and writes nothing to the
    journal, and still uses up the next id of the sequence: so for
    [ensureLead] on an id that is no practice, and so for [addActivity]
    on an id that is no lead.  ([addActivity] comes to that when the
    server takes its parameters; one that holds U+0000 is refused before
    the statement runs, and then no id is used up either.  By the
    conventions of the embedding an id fits [INTEGER] and a text fits the
    width of its column.) *)
Theorem insert_without_parent_is_refused
        (now parent : Z) (f : activity_fields) (k : string) (d : db) :
  wf_db d ->
  (~ In parent (map p_id (practices d)) ->
   ensureLead now parent d
   = (Err ForeignKeyViolation,
      mkDb (practices d) (leads d) (activities d) (practices_id_seq d)
           (leads_id_seq d + 1) (activities_id_seq d) (journal d)))
  /\ (~ In parent (map l_id (leads d)) ->
      pg_text (default_to (af_kind f) (JStr "note")) = Some k ->
      addActivity now parent f d
      = if activity_fits f
        then (Err ForeignKeyViolation,
              mkDb (practices d) (leads d) (activities d) (practices_id_seq d)
                   (leads_id_seq d) (activities_id_seq d + 1) (journal d))
        else (Err InvalidByteSequence, d)).
Proof.
  intros W; split.
  - intros Hn.
    assert (F : filter (fun l => l_practice_id l =? parent) (leads d) = []).
    { destruct (filter _ (leads d)) as [| l rest] eqn:F; [reflexivity |].
      exfalso; apply Hn.
      assert (Hl : In l (filter (fun l => l_practice_id l =? parent) (leads d)))
        by (rewrite F; left; reflexivity).
      apply filter_In in Hl as (Hl & E); apply Z.eqb_eq in E.
      rewrite <- E; apply (wf_lead_fk d W), in_map, Hl. }
    unfold ensureLead; unfold bind at 1; unfold gets at 1; rewrite F.
    unfold insert_lead, bind, next_lead_id, gets, guard; cbn [practices].
    rewrite (existsb_none p_id parent _ Hn); reflexivity.
  - intros Hn Ek.
    destruct (activity_fits f) eqn:Hfit; [| apply addActivity_refused, Hfit].
    unfold addActivity; rewrite Hfit, Ek.
    unfold bind, next_activity_id, gets, guard, ret; cbn [leads].
    rewrite (existsb_none l_id parent _ Hn); reflexivity.
Qed.

(** X14: a record without a usable [url] never reaches the store through
    [populate-db]: the loop skips it, returns, and leaves the store as it
    was.  [upsertPractice] itself, handed such a record, throws and
    leaves every table as it was: a [TypeError] when the record itself is
    [undefined] or [null]; else, when one of its texts holds U+0000, the
    refusal of that parameter, before the statement runs; else the
    violation of [NOT NULL] by the [url], after an id of the sequence has
    been used up.  (By the convention of the embedding a text fits the
    width of its column.) *)
Theorem record_without_url_is_skipped (ta tb : Z) (r : jsval) (d : db) :
  truthy (js_get r "url") = false ->
  ingest ta tb r d = (Ok tt, d)
  /\ (pg_text (js_get r "url") = None ->
      upsertPractice ta r d
      = match r with
        | JUndefined | JNull => (Err TypeError, d)
        | _ =>
            if record_fits r
            then (Err NotNullViolation,
                  mkDb (practices d) (leads d) (activities d) (practices_id_seq d + 1)
                       (leads_id_seq d) (activities_id_seq d) (journal d))
            else (Err InvalidByteSequence, d)
        end).
Proof.
  intros Hurl; split.
  - unfold ingest; rewrite Hurl, orb_true_r; reflexivity.
  - intros Enull; unfold upsertPractice.
    destruct r; try reflexivity;
      unfold bind, guard, next_practice_id;
      match goal with |- context [record_fits ?x] => destruct (record_fits x) end;
      try reflexivity; cbn [ret]; rewrite Enull; reflexivity.
Qed.

(** X15: [upsertPractice] on a [url] that the store has, for a record
    that the server takes (none of its texts holds U+0000), keeps the
    identity of that practice and overwrites its description: it returns
    the id of the row, the row keeps its id and its time of creation,
    gets the time of the statement as time of update and the email of the
    record ([NULL] when the record has none, whatever was stored); no
    row is added, the rows of the other urls stay as they were, and so do
    the leads and the activities.  For a record that the server refuses,
    the call throws and the store is as it was.  (By the convention of
    the embedding a text fits the width of its column.) *)
Theorem upsertPractice_overwrites
        (now : Z) (r : jsval) (url : string) (d : db) (p0 : practice) :
  wf_db d -> carries_url url r -> In p0 (practices d) -> p_url p0 = url ->
  if record_fits r
  then exists d1 p1,
         upsertPractice now r d = (Ok (p_id p0), d1)
         /\ practices_with_url url d1 = [p1]
         /\ p_id p1 = p_id p0
         /\ p_created_at p1 = p_created_at p0
         /\ p_updated_at p1 = now
         /\ p_email p1 = pg_text (js_or (js_get r "email") JNull)
         /\ List.length (practices d1) = List.length (practices d)
         /\ (forall p, In p (practices d) -> p_url p <> url -> In p (practices d1))
         /\ leads d1 = leads d
         /\ activities d1 = activities d
  else upsertPractice now r d = (Err InvalidByteSequence, d).
Proof.
  intros W Hc Hp0 Eurl0; destruct (carries_url_object url r Hc) as (props & ->).
  destruct (record_fits (JObj props)) eqn:Hfit;
    [| apply upsertPractice_refused; [reflexivity | exact Hfit]].
  destruct Hc as [_ Eurl].
  destruct (name_is_text (js_get (JObj props) "name")) as (name & Ename).
  assert (F : filter (fun p => String.eqb (p_url p) url) (practices d) = [p0]).
  { destruct (OrderBy.filter_by_key String.eqb p_url url (practices d) String.eqb_spec
                                    (wf_practice_url d W)) as [F | (x & F)].
    - assert (Hin : In p0 (filter (fun p => String.eqb (p_url p) url) (practices d)))
        by (apply filter_In; split; [exact Hp0 | apply String.eqb_eq, Eurl0]).
      rewrite F in Hin; destruct Hin.
    - assert (Hin : In p0 (filter (fun p => String.eqb (p_url p) url) (practices d)))
        by (apply filter_In; split; [exact Hp0 | apply String.eqb_eq, Eurl0]).
      rewrite F in Hin; destruct Hin as [-> | []]; exact F. }
  unfold upsertPractice; unfold bind at 1; unfold guard at 1; rewrite Hfit.
  cbn [ret]; unfold bind at 1; unfold next_practice_id.
  rewrite Eurl, Ename.
  unfold bind at 1; unfold gets at 1; cbn [practices]; rewrite F.
  unfold bind, modify, ret.
  eexists; exists (practice_row (JObj props) url name now (p_id p0) (p_created_at p0)).
  split; [reflexivity |].
  unfold practices_with_url, log, with_practices; cbn [practices leads activities].
  split.
  { rewrite filter_map_commute.
    - rewrite F; simpl; rewrite Eurl0, String.eqb_refl; reflexivity.
    - intros p; destruct (String.eqb_spec (p_url p) url) as [E | E]; simpl.
      + apply String.eqb_refl.
      + apply String.eqb_neq, E. }
  repeat (split; [reflexivity |]).
  split; [apply length_map |].
  split; [| split; reflexivity].
  intros p Hp Hne; apply in_map_iff; exists p; split; [| exact Hp].
  destruct (String.eqb_spec (p_url p) url); [contradiction | reflexivity].
Qed.

(** ** The page of one practice *)

Lemma getPractice_found (d : db) (p : practice) :
  wf_db d -> In p (practices d) -> getPractice (p_id p) d = (Ok (Some p), d).
Proof.
  intros W Hp; unfold getPractice, gets.
  assert (Hin : In p (filter (fun x => p_id x =? p_id p) (practices d)))
    by (apply filter_In; split; [exact Hp | apply Z.eqb_refl]).
  destruct (OrderBy.filter_by_key Z.eqb p_id (p_id p) (practices d) Z.eqb_spec
                                  (wf_practice_pk d W)) as [F | (x & F)];
    rewrite F in *; [destruct Hin | destruct Hin as [-> | []]; reflexivity].
Qed.

Lemma getLeadByPracticeId_found (d : db) (l : lead) :
  wf_db d -> In l (leads d) ->
  exists pr, getLeadByPracticeId (l_practice_id l) d = (Ok (Some (l, pr)), d).
Proof.
  intros W Hl.
  assert (Hfk : In (l_practice_id l) (map p_id (practices d))).
  { apply (wf_lead_fk d W), in_map, Hl. }
  apply in_map_iff in Hfk as (p & Ep & Hp).
  assert (Hrow : In (l, p) (filter (fun r => l_practice_id (fst r) =? l_practice_id l)
                                   (joined d))).
  { apply filter_In; split; [apply joined_intro; assumption | apply Z.eqb_refl]. }
  unfold getLeadByPracticeId, gets.
  destruct (filter _ (joined d)) as [| [l0 p0] rows] eqn:F; [destruct Hrow |].
  assert (Hhead : In (l0, p0) (filter (fun r => l_practice_id (fst r) =? l_practice_id l)
                                      (joined d)))
    by (rewrite F; left; reflexivity).
  apply filter_In in Hhead as (Hj & E); apply joined_elim in Hj as (Hl0 & _).
  apply Z.eqb_eq in E; simpl in E.
  assert (l0 = l).
  { apply (OrderBy.NoDup_map_inj l_practice_id (leads d));
      [apply (wf_lead_practice d W) | | |]; assumption. }
  subst l0; eexists; reflexivity.
Qed.

Lemma getLeadByPracticeId_none (n : Z) (d : db) :
  leads_of_practice n d = [] -> getLeadByPracticeId n d = (Ok None, d).
Proof.
  intros F; unfold getLeadByPracticeId, gets.
  destruct (filter _ (joined d)) as [| [l p] rows] eqn:Fj; [reflexivity |].
  assert (Hin : In (l, p) (filter (fun r => l_practice_id (fst r) =? n) (joined d)))
    by (rewrite Fj; left; reflexivity).
  apply filter_In in Hin as (Hj & E); apply joined_elim in Hj as (Hl & _).
  assert (Hf : In l (leads_of_practice n d)) by (apply filter_In; auto).
  rewrite F in Hf; destruct Hf.
Qed.

Lemma latest_20 (leadId : Z) (d : db) :
  listActivities leadId 20 d
  = (Ok (firstn 20 (order_by_created_desc
                      (filter (fun a => a_lead_id a =? leadId) (activities d)))), d).
Proof. reflexivity. Qed.

Lemma latest_20_own (leadId : Z) (d : db) :
  Forall (fun a => a_lead_id a = leadId)
         (firstn 20 (order_by_created_desc
                       (filter (fun a => a_lead_id a =? leadId) (activities d)))).
Proof.
  apply Forall_forall; intros a Ha.
  assert (Hs : In a (order_by_created_desc
                       (filter (fun a => a_lead_id a =? leadId) (activities d)))).
  { rewrite <- (firstn_skipn 20); apply in_or_app; left; exact Ha. }
  apply (Permutation_in _ (order_by_created_perm _)) in Hs.
  apply filter_In in Hs as (_ & E); apply Z.eqb_eq, E.
Qed.

(** The page of a practice that has its lead: nothing is written. *)
Lemma detail_with_lead (now : Z) (id : string) (d : db) (p : practice) (l : lead) :
  wf_db d -> Str.parseInt id = Some (p_id p) -> In p (practices d) ->
  In l (leads d) -> l_practice_id l = p_id p ->
  exists pr acts,
    render (get_practice_detail now id) d = (PracticeDetailView p (Some (l, pr)) acts, d)
    /\ Forall (fun a => a_lead_id a = l_id l) acts
    /\ (List.length acts <= 20)%nat.
Proof.
  intros W Eid Hp Hl Efk.
  destruct (getLeadByPracticeId_found d l W Hl) as (pr & Eget); rewrite Efk in Eget.
  exists pr; eexists; split; [| split; [apply (latest_20_own (l_id l) d) |]].
  - unfold get_practice_detail, render, bind; rewrite Eid; cbn [int_param ret].
    rewrite (getPractice_found d p W Hp), Eget; cbn [ret].
    rewrite latest_20; reflexivity.
  - rewrite length_firstn; lia.
Qed.

(** X16: [GET /practices/:id] for a practice of the store shows the
    practice with its lead and the latest 20 activities of that lead at
    most.  When the practice has a lead, nothing is written; when it has
    none, one is created, with the status [new], at the end of the table.
    Afterwards the practice has exactly one lead, the store still
    satisfies the schema, and the same request again writes nothing. *)
Theorem practice_detail_ensures_lead (now : Z) (id : string) (d : db) (p : practice) :
  wf_db d -> Str.parseInt id = Some (p_id p) -> In p (practices d) ->
  exists l pr acts d',
    render (get_practice_detail now id) d = (PracticeDetailView p (Some (l, pr)) acts, d')
    /\ wf_db d'
    /\ leads_of_practice (p_id p) d' = [l]
    /\ Forall (fun a => a_lead_id a = l_id l) acts
    /\ (List.length acts <= 20)%nat
    /\ (leads_of_practice (p_id p) d <> [] -> d' = d)
    /\ (leads_of_practice (p_id p) d = [] ->
        leads d' = leads d ++ [l] /\ l_status l = "new" /\ practices d' = practices d)
    /\ (forall again, snd (render (get_practice_detail again id) d') = d').
Proof.
  intros W Eid Hp.
  assert (Hpid : In (p_id p) (map p_id (practices d))) by (apply in_map, Hp).
  assert (Hagain : forall d' l,
             wf_db d' -> practices d' = practices d -> In l (leads d') ->
             l_practice_id l = p_id p ->
             forall again, snd (render (get_practice_detail again id) d') = d').
  { intros d' l W' Eprac Hl Efk again.
    assert (Hp' : In p (practices d')) by (rewrite Eprac; exact Hp).
    destruct (detail_with_lead again id d' p l W' Eid Hp' Hl Efk) as (pr & acts & E & _).
    rewrite E; reflexivity. }
  destruct (OrderBy.filter_by_key Z.eqb l_practice_id (p_id p) (leads d) Z.eqb_spec
                                  (wf_lead_practice d W)) as [F | (l0 & F)];
    fold (leads_of_practice (p_id p) d) in F.
  - (* no lead yet *)
    destruct (ensureLead_ok now (p_id p) d W Hpid)
      as (lid & d2 & Een & W2 & Hprac & (l & Hl & Elid) & _ & Hcreate).
    specialize (Hcreate F).
    assert (Hin : In l (leads_of_practice (p_id p) d2)) by (rewrite Hl; left; reflexivity).
    apply filter_In in Hin as (Hin & Efk); apply Z.eqb_eq in Efk.
    assert (Enew : l = new_lead lid (p_id p) now).
    { unfold leads_of_practice in Hl; rewrite Hcreate, filter_app in Hl.
      fold (leads_of_practice (p_id p) d) in Hl; rewrite F in Hl; simpl in Hl.
      rewrite Z.eqb_refl in Hl; injection Hl as <-; reflexivity. }
    destruct (getLeadByPracticeId_found d2 l W2 Hin) as (pr & Eget2); rewrite Efk in Eget2.
    exists l, pr; eexists; exists d2.
    split.
    { unfold get_practice_detail, render, bind; rewrite Eid; cbn [int_param ret].
      rewrite (getPractice_found d p W Hp), (getLeadByPracticeId_none _ d F), Een, Eget2.
      cbn [ret]; rewrite latest_20; reflexivity. }
    split; [exact W2 |].
    split; [exact Hl |].
    split; [apply (latest_20_own (l_id l) d2) |].
    split; [rewrite length_firstn; lia |].
    split; [intros Hne; contradiction |].
    split; [intros _; rewrite Hcreate, Enew; auto |].
    apply (Hagain d2 l W2 Hprac Hin Efk).
  - (* the lead is there *)
    assert (Hin : In l0 (leads_of_practice (p_id p) d)) by (rewrite F; left; reflexivity).
    apply filter_In in Hin as (Hin & Efk); apply Z.eqb_eq in Efk.
    destruct (detail_with_lead now id d p l0 W Eid Hp Hin Efk) as (pr & acts & E & Hown & Hlen).
    exists l0, pr, acts, d.
    split; [exact E |].
    split; [exact W |].
    split; [exact F |].
    split; [exact Hown |].
    split; [exact Hlen |].
    split; [reflexivity |].
    split; [intros E0; rewrite E0 in F; discriminate F |].
    apply (Hagain d l0 W eq_refl Hin Efk).
Qed.

(** ** What [PATCH] answers *)

Lemma getLeadById_exact (d : db) (l : lead) :
  wf_db d -> In l (leads d) ->
  exists pr, getLeadById (l_id l) d = (Ok (Some (l, pr)), d).
Proof.
  intros W Hl.
  assert (Hfk : In (l_practice_id l) (map p_id (practices d))).
  { apply (wf_lead_fk d W), in_map, Hl. }
  apply in_map_iff in Hfk as (p & Ep & Hp).
  assert (Hrow : In (l, p) (filter (fun r => l_id (fst r) =? l_id l) (joined d))).
  { apply filter_In; split; [apply joined_intro; assumption | apply Z.eqb_refl]. }
  unfold getLeadById, gets.
  destruct (filter _ (joined d)) as [| [l0 p0] rows] eqn:F; [destruct Hrow |].
  assert (Hhead : In (l0, p0) (filter (fun r => l_id (fst r) =? l_id l) (joined d)))
    by (rewrite F; left; reflexivity).
  apply filter_In in Hhead as (Hj & E); apply joined_elim in Hj as (Hl0 & _).
  apply Z.eqb_eq in E; simpl in E.
  assert (l0 = l).
  { apply (OrderBy.NoDup_map_inj l_id (leads d)); [apply (wf_lead_pk d W) | | |];
      assumption. }
  subst l0; eexists; reflexivity.
Qed.

Lemma patch_response (t1 t2 : Z) (id : string) (body : jsval) (d : db) (l : lead) :
  wf_db d -> In l (leads d) -> Str.parseInt id = Some (l_id l) ->
  fst (respond (patch_lead t1 t2 id body) d)
  = match fst (updateLead t2 (l_id l) (patch_fields body)
                          (if status_accepted (lf_status (patch_fields body))
                           then snd (addActivity t1 (l_id l) (status_change_fields body) d)
                           else d)) with
    | Ok (Some (l', _)) => lead_json l'
    | Ok None | Err _ => ServerError
    end.
Proof.
  intros W Hl Eid.
  destruct (getLeadById_found d l W Hl) as (lo & Eget).
  unfold patch_lead, respond, bind; rewrite Eid.
  unfold int_param, ret at 1; rewrite Eget.
  fold (patch_fields body).
  change (js_get (js_or body (JObj [])) "status") with (lf_status (patch_fields body)).
  change (mkFields (lf_status (patch_fields body)) (js_get (js_or body (JObj [])) "notes")
                   (js_get (js_or body (JObj [])) "score")
                   (js_get (js_or body (JObj [])) "tags")) with (patch_fields body).
  fold (status_change_fields body).
  cbv zeta.
  destruct (status_accepted (lf_status (patch_fields body))) eqn:Hacc.
  - rewrite (addActivity_ok t1 (l_id l) (status_change_fields body) "status_change" d W
                            (in_map l_id _ _ Hl) (status_change_fits body Hacc) eq_refl).
    cbn [snd ret].
    destruct (updateLead t2 (l_id l) (patch_fields body) _) as [[[[l1 p1] |] | e] d2];
      reflexivity.
  - cbn [ret].
    destruct (updateLead t2 (l_id l) (patch_fields body) d) as [[[[l1 p1] |] | e] d2];
      reflexivity.
Qed.

Lemma updateLead_answer (now : Z) (f : lead_fields) (d : db) (l : lead) :
  wf_db d -> In l (leads d) ->
  if update_fits f
  then fst (updateLead now (l_id l) f d)
       = match lead_updates f with
         | [] => fst (getLeadById (l_id l) d)
         | _ :: _ => fst (getLeadById (l_id l) (updated now (l_id l) f d))
         end
  else exists e, fst (updateLead now (l_id l) f d) = Err e.
Proof.
  intros W Hl.
  destruct (update_fits f) eqn:Hfit.
  - destruct (lead_updates f) as [| u us] eqn:Eu.
    + unfold updateLead; rewrite Eu; reflexivity.
    + rewrite updateLead_applies; [reflexivity | rewrite Eu; discriminate | exact Hfit].
  - destruct (updateLead_refused now (l_id l) f d Hfit) as (_ & e & ->).
    exists e; reflexivity.
Qed.

(** X17: [PATCH /api/leads/:id] for a lead of the store, when the
    server takes the parameters of the [UPDATE], echoes the row as it is
    stored after the request: id, practice, status, score (0 for [NULL]),
    notes (empty for [NULL]) and tags.  When a field of the body was
    applied the row carries the time of the [UPDATE] as [updated_at];
    when none was, the row is the one that was there; notes sent as
    [null] are stored as [NULL].  When the server refuses a parameter
    (notes or tags that hold U+0000, a score within 0..100 that is no
    integer) the route ends in the error page instead. *)
Theorem patch_echoes_stored_row
        (t1 t2 : Z) (id : string) (body : jsval) (d : db) (l : lead) :
  wf_db d -> In l (leads d) -> Str.parseInt id = Some (l_id l) ->
  if update_fits (patch_fields body)
  then exists l',
         find_lead (l_id l) (patched t1 t2 id body d) = Some l'
         /\ fst (respond (patch_lead t1 t2 id body) d) = lead_json l'
         /\ (lead_updates (patch_fields body) <> [] -> l_updated_at l' = t2)
         /\ (lead_updates (patch_fields body) = [] -> l' = l)
         /\ (lf_notes (patch_fields body) = JNull -> l_notes l' = None)
  else fst (respond (patch_lead t1 t2 id body) d) = ServerError.
Proof.
  intros W Hl Eid.
  rewrite (patch_response t1 t2 id body d l W Hl Eid).
  set (f := patch_fields body).
  pose proof (in_map l_id _ _ Hl) as Hin.
  pose proof (logged_wf t1 (l_id l) (status_change_fields body) "status_change" d W Hin)
    as W1.
  assert (Hnotes : forall l0, lf_notes f = JNull -> l_notes (applied t2 f l0) = None).
  { intros l0 E; unfold applied; cbn [l_notes]; rewrite E; reflexivity. }
  assert (Hupd : forall d0, wf_db d0 -> In l (leads d0) ->
                   exists pr,
                     getLeadById (l_id l) (updated t2 (l_id l) f d0)
                     = (Ok (Some (applied t2 f l, pr)), updated t2 (l_id l) f d0)).
  { intros d0 W0 Hl0.
    assert (Hl' : In (applied t2 f l) (leads (updated t2 (l_id l) f d0))).
    { rewrite updated_leads; apply in_map_iff; exists l; split; [| exact Hl0].
      rewrite Z.eqb_refl; reflexivity. }
    apply (getLeadById_exact _ (applied t2 f l) (updated_wf t2 (l_id l) f d0 W0) Hl'). }
  destruct (status_accepted (lf_status f)) eqn:Hacc.
  - fold f in Hacc.
    rewrite (patched_accepted t1 t2 id body d l W Hl Eid Hacc); fold f.
    rewrite (addActivity_ok t1 (l_id l) (status_change_fields body) "status_change" d W
                            Hin (status_change_fits body Hacc) eq_refl); cbn [snd].
    pose proof (updateLead_answer t2 f _ l W1 Hl) as Ha.
    destruct (update_fits f); [rewrite Ha | destruct Ha as (e & ->); reflexivity].
    assert (Hne : lead_updates f <> []) by (unfold lead_updates; rewrite Hacc; discriminate).
    destruct (lead_updates f) as [| u us] eqn:Eu; [contradiction |].
    destruct (Hupd _ W1 Hl) as (pr & ->); cbn [fst].
    exists (applied t2 f l).
    split; [rewrite find_lead_updated, find_lead_logged, (find_lead_In d l W Hl); reflexivity |].
    split; [reflexivity |].
    split; [reflexivity |].
    split; [intros E; discriminate E | apply Hnotes].
  - fold f in Hacc.
    rewrite (patched_ignored t1 t2 id body d l W Hl Eid Hacc); fold f.
    pose proof (updateLead_answer t2 f d l W Hl) as Ha.
    destruct (update_fits f); [rewrite Ha | destruct Ha as (e & ->); reflexivity].
    destruct (lead_updates f) as [| u us] eqn:Eu.
    + destruct (getLeadById_exact d l W Hl) as (pr & ->); cbn [fst].
      exists l.
      split; [apply (find_lead_In d l W Hl) |].
      split; [reflexivity |].
      split; [intros E; contradiction |].
      split; [reflexivity |].
      intros En; exfalso; unfold lead_updates in Eu; rewrite Hacc, En in Eu; discriminate.
    + destruct (Hupd d W Hl) as (pr & ->); cbn [fst].
      exists (applied t2 f l).
      split; [rewrite find_lead_updated, (find_lead_In d l W Hl); reflexivity |].
      split; [reflexivity |].
      split; [reflexivity |].
      split; [intros E; discriminate E | apply Hnotes].
Qed.

(** ** The size of the feed *)

Lemma joined_fst_keys (g : lead -> Z) (d : db) :
  NoDup (map g (leads d)) -> NoDup (map p_id (practices d)) ->
  NoDup (map (fun r => g (fst r)) (joined d)).
Proof.
  intros Nl Np; unfold joined.
  induction (leads d) as [| l ls IH]; simpl; [constructor |].
  inversion Nl as [| ? ? Hl Nls]; subst.
  rewrite map_app; apply NoDup_app; repeat split.
  - rewrite map_map; simpl.
    destruct (OrderBy.filter_by_key Z.eqb p_id (l_practice_id l) (practices d) Z.eqb_spec Np)
      as [-> | (p & ->)]; simpl; repeat constructor; intros [].
  - apply IH, Nls.
  - intros k Hk1 Hk2; apply Hl.
    rewrite map_map in Hk1; apply in_map_iff in Hk1 as (p & <- & _).
    apply in_map_iff in Hk2 as ([l' p'] & E & Hin).
    apply in_flat_map in Hin as (l0 & Hl0 & Hin).
    apply in_map_iff in Hin as (p0 & Epair & _).
    injection Epair as <- <-; simpl in E.
    rewrite <- E; apply in_map, Hl0.
Qed.

Lemma filter_on_snd {A B} (g : B -> bool) (rows : list (A * B)) :
  List.length (filter (fun r => g (snd r)) rows) = List.length (filter g (map snd rows)).
Proof.
  induction rows as [| [a b] rows IH]; simpl; [reflexivity |].
  destruct (g b); simpl; rewrite IH; reflexivity.
Qed.

(** On a sound store the join pairs every practice with its lead, once. *)
Lemma joined_practices (d : db) : sound d -> Permutation (map snd (joined d)) (practices d).
Proof.
  intros [W S _].
  assert (Nj : NoDup (map snd (joined d))).
  { apply (NoDup_map_inv p_id); rewrite map_map.
    rewrite (map_ext_in (fun r => p_id (snd r)) (fun r => l_practice_id (fst r))).
    - apply joined_fst_keys; [apply (wf_lead_practice d W) | apply (wf_practice_pk d W)].
    - intros [l p] Hr; apply joined_elim in Hr as (_ & _ & E); exact E. }
  apply NoDup_Permutation; [exact Nj | apply (NoDup_map_inv p_id), (wf_practice_pk d W) |].
  intros p; split.
  - intros Hp; apply in_map_iff in Hp as ([l p'] & <- & Hr).
    apply joined_elim in Hr; apply Hr.
  - intros Hp.
    assert (Hk : In (p_id p) (map l_practice_id (leads d))) by (apply S, in_map, Hp).
    apply in_map_iff in Hk as (l & E & Hl).
    apply in_map_iff; exists (l, p); split; [reflexivity |].
    apply joined_intro; auto.
Qed.

(** X18: on every store that the application itself has written, the
    feed without a status filter holds one lead for each practice with an
    email, up to the limit: as many leads as [getPracticeCountWithEmail]
    counts practices, or [limit] of them when there are more. *)
Theorem feed_size_on_history (requests : list request) (q_limit : option qval) :
  exists items with_email,
    fst (respond (get_n8n_leads None q_limit) (history requests)) = JsonLeads items
    /\ fst (getPracticeCountWithEmail (history requests)) = Ok with_email
    /\ Z.of_nat (List.length items) = Z.min (n8n_limit q_limit) with_email.
Proof.
  assert (S : sound (history requests)) by (apply served_sound, empty_db_sound).
  set (d := history requests) in *.
  pose proof (n8n_limit_range q_limit) as Hlim.
  exists (map n8n_of_row (n8n_rows (n8n_limit q_limit) None true d)),
         (Z.of_nat (List.length (filter has_email (practices d)))).
  split; [rewrite get_n8n_leads_response; reflexivity |].
  split; [reflexivity |].
  rewrite length_map; unfold n8n_rows; rewrite length_firstn.
  rewrite (Permutation_length (OrderBy.sort_perm _)).
  assert (E : List.length (filter (n8n_where None true) (joined d))
              = List.length (filter has_email (practices d))).
  { rewrite (filter_ext (n8n_where None true) (fun r => has_email (snd r)))
      by (intros r; reflexivity).
    rewrite filter_on_snd.
    apply Permutation_length, OrderBy.filter_perm, joined_practices, S. }
  rewrite E; lia.
Qed.

(** ** A whole run of [populate-db] *)





End Routes.

(** ** The routes on the example stores *)

Lemma acme_alone_wf : wf_db acme_alone.
Proof. constructor; simpl; by_rows. Defined.

Lemma patch_clear_notes_frame :
  wf_db two_practices
  /\ practices (@patched example_driver 20 21 "1" clear_notes two_practices)
     = practices two_practices
  /\ map lead_identity (leads (@patched example_driver 20 21 "1" clear_notes two_practices))
     = map lead_identity (leads two_practices)
  /\ forall l, In l (leads two_practices) -> Str.parseInt "1" <> Some (l_id l) ->
               In l (leads (@patched example_driver 20 21 "1" clear_notes two_practices)).
Proof.
  split; [exact two_practices_wf |].
  apply (@patch_frame example_driver 20 21 "1" clear_notes two_practices two_practices_wf).
Defined.

Lemma post_call_note :
  wf_db two_practices
  /\ Str.parseInt "2" = Some 2
  /\ (In 2 (map l_id (leads two_practices)) ->
      if @activity_fits example_driver (post_fields call_note)
      then exists a,
             render (@post_activity example_driver 30 "2" call_note) two_practices
             = (ActivityAdded,
                mkDb (practices two_practices) (leads two_practices)
                     (activities two_practices ++ [a]) (practices_id_seq two_practices)
                     (leads_id_seq two_practices) (activities_id_seq two_practices + 1)
                     (journal two_practices ++ [InsertActivity 2 (a_kind a)]))
             /\ a_lead_id a = 2
             /\ a_created_at a = 30
             /\ (truthy (js_get (js_or call_note (JObj [])) "kind") = false
                 -> a_kind a = "note")
             /\ (forall s, js_get (js_or call_note (JObj [])) "kind" = JStr s -> s <> "" ->
                           a_kind a = s)
      else render (@post_activity example_driver 30 "2" call_note) two_practices
           = (ErrorPage, two_practices))
  /\ (~ In 2 (map l_id (leads two_practices)) ->
      render (@post_activity example_driver 30 "2" call_note) two_practices
      = (NoSuchRow, two_practices)).
Proof.
  split; [exact two_practices_wf |].
  split; [reflexivity |].
  apply (@post_activity_appends example_driver 30 2 "2" call_note two_practices
           two_practices_wf eq_refl).
Defined.

Lemma insert_for_row_7_is_refused :
  wf_db two_practices
  /\ (~ In 7 (map p_id (practices two_practices)) ->
      ensureLead 30 7 two_practices
      = (Err ForeignKeyViolation,
         mkDb (practices two_practices) (leads two_practices) (activities two_practices)
              (practices_id_seq two_practices) (leads_id_seq two_practices + 1)
              (activities_id_seq two_practices) (journal two_practices)))
  /\ (~ In 7 (map l_id (leads two_practices)) ->
      @pg_text example_driver
               (default_to (af_kind (mkActivityFields (JStr "call") JUndefined JUndefined
                                                      JUndefined))
                           (JStr "note"))
      = Some "call" ->
      @addActivity example_driver 30 7
                   (mkActivityFields (JStr "call") JUndefined JUndefined JUndefined)
                   two_practices
      = if @activity_fits example_driver
                          (mkActivityFields (JStr "call") JUndefined JUndefined JUndefined)
        then (Err ForeignKeyViolation,
              mkDb (practices two_practices) (leads two_practices)
                   (activities two_practices) (practices_id_seq two_practices)
                   (leads_id_seq two_practices) (activities_id_seq two_practices + 1)
                   (journal two_practices))
        else (Err InvalidByteSequence, two_practices)).
Proof.
  split; [exact two_practices_wf |].
  apply (@insert_without_parent_is_refused example_driver 30 7
           (mkActivityFields (JStr "call") JUndefined JUndefined JUndefined) "call"
           two_practices two_practices_wf).
Defined.

Lemma no_url_is_skipped :
  truthy (js_get no_url "url") = false
  /\ @ingest example_driver 30 31 no_url two_practices = (Ok tt, two_practices)
  /\ (@pg_text example_driver (js_get no_url "url") = None ->
      @upsertPractice example_driver 30 no_url two_practices
      = match no_url with
        | JUndefined | JNull => (Err TypeError, two_practices)
        | _ =>
            if @record_fits example_driver no_url
            then (Err NotNullViolation,
                  mkDb (practices two_practices) (leads two_practices)
                       (activities two_practices) (practices_id_seq two_practices + 1)
                       (leads_id_seq two_practices) (activities_id_seq two_practices)
                       (journal two_practices))
            else (Err InvalidByteSequence, two_practices)
        end).
Proof.
  split; [reflexivity |].
  apply (@record_without_url_is_skipped example_driver 30 31 no_url two_practices eq_refl).
Defined.

Lemma acme_read_again :
  wf_db two_practices
  /\ @carries_url "a.example/1" example_driver acme
  /\ In acme_practice (practices two_practices)
  /\ p_url acme_practice = "a.example/1"
  /\ if @record_fits example_driver acme
     then exists d1 p1,
            @upsertPractice example_driver 40 acme two_practices
            = (Ok (p_id acme_practice), d1)
            /\ practices_with_url "a.example/1" d1 = [p1]
            /\ p_id p1 = p_id acme_practice
            /\ p_created_at p1 = p_created_at acme_practice
            /\ p_updated_at p1 = 40
            /\ p_email p1 = @pg_text example_driver (js_or (js_get acme "email") JNull)
            /\ List.length (practices d1) = List.length (practices two_practices)
            /\ (forall p, In p (practices two_practices) -> p_url p <> "a.example/1" ->
                          In p (practices d1))
            /\ leads d1 = leads two_practices
            /\ activities d1 = activities two_practices
     else @upsertPractice example_driver 40 acme two_practices
          = (Err InvalidByteSequence, two_practices).
Proof.
  split; [exact two_practices_wf |].
  split; [split; reflexivity |].
  split; [left; reflexivity |].
  split; [reflexivity |].
  apply (@upsertPractice_overwrites example_driver 40 acme "a.example/1" two_practices
           acme_practice);
    [exact two_practices_wf | split; reflexivity | left; reflexivity | reflexivity].
Defined.

Lemma detail_of_acme_alone :
  wf_db acme_alone
  /\ Str.parseInt "1" = Some (p_id acme_practice)
  /\ In acme_practice (practices acme_alone)
  /\ exists l pr acts d',
       render (get_practice_detail 50 "1") acme_alone
       = (PracticeDetailView acme_practice (Some (l, pr)) acts, d')
       /\ wf_db d'
       /\ leads_of_practice (p_id acme_practice) d' = [l]
       /\ Forall (fun a => a_lead_id a = l_id l) acts
       /\ (List.length acts <= 20)%nat
       /\ (leads_of_practice (p_id acme_practice) acme_alone <> [] -> d' = acme_alone)
       /\ (leads_of_practice (p_id acme_practice) acme_alone = [] ->
           leads d' = leads acme_alone ++ [l] /\ l_status l = "new"
           /\ practices d' = practices acme_alone)
       /\ (forall again,
             snd (render (get_practice_detail again "1") d') = d').
Proof.
  split; [exact acme_alone_wf |].
  split; [reflexivity |].
  split; [left; reflexivity |].
  apply (practice_detail_ensures_lead 50 "1" acme_alone acme_practice);
    [exact acme_alone_wf | reflexivity | left; reflexivity].
Defined.

Lemma patch_clear_notes_echo :
  wf_db two_practices
  /\ In acme_lead (leads two_practices)
  /\ Str.parseInt "1" = Some (l_id acme_lead)
  /\ if @update_fits example_driver (patch_fields clear_notes)
     then exists l',
            find_lead (l_id acme_lead)
                      (@patched example_driver 20 21 "1" clear_notes two_practices)
            = Some l'
            /\ fst (respond (@patch_lead example_driver 20 21 "1" clear_notes) two_practices)
               = lead_json l'
            /\ (lead_updates (patch_fields clear_notes) <> [] -> l_updated_at l' = 21)
            /\ (lead_updates (patch_fields clear_notes) = [] -> l' = acme_lead)
            /\ (lf_notes (patch_fields clear_notes) = JNull -> l_notes l' = None)
     else fst (respond (@patch_lead example_driver 20 21 "1" clear_notes) two_practices)
          = ServerError.
Proof.
  split; [exact two_practices_wf |].
  split; [left; reflexivity |].
  split; [reflexivity |].
  apply (@patch_echoes_stored_row example_driver 20 21 "1" clear_notes two_practices
           acme_lead);
    [exact two_practices_wf | left; reflexivity | reflexivity].
Defined.

